(** * pAI_Lang tooling: token registry, synthesizer, grammar and context manager

  A shallow embedding of the core of the pAI_Lang compiler/decoder:

  - [TokenIDGenerator]  (compiler/semantic_analyzer/token_id_generator.py)
  - [StructureSynthesizer] (compiler/structure_synthesizer.py)
  - [ExpressionSynthesizer] (compiler/structure_synthesizer/expression_synthesizer.py)
  - [PAILangParser] (decoder/pailang_parser.py)
  - [ContextManager] (decoder/context_manager.py)

  Python strings are modelled as [string] over ASCII characters, Python
  dictionaries as association lists in insertion order (iteration order is
  observable in the code), Python integers as [N]. *)

From Stdlib Require Import String Ascii List NArith ZArith Lia Bool Arith.
From Stdlib Require Import DecimalString DecimalN.
Import ListNotations.
Open Scope string_scope.

Set Implicit Arguments.

(* ================================================================== *)
(** * Python dictionaries keyed by strings *)
(* ================================================================== *)

Module Dict.

Definition dict (V : Type) := list (string * V).

(** [d.get(k)] *)
Fixpoint get {V} (d : dict V) (k : string) : option V :=
  match d with
  | [] => None
  | (k', v) :: r => if String.eqb k' k then Some v else get r k
  end.

(** [k in d] *)
Definition mem {V} (d : dict V) (k : string) : bool :=
  match get d k with Some _ => true | None => false end.

(** [d.get(k, dflt)] *)
Definition get_default {V} (d : dict V) (k : string) (dflt : V) : V :=
  match get d k with Some v => v | None => dflt end.

(** [d[k] = v]: an existing key keeps its position, a new key goes last. *)
Fixpoint set {V} (d : dict V) (k : string) (v : V) : dict V :=
  match d with
  | [] => [(k, v)]
  | (k', v') :: r =>
      if String.eqb k' k then (k', v) :: r else (k', v') :: set r k v
  end.

Definition keys {V} (d : dict V) : list string := map fst d.
Definition values {V} (d : dict V) : list V := map snd d.

End Dict.

(* ================================================================== *)
(** * Python string helpers (ASCII) *)
(* ================================================================== *)

Module PyStr.

Definition code (c : ascii) : N := N_of_ascii c.

Definition is_upper (c : ascii) : bool := (65 <=? code c)%N && (code c <=? 90)%N.
Definition is_lower (c : ascii) : bool := (97 <=? code c)%N && (code c <=? 122)%N.
Definition is_digit (c : ascii) : bool := (48 <=? code c)%N && (code c <=? 57)%N.

(** [\w] on ASCII: letters, digits and the underscore. *)
Definition is_word (c : ascii) : bool :=
  is_upper c || is_lower c || is_digit c || (code c =? 95)%N.

(** [\s] on ASCII: TAB, LF, VT, FF, CR, the separators 0x1c-0x1f and space. *)
Definition is_space (c : ascii) : bool :=
  ((9 <=? code c)%N && (code c <=? 13)%N)
  || ((28 <=? code c)%N && (code c <=? 31)%N)
  || (code c =? 32)%N.

Definition lower_char (c : ascii) : ascii :=
  if is_upper c then ascii_of_N (code c + 32) else c.

(** [s.lower()] *)
Fixpoint lower (s : string) : string :=
  match s with
  | EmptyString => EmptyString
  | String c r => String (lower_char c) (lower r)
  end.

Fixpoint filter (p : ascii -> bool) (s : string) : string :=
  match s with
  | EmptyString => EmptyString
  | String c r => if p c then String c (filter p r) else filter p r
  end.

(** [re.sub(r'\s+', '_', s)]: every maximal run of white space becomes one
    underscore.  [in_run] records that the previous character was white
    space. *)
Fixpoint collapse_ws (in_run : bool) (s : string) : string :=
  match s with
  | EmptyString => EmptyString
  | String c r =>
      if is_space c
      then (if in_run then collapse_ws true r else String "_" (collapse_ws true r))
      else String c (collapse_ws false r)
  end.

(** [s.isdigit()] on ASCII: non-empty and only decimal digits. *)
Fixpoint all_digits (s : string) : bool :=
  match s with
  | EmptyString => true
  | String c r => is_digit c && all_digits r
  end.

Definition isdigit (s : string) : bool :=
  match s with EmptyString => false | _ => all_digits s end.

(** [int(s)] for a string of decimal digits, the only strings the code
    applies it to ([isdigit] guards the other uses); [0] stands for the
    [ValueError] of any other string. *)
Definition int (s : string) : N :=
  match NilEmpty.uint_of_string s with
  | Some d => N.of_uint d
  | None => 0%N
  end.

(** [str(n)] for a non-negative integer: its decimal digits. *)
Definition str (n : N) : string := NilEmpty.string_of_uint (N.to_uint n).

(** [str(n).zfill(2)] and [f"{n:02d}"] agree on non-negative integers:
    at least two digits, padded with a zero on the left. *)
Definition zfill2 (s : string) : string :=
  match s with
  | String c EmptyString => String "0" (String c EmptyString)
  | EmptyString => "00"
  | _ => s
  end.

Definition format_02d (n : N) : string := zfill2 (str n).

(** [sub in s] *)
Fixpoint contains (sub s : string) : bool :=
  if String.prefix sub s then true
  else match s with
       | EmptyString => false
       | String _ r => contains sub r
       end.

Fixpoint to_list (s : string) : list ascii :=
  match s with
  | EmptyString => []
  | String c r => c :: to_list r
  end.

(** [s.split(sep)] for a separator of one character: never empty. *)
Fixpoint split (sep : ascii) (s : string) : list string :=
  match s with
  | EmptyString => [EmptyString]
  | String c r =>
      if Ascii.eqb c sep then EmptyString :: split sep r
      else match split sep r with
           | h :: t => String c h :: t
           | [] => [String c EmptyString]
           end
  end.

(** [s.split(sep, 1)] when [sep in s]: the text before the first
    separator and the text after it. *)
Fixpoint split_once (sep : ascii) (s : string) : option (string * string) :=
  match s with
  | EmptyString => None
  | String c r =>
      if Ascii.eqb c sep then Some (EmptyString, r)
      else match split_once sep r with
           | Some (before, rest) => Some (String c before, rest)
           | None => None
           end
  end.

(** [s[:-1]] *)
Fixpoint drop_last (s : string) : string :=
  match s with
  | EmptyString => EmptyString
  | String c EmptyString => EmptyString
  | String c r => String c (drop_last r)
  end.

(** [s[1:-1]] *)
Definition inner (s : string) : string :=
  match s with
  | EmptyString => EmptyString
  | String _ r => drop_last r
  end.

(** [s.startswith(c)] and [s.endswith(c)] for one character. *)
Definition startswith (c : ascii) (s : string) : bool :=
  match s with
  | String x _ => Ascii.eqb x c
  | EmptyString => false
  end.

Fixpoint endswith (c : ascii) (s : string) : bool :=
  match s with
  | EmptyString => false
  | String x EmptyString => Ascii.eqb x c
  | String _ r => endswith c r
  end.

(** [sep.join(parts)] for a separator of one character. *)
Fixpoint join (sep : ascii) (parts : list string) : string :=
  match parts with
  | [] => EmptyString
  | [p] => p
  | p :: rest => p ++ String sep (join sep rest)
  end.

(** [c not in s] *)
Fixpoint without (c : ascii) (s : string) : bool :=
  match s with
  | EmptyString => true
  | String x r => negb (Ascii.eqb x c) && without c r
  end.

End PyStr.

(* ================================================================== *)
(** * SHA-256 (hashlib.sha256), as far as the generator needs it *)
(* ================================================================== *)

Module Sha256.
Local Open Scope N_scope.

Definition w32 : N := 4294967296.
Definition add32 (a b : N) : N := (a + b) mod w32.
Definition rotr (n x : N) : N :=
  N.lor (N.shiftr x n) ((N.shiftl x (32 - n)) mod w32).
Definition shr (n x : N) : N := N.shiftr x n.
Definition not32 (x : N) : N := N.lxor x (w32 - 1).

Definition Ch (x y z : N) := N.lxor (N.land x y) (N.land (not32 x) z).
Definition Maj (x y z : N) :=
  N.lxor (N.lxor (N.land x y) (N.land x z)) (N.land y z).
Definition bsig0 x := N.lxor (N.lxor (rotr 2 x) (rotr 13 x)) (rotr 22 x).
Definition bsig1 x := N.lxor (N.lxor (rotr 6 x) (rotr 11 x)) (rotr 25 x).
Definition ssig0 x := N.lxor (N.lxor (rotr 7 x) (rotr 18 x)) (shr 3 x).
Definition ssig1 x := N.lxor (N.lxor (rotr 17 x) (rotr 19 x)) (shr 10 x).

Definition K : list N :=
  [1116352408; 1899447441; 3049323471; 3921009573; 961987163; 1508970993;
   2453635748; 2870763221; 3624381080; 310598401; 607225278; 1426881987;
   1925078388; 2162078206; 2614888103; 3248222580; 3835390401; 4022224774;
   264347078; 604807628; 770255983; 1249150122; 1555081692; 1996064986;
   2554220882; 2821834349; 2952996808; 3210313671; 3336571891; 3584528711;
   113926993; 338241895; 666307205; 773529912; 1294757372; 1396182291;
   1695183700; 1986661051; 2177026350; 2456956037; 2730485921; 2820302411;
   3259730800; 3345764771; 3516065817; 3600352804; 4094571909; 275423344;
   430227734; 506948616; 659060556; 883997877; 958139571; 1322822218;
   1537002063; 1747873779; 1955562222; 2024104815; 2227730452; 2361852424;
   2428436474; 2756734187; 3204031479; 3329325298].

Definition H0 : list N :=
  [1779033703; 3144134277; 1013904242; 2773480762;
   1359893119; 2600822924; 528734635; 1541459225].

(** Big-endian bytes of [n], [k] of them. *)
Fixpoint be_bytes (k : nat) (n : N) : list N :=
  match k with
  | O => []
  | S k' => (be_bytes k' (n / 256) ++ [n mod 256])%list
  end.

(** Message padding: 0x80, zeros up to 56 mod 64, the bit length on 8 bytes. *)
Definition pad (msg : list N) : list N :=
  let len := N.of_nat (length msg) in
  let zeros := N.to_nat ((64 + 55 - len mod 64) mod 64) in
  (msg ++ [128] ++ repeat 0 zeros ++ be_bytes 8 (8 * len))%list.

Fixpoint words (fuel : nat) (bs : list N) : list N :=
  match fuel, bs with
  | S f, a :: b :: c :: d :: r =>
      (((a * 256 + b) * 256 + c) * 256 + d) :: words f r
  | _, _ => []
  end.

(** The message schedule, most recent word first. *)
Fixpoint schedule (n : nat) (rev_w : list N) : list N :=
  match n with
  | O => rev_w
  | S n' =>
      let g i := nth i rev_w 0 in
      let w := add32 (add32 (ssig1 (g 1%nat)) (g 6%nat))
                     (add32 (ssig0 (g 14%nat)) (g 15%nat)) in
      schedule n' (w :: rev_w)
  end.

Definition round (st : list N) (kw : N * N) : list N :=
  match st with
  | [a; b; c; d; e; f; g; h] =>
      let t1 := add32 (add32 (add32 h (bsig1 e)) (add32 (Ch e f g) (fst kw))) (snd kw) in
      let t2 := add32 (bsig0 a) (Maj a b c) in
      [add32 t1 t2; a; b; c; add32 d t1; e; f; g]
  | _ => st
  end.

Definition compress (h : list N) (block : list N) : list N :=
  let w := rev (schedule 48 (rev block)) in
  let st := fold_left round (combine K w) h in
  map (fun p => add32 (fst p) (snd p)) (combine h st).

Fixpoint blocks (fuel : nat) (ws : list N) (h : list N) : list N :=
  match fuel with
  | O => h
  | S f =>
      match ws with
      | [] => h
      | _ => blocks f (skipn 16 ws) (compress h (firstn 16 ws))
      end
  end.

Definition digest_words (msg : list N) : list N :=
  let bs := pad msg in
  let ws := words (length bs) bs in
  blocks (length ws) ws H0.

(** [int(hashlib.sha256(s.encode()).hexdigest()[:8], 16)]: the first
    32-bit word of the digest. *)
Definition seed (s : string) : N :=
  nth 0 (digest_words (map PyStr.code (PyStr.to_list s))) 0.

End Sha256.

(* ================================================================== *)
(** * TokenIDGenerator (token_id_generator.py) *)
(* ================================================================== *)

Module TokenIDGenerator.
Import Dict.
Local Open Scope N_scope.

(** [category -> (normalized value -> bare identifier)] *)
Definition registry := dict (dict string).

Definition category_prefixes : dict string :=
  [("system", "S"); ("context", "C"); ("task", "T"); ("condition", "L");
   ("action", "P"); ("resource", "R"); ("query", "Q"); ("batch", "B");
   ("directive", "D"); ("memory", "M"); ("network", "N"); ("handler", "H");
   ("security", "S")].

(** The attributes of one [TokenIDGenerator] object. *)
Record generator := {
  token_registry_path : option string;
  token_registry : registry;
  category_counters : dict N
}.

(** The object together with what it reads from outside: the document
    stored at [token_registry_path] ([None] when there is no readable
    file), whether that location can be written, and the stream of values
    [int(str(uuid.uuid4()).replace('-', '')[-2:], 16)] with the number of
    UUIDs drawn so far. *)
Record world := {
  self : generator;
  store : option registry;
  store_writable : bool;
  uuid4 : nat -> N;
  uuid_drawn : nat
}.

Definition with_self (w : world) (g : generator) : world :=
  {| self := g; store := store w; store_writable := store_writable w;
     uuid4 := uuid4 w; uuid_drawn := uuid_drawn w |}.

(** Truthiness of [self.token_registry_path]. *)
Definition path_set (p : option string) : bool :=
  match p with
  | Some (String _ _) => true
  | _ => false
  end.

Definition _normalize_value (value : string) : string :=
  match value with
  | EmptyString => ""
  | _ =>
      let normalized := PyStr.lower value in
      let normalized :=
        PyStr.filter (fun c => PyStr.is_word c || PyStr.is_space c) normalized in
      PyStr.collapse_ws false normalized
  end.

(** [_save_token_registry]: a failed write is logged and otherwise ignored. *)
Definition _save_token_registry (w : world) : world :=
  if path_set (token_registry_path (self w)) && store_writable w
  then {| self := self w; store := Some (token_registry (self w));
          store_writable := store_writable w;
          uuid4 := uuid4 w; uuid_drawn := uuid_drawn w |}
  else w.

(** [category in registry and any(tid == s for tid in registry[category].values())] *)
Definition id_taken (r : registry) (category s : string) : bool :=
  match get r category with
  | Some d => existsb (fun tid => String.eqb tid s) (values d)
  | None => false
  end.

(** The collision loop of [_generate_new_token_id].  [first] is
    [((seed + category_counter) % 99) + 1]; [None] stands for a loop that
    has not stopped within [fuel] iterations. *)
Fixpoint probe (fuel : nat) (w : world) (category : string)
         (first token_id : N) : option (N * world) :=
  match fuel with
  | O => None
  | S f =>
      if id_taken (token_registry (self w)) category
                  (PyStr.zfill2 (PyStr.str token_id))
      then
        let token_id := token_id mod 99 + 1 in
        if token_id =? first
        then
          let token_id := uuid4 w (uuid_drawn w) mod 99 + 1 in
          probe f {| self := self w; store := store w;
                     store_writable := store_writable w; uuid4 := uuid4 w;
                     uuid_drawn := S (uuid_drawn w) |}
                category first token_id
        else probe f w category first token_id
      else Some (token_id, w)
  end.

Definition _generate_new_token_id (fuel : nat) (w : world)
           (value category : string) : option (string * world) :=
  let counters := category_counters (self w) in
  let next_id := get_default counters category 1 in
  let found :=
    match value with
    | String _ _ =>
        let seed := Sha256.seed value in
        let category_counter := get_default counters category 1 in
        let token_id := (seed + category_counter) mod 99 + 1 in
        probe fuel w category token_id token_id
    | EmptyString => Some (next_id, w)
    end in
  match found with
  | None => None
  | Some (token_id, w') =>
      let g := self w' in
      Some (PyStr.format_02d token_id,
            with_self w'
              {| token_registry_path := token_registry_path g;
                 token_registry := token_registry g;
                 category_counters :=
                   set (category_counters g) category (N.max next_id token_id + 1) |})
  end.

(** [registry[category][value]] when both keys are present. *)
Definition lookup (r : registry) (category value : string) : option string :=
  match get r category with
  | Some d => get d value
  | None => None
  end.

(** [registry[category][value] = token_id], creating the category first
    when it is missing. *)
Definition store_token (r : registry) (category value token_id : string) : registry :=
  let r := if mem r category then r else set r category [] in
  set r category (set (get_default r category []) value token_id).

Definition generate_token_id (fuel : nat) (w : world)
           (value category : string) : option (string * world) :=
  let normalized_value := _normalize_value value in
  let normalized_category := PyStr.lower category in
  let prefix := get_default category_prefixes normalized_category "D" in
  match lookup (token_registry (self w)) normalized_category normalized_value with
  | Some token_id => Some (prefix ++ token_id, w)
  | None =>
      match _generate_new_token_id fuel w normalized_value normalized_category with
      | None => None
      | Some (token_id, w1) =>
          let g := self w1 in
          let reg := store_token (token_registry g) normalized_category
                                 normalized_value token_id in
          let counters :=
            match get (category_counters g) normalized_category with
            | Some c => set (category_counters g) normalized_category
                            (N.max c (PyStr.int token_id + 1))
            | None => category_counters g
            end in
          let w2 := with_self w1
                      {| token_registry_path := token_registry_path g;
                         token_registry := reg;
                         category_counters := counters |} in
          Some (prefix ++ token_id, _save_token_registry w2)
      end
  end.

Definition get_token_id := generate_token_id.

(** [get_value_from_token]; [None] is the pair [(None, None)]. *)
Definition get_value_from_token (g : generator) (token : string)
  : option (string * string) :=
  match token with
  | EmptyString => None
  | String prefix token_id =>
      if (String.length token <? 2)%nat then None
      else
        match find (fun cp => String.eqb (snd cp) (String prefix "")) category_prefixes with
        | None => None
        | Some (category, _) =>
            match get (token_registry g) category with
            | Some d =>
                match find (fun vt => String.eqb (snd vt) token_id) d with
                | Some (value, _) => Some (value, category)
                | None => None
                end
            | None => None
            end
        end
  end.

(** ** Construction and reload *)

(** [_load_token_registry], called by [__init__] before
    [self.category_prefixes] is assigned: the document is returned when
    the path is set and the file can be read; the fall-through that would
    build the empty registry reads [self.category_prefixes] and raises
    [AttributeError], which is [None] here. *)
Definition _load_token_registry (path : option string) (st : option registry)
  : option registry :=
  if path_set path then st else None.

Definition max_numeric_id (tokens : dict string) : N :=
  fold_left (fun max_id token_id =>
               if PyStr.isdigit token_id then N.max max_id (PyStr.int token_id)
               else max_id)
            (values tokens) 0.

Definition _initialize_category_counters (r : registry) (counters : dict N) : dict N :=
  fold_left (fun cs ct =>
               if mem cs (fst ct) then set cs (fst ct) (max_numeric_id (snd ct) + 1)
               else cs)
            r counters.

Definition initial_counters : dict N :=
  map (fun cp => (fst cp, 1)) category_prefixes.

(** [TokenIDGenerator(token_registry_path)] *)
Definition init (path : option string) (w : world) : option world :=
  match _load_token_registry path (store w) with
  | None => None
  | Some r =>
      Some (with_self w
              {| token_registry_path := path;
                 token_registry := r;
                 category_counters := _initialize_category_counters r initial_counters |})
  end.

(** A registry reload: a new generator on the same path. *)
Definition reload (w : world) : option world :=
  init (token_registry_path (self w)) w.

(** The registry the fall-through of [_load_token_registry] describes. *)
Definition empty_registry : registry :=
  map (fun cp => (fst cp, [])) category_prefixes.

(** ** Registered identifiers of a category *)

Definition ids_of (r : registry) (category : string) : list string :=
  match get r category with
  | Some d => values d
  | None => []
  end.

Definition two_digit_numeric (s : string) : bool :=
  match s with
  | String a (String b EmptyString) => PyStr.is_digit a && PyStr.is_digit b
  | _ => false
  end.

(** The number of distinct two-digit numeric identifiers registered in a
    category. *)
Definition distinct_two_digit_ids (r : registry) (category : string) : nat :=
  length (nodup string_dec (filter two_digit_numeric (ids_of r category))).

(** The identifiers the probing loop ranges over: 1..99. *)
Definition candidates : list N := map N.of_nat (seq 1 99).

(** Number of forward steps (wrapping at 99) from [t] to [n]. *)
Definition steps_to (n t : N) : N :=
  if t <=? n then n - t else n + 99 - t.


(** ** Predicates used in the statements *)

Definition known_prefix (c : ascii) : bool :=
  existsb (fun cp => String.eqb (snd cp) (String c "")) category_prefixes.

(** No token is registered in any category. *)
Definition registry_empty (r : registry) : Prop :=
  forall category, ids_of r category = [].

(** What can happen to a generator between two calls: another call of
    [generate_token_id] that returns, or a reload from the store. *)
Inductive step : world -> world -> Prop :=
| step_generate fuel w value category token w' :
    generate_token_id fuel w value category = Some (token, w') -> step w w'
| step_reload w w' :
    reload w = Some w' -> step w w'.


(** The generators reached from a given one by calls of
    [generate_token_id] alone. *)
Inductive calls : world -> world -> Prop :=
| calls_none w : calls w w
| calls_more w1 w2 w3 fuel value category token :
    calls w1 w2 ->
    generate_token_id fuel w2 value category = Some (token, w3) ->
    calls w1 w3.

(** The registry invariant of one category: identifiers are non-empty and
    pairwise distinct, and the category counter lies above every numeric
    identifier in use. *)
Record well_formed (w : world) (category : string) : Prop := {
  wf_distinct : NoDup (ids_of (token_registry (self w)) category);
  wf_nonempty : ~ In "" (ids_of (token_registry (self w)) category);
  wf_counter :
    forall token_id,
      In token_id (ids_of (token_registry (self w)) category) ->
      PyStr.isdigit token_id = true ->
      PyStr.int token_id < get_default (category_counters (self w)) category 1
}.


(** ** Concrete generators *)

Definition in_memory (r : registry) (counters : dict N) : world :=
  {| self := {| token_registry_path := None;
                token_registry := r;
                category_counters := counters |};
     store := None; store_writable := false;
     uuid4 := fun _ => 0; uuid_drawn := 0 |}.

(** A generator whose registry was loaded from a store holding the empty
    registry. *)
Definition on_disk (path : string) : world :=
  {| self := {| token_registry_path := Some path;
                token_registry := empty_registry;
                category_counters := initial_counters |};
     store := Some empty_registry; store_writable := true;
     uuid4 := fun _ => 0; uuid_drawn := 0 |}.

(** The category [task] with the identifiers 01..98 in use. *)
Definition crowded_tasks : registry :=
  [("task", map (fun n => ("value_" ++ PyStr.format_02d n, PyStr.format_02d n))
                (firstn 98 candidates))].

(** A category with all of 01..99 in use. *)
Definition saturated (category : string) : registry :=
  [(category, map (fun n => ("value_" ++ PyStr.format_02d n, PyStr.format_02d n))
                  candidates)].

(** The same generator with the UUIDs of the stream [uuids] ahead. *)
Definition drawing (uuids : nat -> N) (w : world) : world :=
  {| self := self w; store := store w; store_writable := store_writable w;
     uuid4 := uuids; uuid_drawn := uuid_drawn w |}.

(** [generate_token_id] called for each of [values] in turn, as a caller
    registering a vocabulary does. *)
Fixpoint generate_all (fuel : nat) (w : world) (values : list string)
         (category : string) : option world :=
  match values with
  | [] => Some w
  | value :: rest =>
      match generate_token_id fuel w value category with
      | Some (_, w') => generate_all fuel w' rest category
      | None => None
      end
  end.

(** Ninety-nine values, plugin 01 to plugin 99. *)
Definition plugin_values : list string :=
  map (fun n => "plugin " ++ PyStr.format_02d n) candidates.

(** ** Registration by hand *)

(** The identifier [register_token] stores: a leading category prefix is
    dropped from a token of more than one character. *)
Definition bare_identifier (token_id : string) : string :=
  match token_id with
  | String c (String c' rest) =>
      if known_prefix c then String c' rest else token_id
  | _ => token_id
  end.

(** [register_token(value, category, token_id)], for a string [token_id];
    the method returns [True] on every path. *)
Definition register_token (w : world) (value category token_id : string)
  : bool * world :=
  let normalized_value := _normalize_value value in
  let normalized_category := PyStr.lower category in
  let token_id := bare_identifier token_id in
  let g := self w in
  let reg := store_token (token_registry g) normalized_category
                         normalized_value token_id in
  let counters :=
    match get (category_counters g) normalized_category with
    | Some c =>
        if PyStr.isdigit token_id
        then set (category_counters g) normalized_category
                 (N.max c (PyStr.int token_id + 1))
        else category_counters g
    | None => category_counters g
    end in
  (true,
   _save_token_registry
     (with_self w {| token_registry_path := token_registry_path g;
                     token_registry := reg;
                     category_counters := counters |})).

(** ** Normalized values *)

(** The characters of a normalized value: lower-case letters, digits and
    the underscore. *)
Definition clean (c : ascii) : bool :=
  PyStr.is_lower c || PyStr.is_digit c || (PyStr.code c =? 95).


Fixpoint all_clean (s : string) : bool :=
  match s with
  | EmptyString => true
  | String c r => clean c && all_clean r
  end.


End TokenIDGenerator.

(* ================================================================== *)
(** * ContextManager (decoder/context_manager.py) *)
(* ================================================================== *)

Module ContextManager.
Import Dict.

Local Unset Elimination Schemes.

(** JSON-shaped Python values: token definitions, contexts and modifiers
    are dictionaries of such values. *)
Inductive value : Type :=
| VNone
| VBool (b : bool)
| VInt (z : Z)
| VStr (s : string)
| VList (items : list value)
| VDict (entries : list (string * value)).

Local Set Elimination Schemes.

(** Truthiness, as [if not x] tests it. *)
Definition truthy (v : value) : bool :=
  match v with
  | VNone => false
  | VBool b => b
  | VInt z => negb (Z.eqb z 0)
  | VStr s => negb (String.eqb s "")
  | VList l => match l with [] => false | _ => true end
  | VDict d => match d with [] => false | _ => true end
  end.

(** A token as the parser builds it; only the two keys the context manager
    reads are kept: [token.get('value')] and [token.get('categoryCode')]. *)
Record token := {
  token_value : option string;
  categoryCode : option string
}.

(** [self.context_stack]: a Python list, the last element is the top. *)
Definition context_stack := list value.

Definition activate_context (stack : context_stack) (context : value) : context_stack :=
  (stack ++ [context])%list.

(** [deactivate_context]: the popped context, if any, and the new stack. *)
Definition deactivate_context (stack : context_stack) : option value * context_stack :=
  match rev stack with
  | [] => (None, stack)
  | top :: below => (Some top, rev below)
  end.

Definition get_current_context (stack : context_stack) : option value :=
  match rev stack with
  | [] => None
  | top :: _ => Some top
  end.

(** [d.get(k)] with a key that may be [None]. *)
Definition get_opt (d : dict value) (k : option string) : option value :=
  match k with
  | Some s => get d s
  | None => None
  end.

(** [dict.update]: existing keys are overwritten in place, new ones
    appended. *)
Definition update (d e : dict value) : dict value :=
  fold_left (fun acc kv => set acc (fst kv) (snd kv)) e d.

(** The body of the loop over [value.items()] for the key ['extend']. *)
Definition extend_item (modified_def : dict value) (prop_key : string)
           (prop_value : value) : dict value :=
  match get modified_def prop_key with
  | None => set modified_def prop_key prop_value
  | Some (VDict d) =>
      match prop_value with
      | VDict e => set modified_def prop_key (VDict (update d e))
      | _ => set modified_def prop_key prop_value
      end
  | Some (VList l) =>
      match prop_value with
      | VList e => set modified_def prop_key (VList (l ++ e))
      | _ => set modified_def prop_key prop_value
      end
  | Some _ => set modified_def prop_key prop_value
  end.

Definition extend_items (modified_def : dict value) (items : dict value) : dict value :=
  fold_left (fun acc kv => extend_item acc (fst kv) (snd kv)) items modified_def.

(** The body of the loop over [value.items()] for the key ['modify']. *)
Definition modify_items (modified_def : dict value) (items : dict value) : dict value :=
  fold_left (fun acc kv => if mem acc (fst kv) then set acc (fst kv) (snd kv) else acc)
            items modified_def.

(** The loop over [modifier.items()].  [None] stands for the
    [AttributeError] of calling [.items()] on a value that is no
    dictionary. *)
Fixpoint apply_modifier_items (modified_def : dict value) (items : dict value)
  : option value :=
  match items with
  | [] => Some (VDict modified_def)
  | (key, v) :: rest =>
      if String.eqb key "override" then Some v
      else if String.eqb key "extend" then
        match v with
        | VDict e => apply_modifier_items (extend_items modified_def e) rest
        | _ => None
        end
      else if String.eqb key "modify" then
        match v with
        | VDict e => apply_modifier_items (modify_items modified_def e) rest
        | _ => None
        end
      else apply_modifier_items modified_def rest
  end.

(** [_apply_context_modifier(token_def, modifier)].  The function works on
    a shallow copy, so the nested dictionaries and lists it merges into are
    those of [token_def] itself; the model gives the returned definition. *)
Definition _apply_context_modifier (token_def : dict value) (modifier : value)
  : option value :=
  match modifier with
  | VDict m => apply_modifier_items token_def m
  | _ => None
  end.

(** The loop [for ctx in self.context_stack]: from the first element of the
    list, the bottom of the stack.  Contexts, their definitions and the
    [tokenModifiers] table are dictionaries; [None] is returned for any
    other shape, on which the Python code raises (or, for some shapes, goes
    on in a way this model does not follow). *)
Fixpoint scan_contexts (contexts : list value) (tok : token) (token_def : dict value)
  : option value :=
  match contexts with
  | [] => Some (VDict token_def)
  | ctx :: rest =>
      match ctx with
      | VDict c =>
          match get_default c "definition" (VDict []) with
          | VDict ctx_def =>
              match get ctx_def "tokenModifiers" with
              | Some (VDict modifiers) =>
                  match get_opt modifiers (categoryCode tok) with
                  | Some modifier => _apply_context_modifier token_def modifier
                  | None => scan_contexts rest tok token_def
                  end
              | Some _ => None
              | None => scan_contexts rest tok token_def
              end
          | _ => None
          end
      | _ => None
      end
  end.

(** [resolve_in_context(token, token_dictionary)] on the current stack.
    Token definitions are dictionaries. *)
Definition resolve_in_context (stack : context_stack) (tok : token)
           (token_dictionary : dict (dict value)) : option value :=
  let token_def :=
    match token_value tok with
    | Some v => get_default token_dictionary v []
    | None => []
    end in
  match get_current_context stack with
  | None => Some (VDict token_def)
  | Some active_context =>
      if negb (truthy active_context) then Some (VDict token_def)
      else
        match active_context with
        | VDict c =>
            let context_id := get c "id" in
            let behavior :=
              match get token_def "contextBehaviors", context_id with
              | Some (VDict behaviors), Some (VStr id) => Some (get behaviors id)
              | Some (VDict behaviors), Some (VList _ | VDict _) => None
              | Some (VDict behaviors), _ => Some None
              | Some _, _ => None
              | None, _ => Some None
              end in
            match behavior with
            | None => None
            | Some (Some definition) => Some definition
            | Some None => scan_contexts stack tok token_def
            end
        | _ => None
        end
  end.

(** What the ['extend'] loop leaves under a key: the merge of the value the
    definition had there, if any, with the value of the extension. *)
Definition merged (existing : option value) (prop_value : value) : value :=
  match existing, prop_value with
  | Some (VDict d), VDict e => VDict (update d e)
  | Some (VList l), VList e => VList (l ++ e)
  | _, _ => prop_value
  end.

(** ** Contexts used in the examples *)

(** A context whose definition overrides every task token. *)
Definition overriding (id definition : string) : value :=
  VDict [("id", VStr id);
         ("definition",
          VDict [("tokenModifiers",
                  VDict [("T", VDict [("override", VStr definition)])])]);
         ("properties", VDict [])].

(** ** Activation of contexts from a parsed expression *)

(** [v == s] for the value under a key that may be missing. *)
Definition is_str (v : option value) (s : string) : bool :=
  match v with
  | Some (VStr x) => String.eqb x s
  | _ => false
  end.

(** [d.get(k)], [None] included. *)
Definition get_or_none (d : dict value) (k : string) : value :=
  match get d k with
  | Some v => v
  | None => VNone
  end.

(** [is_context_active(context_id)] for a string; [None] is the
    [AttributeError] of a context that is no dictionary and is reached
    before a match. *)
Fixpoint is_context_active (stack : context_stack) (context_id : string)
  : option bool :=
  match stack with
  | [] => Some false
  | VDict c :: rest =>
      if is_str (get c "id") context_id then Some true
      else is_context_active rest context_id
  | _ :: _ => None
  end.

(** [_activate_single_context(context_token, token_dictionary)]: the new
    stack; [None] is an exception ([AttributeError] for a token that is no
    dictionary, [TypeError] for a value that cannot be a key). *)
Definition _activate_single_context (stack : context_stack) (context_token : value)
           (token_dictionary : dict (dict value)) : option context_stack :=
  match context_token with
  | VDict t =>
      if (is_str (get t "type") "StandardToken" || is_str (get t "type") "ComplexToken")
         && is_str (get t "categoryCode") "C"
      then
        let token_value := get_or_none t "value" in
        match token_value with
        | VList _ | VDict _ => None
        | _ =>
            let token_def :=
              match token_value with
              | VStr s => get_default token_dictionary s []
              | _ => []
              end in
            Some (activate_context
                    stack
                    (VDict [("id", token_value);
                            ("definition", VDict token_def);
                            ("properties", get_default token_def "properties" (VDict []))]))
        end
      else Some stack
  | _ => None
  end.

(** The loop over the expressions of a token sequence: contexts activated
    before an exception stay on the stack. *)
Fixpoint activate_each (stack : context_stack) (expressions : list value)
         (token_dictionary : dict (dict value)) : bool * context_stack :=
  match expressions with
  | [] => (true, stack)
  | expr :: rest =>
      match _activate_single_context stack expr token_dictionary with
      | Some stack' => activate_each stack' rest token_dictionary
      | None => (false, stack)
      end
  end.

(** [process_context_activation(context_activation, token_dictionary)]:
    every exception is caught and gives [False]. *)
Definition process_context_activation (stack : context_stack)
           (context_activation : value) (token_dictionary : dict (dict value))
  : bool * context_stack :=
  match context_activation with
  | VDict a =>
      match get a "expression" with
      | Some (VDict e) =>
          if is_str (get e "type") "TokenSequence" then
            match get e "expressions" with
            | None => (true, stack)
            | Some (VList l) => activate_each stack l token_dictionary
            | Some (VDict []) => (true, stack)
            | Some (VStr EmptyString) => (true, stack)
            | Some _ => (false, stack)
            end
          else
            match _activate_single_context stack (VDict e) token_dictionary with
            | Some stack' => (true, stack')
            | None => (false, stack)
            end
      | _ => (false, stack)
      end
  | _ => (false, stack)
  end.

(** [_process_context_activations(ast_node)]: the node itself, then the
    dictionaries among its values and among the items of its list
    values, in the order of the keys. *)
Fixpoint _process_context_activations (ast_node : value) (stack : context_stack)
         {struct ast_node} : context_stack :=
  match ast_node with
  | VDict entries =>
      let stack :=
        if is_str (get entries "type") "ContextActivation"
        then snd (process_context_activation stack ast_node [])
        else stack in
      (fix over (items : list (string * value)) (stack : context_stack)
           {struct items} : context_stack :=
         match items with
         | [] => stack
         | (_, v) :: rest =>
             over rest
                  match v with
                  | VDict _ => _process_context_activations v stack
                  | VList l =>
                      (fix each (l : list value) (stack : context_stack)
                           {struct l} : context_stack :=
                         match l with
                         | [] => stack
                         | item :: l' =>
                             each l'
                                  match item with
                                  | VDict _ => _process_context_activations item stack
                                  | _ => stack
                                  end
                         end) l stack
                  | _ => stack
                  end
         end) entries stack
  | _ => stack
  end.

(** The context manager: its stack and [self.system_context]. *)
Record manager := {
  contexts : context_stack;
  system_context : value
}.

(** [ContextManager()] *)
Definition new_manager : manager := {| contexts := []; system_context := VNone |}.

(** The loop over the parts of a version string: a part without ["-"] is
    skipped. *)
Definition version_entries (version_str : string) : dict value :=
  fold_left (fun versions part =>
               match PyStr.split_once "-" part with
               | Some (component, version) => set versions component (VStr version)
               | None => versions
               end)
            (PyStr.split "," (PyStr.inner version_str)) [].

(** [initialize_system_context(ast, token_dictionary)]: the system context
    and the manager it was pushed to; [None] is an exception. *)
Definition initialize_system_context (m : manager) (ast : dict value)
           (token_dictionary : dict (dict value)) : option (value * manager) :=
  let system_id :=
    match get ast "systemIdentifier" with
    | None => Some VNone
    | Some (VDict d) => Some (get_or_none d "value")
    | Some _ => None
    end in
  let versions :=
    match get ast "versionDeclaration" with
    | None => Some []
    | Some (VDict d) =>
        match get_default d "value" (VStr "") with
        | VStr version_str =>
            if PyStr.startswith "[" version_str && PyStr.endswith "]" version_str
            then Some (version_entries version_str)
            else Some []
        | _ => None
        end
    | Some _ => None
    end in
  match system_id, versions with
  | Some system_id, Some versions =>
      let system_props :=
        if truthy system_id then
          match system_id with
          | VStr s =>
              match get token_dictionary s with
              | Some definition => Some (get_default definition "properties" (VDict []))
              | None => Some (VDict [])
              end
          | VList _ | VDict _ => None
          | _ => Some (VDict [])
          end
        else Some (VDict []) in
      match system_props with
      | Some system_props =>
          let context :=
            VDict [("id", VStr "SYSTEM"); ("systemId", system_id);
                   ("versions", VDict versions); ("properties", system_props)] in
          Some (context,
                {| contexts := activate_context (contexts m) context;
                   system_context := context |})
      | None => None
      end
  | _, _ => None
  end.

(** [apply_context(parsed_pailang)] on a dictionary: the manager
    afterwards (the method returns its argument); [None] is an
    exception. *)
Definition apply_context (m : manager) (parsed_pailang : dict value) : option manager :=
  if is_str (get parsed_pailang "type") "PAILang" then
    let initialized :=
      match get parsed_pailang "expression" with
      | None => Some m
      | Some (VDict e) =>
          if is_str (get e "type") "SystemIdentifier" then
            match initialize_system_context
                    m [("systemIdentifier", VDict [("value", get_or_none e "value")])] [] with
            | Some (_, m') => Some m'
            | None => None
            end
          else Some m
      | Some _ => None
      end in
    match initialized with
    | Some m' =>
        Some {| contexts := _process_context_activations (VDict parsed_pailang) (contexts m');
                system_context := system_context m' |}
    | None => None
    end
  else Some m.

(** ** Values used in the statements *)

(** [token_dictionary.get(token.get('value'), {})] *)
Definition base_definition (tok : token) (token_dictionary : dict (dict value))
  : dict value :=
  match token_value tok with
  | Some v => get_default token_dictionary v []
  | None => []
  end.

(** A context that says nothing about the tokens of a category: a
    dictionary whose definition, a dictionary, has no [tokenModifiers] or
    has them as a dictionary without the category. *)
Definition silent (category : option string) (ctx : value) : bool :=
  match ctx with
  | VDict c =>
      match get_default c "definition" (VDict []) with
      | VDict ctx_def =>
          match get ctx_def "tokenModifiers" with
          | None => true
          | Some (VDict modifiers) =>
              match get_opt modifiers category with
              | None => true
              | Some _ => false
              end
          | Some _ => false
          end
      | _ => false
      end
  | _ => false
  end.

(** The context [_activate_single_context] builds for a token value. *)
Definition context_of (token_value : string) (token_dictionary : dict (dict value))
  : value :=
  VDict [("id", VStr token_value);
         ("definition", VDict (get_default token_dictionary token_value []));
         ("properties",
          get_default (get_default token_dictionary token_value []) "properties"
                      (VDict []))].

(** The text of a version declaration, [[G-1.2,TD-2.3.1]], for its
    components and their numbers. *)
Definition version_text (components : list (string * string)) : string :=
  "[" ++ PyStr.join "," (map (fun cv => fst cv ++ String "-" (snd cv)) components) ++ "]".

(** The context [initialize_system_context] builds for a system
    identifier that is a string. *)
Definition system_context_of (system_id : string) (versions : dict value)
           (token_dictionary : dict (dict value)) : value :=
  VDict [("id", VStr "SYSTEM"); ("systemId", VStr system_id);
         ("versions", VDict versions);
         ("properties",
          match system_id, get token_dictionary system_id with
          | String _ _, Some definition => get_default definition "properties" (VDict [])
          | _, _ => VDict []
          end)].

End ContextManager.

(* ================================================================== *)
(** * StructureSynthesizer (compiler/structure_synthesizer.py) *)
(* ================================================================== *)

Module StructureSynthesizer.
Import Dict.

Local Unset Elimination Schemes.

(** An expression element: a token dictionary [{"type": "token", "value": v}]
    (the value may be missing), an operator or bracket string, the
    conditional dictionary the shunting-yard pass builds, or a dictionary
    of any other type (with the value it may carry). *)
Inductive element : Type :=
| Token (value : option string)
| Operator (symbol : string)
| Conditional (condition : element) (true_branch false_branch : list element)
| Unknown (value : option string).

Local Set Elimination Schemes.

(** A token dictionary of [token_mappings] or of the [tokens] list: its
    string-valued keys ([source], [token], [category]). *)
Definition token_entry := dict string.

(** The relationship variants, each with the fields [.get] reads. *)
Inductive relationship : Type :=
| Binary (operator : option string) (source target : option string)
| ConditionalRel (condition trueBranch falseBranch : option string)
| RepetitionRel (expression : option string) (count : option N)
| ContextActivationRel (expression context : option string)
| AggregationRel (expressions : list (option string))
| OtherRel.

Record semantic_structure := {
  elements : list element;
  tokens : list token_entry;
  relationships : list relationship
}.

(** [semantic_structure] is [None] when the key is missing or holds an
    empty dictionary. *)
Record semantic_analysis := {
  token_mappings : dict token_entry;
  operator_mappings : dict string;
  structure : option semantic_structure
}.

Definition operator_precedence : dict N :=
  [("[]", 9); ("!", 8); ("**", 7); ("?:", 6); ("&", 5); ("|", 4);
   (">", 3); ("=", 2); ("#", 1)]%N.

Definition operator_associativity : dict string :=
  [("[]", "none"); ("!", "right"); ("**", "right"); ("?:", "right");
   ("&", "left"); ("|", "left"); (">", "left"); ("=", "right"); ("#", "right")].

Definition _get_operator_precedence (operator : string) : N :=
  if String.eqb operator "?" then get_default operator_precedence "?:" 0%N
  else if String.eqb operator ":" then get_default operator_precedence "?:" 0%N
  else get_default operator_precedence operator 0%N.

Definition _get_operator_associativity (operator : string) : string :=
  if String.eqb operator "?" then get_default operator_associativity "?:" "right"
  else if String.eqb operator ":" then get_default operator_associativity "?:" "right"
  else get_default operator_associativity operator "left".

Definition option_eqb (a b : option string) : bool :=
  match a, b with
  | Some x, Some y => String.eqb x y
  | None, None => true
  | _, _ => false
  end.

(** The loops [for token_id, token in token_mappings.items()] keep the last
    token whose source matches. *)
Definition find_token (mappings : dict token_entry) (source : option string)
  : option token_entry :=
  fold_left (fun found kv =>
               if option_eqb (get (snd kv) "source") source then Some (snd kv) else found)
            mappings None.

(** Truthiness of a token dictionary that was found. *)
Definition present (t : option token_entry) : bool :=
  match t with
  | Some (_ :: _) => true
  | _ => false
  end.

Definition token_element (t : token_entry) : element :=
  Token (Some (get_default t "token" "")).

Definition entry_of (t : option token_entry) : token_entry :=
  match t with Some e => e | None => [] end.

(** The elements one relationship contributes. *)
Definition relationship_elements (mappings : dict token_entry) (r : relationship)
  : list element :=
  match r with
  | Binary operator source target =>
      let source_token := find_token mappings source in
      let target_token := find_token mappings target in
      if present source_token && present target_token
      then [token_element (entry_of source_token);
            Operator (match operator with Some o => o | None => ">" end);
            token_element (entry_of target_token)]
      else []
  | ConditionalRel condition trueBranch falseBranch =>
      let condition_token := find_token mappings condition in
      let true_token := find_token mappings trueBranch in
      let false_token := find_token mappings falseBranch in
      if present condition_token && present true_token
      then ([token_element (entry_of condition_token); Operator "?";
             token_element (entry_of true_token)]
              ++ (if present false_token
                  then [Operator ":"; token_element (entry_of false_token)]
                  else []))%list
      else []
  | RepetitionRel expression count =>
      let expr_token := find_token mappings expression in
      if present expr_token
      then [token_element (entry_of expr_token); Operator "**";
            Token (Some (PyStr.str (match count with Some c => c | None => 1%N end)))]
      else []
  | ContextActivationRel expression context =>
      let expr_token := find_token mappings expression in
      let context_token := find_token mappings context in
      if present expr_token && present context_token
      then [token_element (entry_of expr_token); Operator "!";
            token_element (entry_of context_token)]
      else []
  | AggregationRel expressions =>
      let expr_tokens :=
        flat_map (fun expr =>
                    filter (fun t => option_eqb (get t "source") expr) (values mappings))
                 expressions in
      match expr_tokens with
      | [] => []
      | first :: others =>
          ([Operator "#"; Operator "["; token_element first]
             ++ flat_map (fun t => [Operator ","; token_element t]) others
             ++ [Operator "]"])%list
      end
  | OtherRel => []
  end.

Definition _convert_to_expression_elements (s : semantic_structure)
           (mappings : dict token_entry) (operators : dict string) : list element :=
  match elements s with
  | _ :: _ => elements s
  | [] =>
      match relationships s, tokens s with
      | [], _ :: _ => map token_element (tokens s)
      | _, _ =>
          match flat_map (relationship_elements mappings) (relationships s) with
          | [] => map token_element (tokens s)
          | converted => converted
          end
      end
  end.

(** ** The shunting-yard pass *)

(** The operator stack is a list whose head is the top of the stack. *)
Fixpoint pop_to_bracket (operator_stack : list string) (output_queue : list element)
  : list element * list string :=
  match operator_stack with
  | [] => (output_queue, [])
  | top :: below =>
      if String.eqb top "[" then (output_queue, operator_stack)
      else pop_to_bracket below (output_queue ++ [Operator top])
  end.

(** The [while] loop that pops operators of higher (or equal, for a
    left-associative operator) precedence. *)
Fixpoint pop_higher (operator : string) (operator_stack : list string)
         (output_queue : list element) : list element * list string :=
  match operator_stack with
  | [] => (output_queue, [])
  | top :: below =>
      if negb (String.eqb top "[")
         && ((String.eqb (_get_operator_associativity operator) "left"
              && (_get_operator_precedence operator <=? _get_operator_precedence top)%N)
             || (String.eqb (_get_operator_associativity operator) "right"
                 && (_get_operator_precedence operator <? _get_operator_precedence top)%N))
      then pop_higher operator below (output_queue ++ [Operator top])
      else (output_queue, operator_stack)
  end.

Definition is_symbol (e : element) (s : string) : bool :=
  match e with
  | Operator o => String.eqb o s
  | _ => false
  end.

(** The search for the [":"] that matches a ["?"]: the number of elements
    skipped before it, from position [i + 1]. *)
Fixpoint find_colon (rest : list element) (nesting : nat) : option nat :=
  match rest with
  | [] => None
  | e :: rest' =>
      if is_symbol e "?" && Nat.eqb nesting 0
      then option_map S (find_colon rest' (S nesting))
      else if is_symbol e ":" && Nat.eqb nesting 0 then Some 0%nat
      else if is_symbol e ":" && Nat.ltb 0 nesting
           then option_map S (find_colon rest' (nesting - 1))
           else option_map S (find_colon rest' nesting)
  end.

(** [elements[i - 1]], which is the last element when [i] is 0. *)
Definition element_before (all : list element) (i : nat) : element :=
  match i with
  | O => last all (Unknown None)
  | S k => nth k all (Unknown None)
  end.

(** The [while i < len(elements)] loop of [_apply_shunting_yard]: [rest] is
    [elements[i:]], [recurse] the function itself for the two branches of a
    conditional. *)
Fixpoint shunting_yard_loop (recurse : list element -> list element)
         (all : list element) (i : nat) (rest : list element)
         (output_queue : list element) (operator_stack : list string)
         {struct rest} : list element :=
  match rest with
  | [] => (output_queue ++ map Operator operator_stack)%list
  | e :: rest' =>
      match e with
      | Token _ =>
          shunting_yard_loop recurse all (S i) rest' (output_queue ++ [e])%list operator_stack
      | Operator symbol =>
          if String.eqb symbol "[" then
            shunting_yard_loop recurse all (S i) rest' output_queue (symbol :: operator_stack)
          else if String.eqb symbol "]" then
            let (output_queue, operator_stack) :=
              pop_to_bracket operator_stack output_queue in
            shunting_yard_loop recurse all (S i) rest' output_queue (tl operator_stack)
          else if String.eqb symbol "," then
            let (output_queue, operator_stack) :=
              pop_to_bracket operator_stack output_queue in
            shunting_yard_loop recurse all (S i) rest' output_queue operator_stack
          else
            let as_operator :=
              let (output_queue, operator_stack) :=
                pop_higher symbol operator_stack output_queue in
              shunting_yard_loop recurse all (S i) rest' output_queue
                                 (symbol :: operator_stack) in
            if String.eqb symbol "?" then
              match find_colon rest' 0 with
              | Some k =>
                  let condition := element_before all i in
                  let true_branch := recurse (firstn k rest') in
                  let false_branch := recurse (skipn (S k) rest') in
                  (removelast output_queue
                     ++ [Conditional condition true_branch false_branch]
                     ++ map Operator operator_stack)%list
              | None => as_operator
              end
            else as_operator
      | _ => shunting_yard_loop recurse all (S i) rest' output_queue operator_stack
      end
  end.

(** [_apply_shunting_yard].  The recursive calls are on slices of
    [elements] that are strictly shorter, so [fuel] above the length of the
    list is never used up. *)
Fixpoint shunting_yard (fuel : nat) (all : list element) : list element :=
  match fuel with
  | O => []
  | S fuel' => shunting_yard_loop (shunting_yard fuel') all 0 all [] []
  end.

Definition _apply_shunting_yard (elements : list element) : list element :=
  shunting_yard (S (length elements)) elements.

(** ** Building the string *)

Definition _needs_brackets (expr parent_operator : string) : bool :=
  if String.eqb expr ""
     || ((String.length expr <=? 3)%nat
         && negb (existsb (fun op => PyStr.contains op expr) (keys operator_precedence)))
  then false
  else
    existsb (fun op =>
               PyStr.contains op expr && negb (String.eqb op parent_operator)
               && (get_default operator_precedence op 0
                   <? get_default operator_precedence parent_operator 0)%N)
            (keys operator_precedence).

Definition bracket (needed : bool) (expr : string) : string :=
  if needed then "[" ++ expr ++ "]" else expr.

(** One operator applied to the operand stack (head = top of the Python
    list). *)
Definition apply_operator (element : string) (stack : list string) : list string :=
  if existsb (String.eqb element) [">"; "&"; "|"; "="] then
    match stack with
    | right_operand :: left_operand :: below =>
        (bracket (_needs_brackets left_operand element) left_operand ++ element
           ++ bracket (_needs_brackets right_operand element) right_operand) :: below
    | _ => stack
    end
  else if String.eqb element "#" then
    match stack with
    | operand :: below => ("#" ++ operand) :: below
    | [] => stack
    end
  else if String.eqb element "!" then
    match stack with
    | context :: expression :: below => (expression ++ "!" ++ context) :: below
    | _ => stack
    end
  else if String.eqb element "**" then
    match stack with
    | count :: expression :: below =>
        ("**" ++ count ++ bracket (_needs_brackets expression "**") expression) :: below
    | _ => stack
    end
  else stack.

(** [element.get("condition", {}).get("value", "")]; [None] is the
    [AttributeError] raised when the condition is a string. *)
Definition condition_value (condition : element) : option string :=
  match condition with
  | Token v => Some (match v with Some s => s | None => "" end)
  | Unknown v => Some (match v with Some s => s | None => "" end)
  | Conditional _ _ _ => Some ""
  | Operator _ => None
  end.

(** One element of the output queue applied to the operand stack.  A
    conditional builds both of its branches with the loop of
    [_build_expression] itself. *)
Fixpoint push_element (e : element) (stack : list string) {struct e}
  : option (list string) :=
  match e with
  | Token v => Some (match v with Some s => s | None => "" end :: stack)
  | Conditional condition true_branch false_branch =>
      let build :=
        fix build (queue : list element) (operands : list string) {struct queue}
          : option string :=
          match queue with
          | [] => Some (last operands "")
          | x :: queue' =>
              match push_element x operands with
              | Some operands' => build queue' operands'
              | None => None
              end
          end in
      match condition_value condition, build true_branch [], build false_branch [] with
      | Some c, Some t, Some f => Some ((c ++ "?" ++ t ++ ":" ++ f) :: stack)
      | _, _, _ => None
      end
  | Operator symbol => Some (apply_operator symbol stack)
  | Unknown _ => Some stack
  end.

(** The loop of [_build_expression] over the output queue; the result is
    [stack[0]], the bottom of the operand stack, or the empty string. *)
Fixpoint build (queue : list element) (stack : list string) : option string :=
  match queue with
  | [] => Some (last stack "")
  | x :: queue' =>
      match push_element x stack with
      | Some stack' => build queue' stack'
      | None => None
      end
  end.

Definition _build_expression (output_queue : list element) : option string :=
  build output_queue [].

(** [synthesize(semantic_analysis)]; [None] is an exception. *)
Definition synthesize (sa : semantic_analysis) : option string :=
  match structure sa with
  | None =>
      match token_mappings sa with
      | (_, first_token) :: _ => Some (get_default first_token "token" "")
      | [] => Some ""
      end
  | Some s =>
      match _convert_to_expression_elements s (token_mappings sa) (operator_mappings sa) with
      | [] => Some ""
      | elements => _build_expression (_apply_shunting_yard elements)
      end
  end.

Definition is_token (e : element) : bool :=
  match e with Token _ => true | _ => false end.

(** The structure [{tokens: [...], relationships: []}]. *)
Definition tokens_only (values : list string) : semantic_analysis :=
  {| token_mappings := [];
     operator_mappings := [];
     structure := Some {| elements := [];
                          tokens := map (fun v => [("token", v)]) values;
                          relationships := [] |} |}.

(** ** Inputs of the properties *)

(** The characters the operators are written with. *)
Definition operator_characters : list ascii := PyStr.to_list "[]!*?:&|>=#".

(** A token text that holds no operator character. *)
Definition plain (s : string) : bool :=
  forallb (fun c => PyStr.without c s) operator_characters.

(** The binary operators of [_build_expression]. *)
Definition binary_operators : list string := [">"; "&"; "|"; "="].

(** A text that holds no operator character but [o]. *)
Definition only_operator (o : ascii) (s : string) : Prop :=
  forall c, In c operator_characters -> c <> o -> PyStr.without c s = true.

(** [expr_tokens] of an aggregation relationship: for every expression in
    turn, the tokens whose source it is. *)
Definition aggregated_tokens (mappings : dict token_entry)
           (expressions : list (option string)) : list token_entry :=
  flat_map (fun expr =>
              filter (fun t => option_eqb (get t "source") expr) (values mappings))
           expressions.

(** The analysis with the given token mappings and one relationship. *)
Definition one_relationship (mappings : dict token_entry) (r : relationship)
  : semantic_analysis :=
  {| token_mappings := mappings;
     operator_mappings := [];
     structure := Some {| elements := []; tokens := []; relationships := [r] |} |}.

(** The structure [{elements: [...]}]. *)
Definition elements_only (es : list element) : semantic_analysis :=
  {| token_mappings := [];
     operator_mappings := [];
     structure := Some {| elements := es; tokens := []; relationships := [] |} |}.

(** The element list [t0, op, t1, op, ..., tn]. *)
Definition item (op : string) (t : string) : list element :=
  [Operator op; Token (Some t)].

Definition chain (op : string) (first : string) (others : list string) : list element :=
  Token (Some first) :: flat_map (item op) others.

End StructureSynthesizer.

(* ================================================================== *)
(** * ExpressionSynthesizer (structure_synthesizer/expression_synthesizer.py) *)
(* ================================================================== *)

Module ExpressionSynthesizer.

Local Unset Elimination Schemes.

(** An expression tree: a dictionary whose ["type"] selects the variant;
    every other key may be missing.  [other] is a dictionary of any other
    type; a missing tree is [None]. *)
Inductive tree : Type :=
| token (value : option string)
| sequence (operator : option string) (left right : option tree)
| parallel (operator : option string) (left right : option tree)
| conditional (condition true_branch : option tree) (false_branch : option (option tree))
| repetition (count : option Z) (expression : option tree)
| other.

Local Set Elimination Schemes.

(** [f"{count}"] for an integer. *)
Definition format_int (z : Z) : string :=
  if (z <? 0)%Z then "-" ++ PyStr.str (Z.abs_N z) else PyStr.str (Z.to_N z).

Definition or_default (o : option string) (dflt : string) : string :=
  match o with Some s => s | None => dflt end.

(** The body of [synthesize_from_tree] for a tree that is not [None];
    [sub] is the recursive call on a child, which may be missing.
    [false_branch] is [None] when the key is not in the dictionary. *)
Fixpoint render (t : tree) : string :=
  let sub := fun child : option tree =>
               match child with
               | Some c => render c
               | None => ""
               end in
  match t with
  | token value => or_default value ""
  | sequence operator l r => sub l ++ or_default operator ">" ++ sub r
  | parallel operator l r => sub l ++ or_default operator "&" ++ sub r
  | conditional condition true_branch false_branch =>
      match false_branch with
      | Some fb => sub condition ++ "?" ++ sub true_branch ++ ":" ++ sub fb
      | None => sub condition ++ "?" ++ sub true_branch
      end
  | repetition count expression =>
      "**" ++ format_int (match count with Some c => c | None => 1%Z end)
        ++ sub expression
  | other => ""
  end.

Definition synthesize_from_tree (t : option tree) : string :=
  match t with
  | None => ""
  | Some t => render t
  end.

End ExpressionSynthesizer.

(* ================================================================== *)
(** * PAILangParser (decoder/pailang_parser.py) *)
(* ================================================================== *)

(** The parser is a grammar handed to Lark together with a transformer.
    The model is the grammar itself: the terminals with the strings they
    match, the productions as a derivation relation over terminal
    sequences, and at each production the value the transformer's method
    of that name returns.  Whatever table Lark builds, a tree it returns is
    a derivation of this grammar, so [parse] can only return a value the
    relation [parses] allows, and raises where the relation is empty.  The
    construction of the table is not modelled: where Lark refuses the
    grammar, [parse] raises on every input, so a derivation in [parses]
    is an upper bound on what [parse] returns and no proof that it
    returns. *)

Module PAILangParser.

(** ** Terminals *)

Inductive terminal : Type :=
| CATEGORY_CODE
| IDENTIFIER
| COMPLEX_IDENTIFIER
| TYPE_PREFIX
| ALPHA_CHAR
| DIGIT
| VERSION_TYPE
| Lit (s : string).

(** A terminal with the text it matched. *)
Definition lexeme := (terminal * string)%type.

Definition lit (s : string) : lexeme := (Lit s, s).

Fixpoint all_chars (p : ascii -> bool) (s : string) : bool :=
  match s with
  | EmptyString => true
  | String c r => p c && all_chars p r
  end.

(** [/[CLMDNTPRSHQB]/] *)
Definition is_category_code (c : ascii) : bool :=
  existsb (Ascii.eqb c) (PyStr.to_list "CLMDNTPRSHQB").

Definition matches (t : terminal) (l : string) : bool :=
  match t with
  | CATEGORY_CODE => (String.length l =? 1)%nat && all_chars is_category_code l
  | IDENTIFIER => (String.length l =? 2)%nat && all_chars PyStr.is_digit l
  | COMPLEX_IDENTIFIER => (String.length l =? 3)%nat && all_chars PyStr.is_digit l
  | TYPE_PREFIX =>
      ((String.length l =? 2)%nat || (String.length l =? 3)%nat)
      && all_chars PyStr.is_upper l
  | ALPHA_CHAR => (String.length l =? 1)%nat && all_chars PyStr.is_upper l
  | DIGIT => (String.length l =? 1)%nat && all_chars PyStr.is_digit l
  | VERSION_TYPE => String.eqb l "G" || String.eqb l "TD" || String.eqb l "OP"
  | Lit s => String.eqb l s
  end.

(** [common.WS], ignored between terminals: space, TAB, FF, CR, LF. *)
Definition is_ws (c : ascii) : bool :=
  existsb (N.eqb (PyStr.code c)) [32; 9; 12; 13; 10]%N.

(** The input is the texts of the terminals, in order, with white space
    allowed around them. *)
Inductive lexes : string -> list lexeme -> Prop :=
| lexes_end ws :
    all_chars is_ws ws = true -> lexes ws []
| lexes_next ws t l s ts :
    all_chars is_ws ws = true -> matches t l = true -> lexes s ts ->
    lexes (ws ++ l ++ s) ((t, l) :: ts).

(** ** The abstract syntax tree *)

Local Unset Elimination Schemes.

(** The dictionaries the transformer builds, by their ["type"].  The
    [system] of [PAILang] is [None] when the key is absent and [Some None]
    when it holds [None]; the token nodes carry
    [value = categoryCode + identifier]. *)
Inductive node : Type :=
| PAILang (system : option (option node)) (expression : node)
| SystemIdentifier (id : string) (version : option node)
| VersionDeclaration (components : list node)
| VersionComponent (type number : string)
| AssignmentExpression (leftExpression rightExpression : node)
| ConditionalExpression (condition trueBranch falseBranch : node)
| PipingExpression (leftExpression rightExpression : node)
| ParallelExpression (leftExpression rightExpression : node)
| SequenceExpression (leftExpression rightExpression : node)
| AggregationExpression (expressions : list node)
| RepetitionExpression (count : N) (expression : option node)
| TokenSequence (tokens : list node)
| BracketedExpression (expressions : list node)
| BatchOperation (expressions : list node)
| ContextActivation (expression context : node)
| StandardToken (categoryCode identifier : string)
| ComplexToken (typePrefix categoryCode identifier : string).

Local Set Elimination Schemes.

(** The nonterminals of the grammar; the last five stand for the repeated
    groups of a production: [(sep expression)*] after a first expression,
    [(op operand)*], [("?" piping ":" piping)*] and [token+]. *)
Inductive nonterminal : Type :=
| expression
| assignment_expression
| conditional_expression
| piping_expression
| parallel_expression
| sequence_expression
| aggregation_expression
| repetition_expression
| atomic_expression
| token_sequence
| bracketed_expression
| batch_operation
| context_activation
| token
| standard_token
| complex_token
| expression_list (separator : string)
| operands (operand : nonterminal) (operator : string)
| branches
| tokens.

Section Grammar.

(** Lark's [maybe_placeholders]: whether an optional [[...]] that matched
    nothing is passed to the transformer as [None] (the default from
    Lark 1.0 on) or left out. *)
Variable maybe_placeholders : bool.

(** A binary production [operand (op operand)*]: one child is passed
    through, more are folded to the left. *)
Definition fold_binary (mk : node -> node -> node) (first : node) (rest : list node) : node :=
  fold_left mk rest first.

(** [conditional_expression]: the arguments after the first are taken in
    pairs. *)
Definition fold_conditional (first : node) (rest : list node) : node :=
  (fix go (result : node) (args : list node) {struct args} : node :=
     match args with
     | t :: f :: args' => go (ConditionalExpression result t f) args'
     | _ => result
     end) first rest.

(** [aggregation_expression] on the ["#"] form: a single expression is
    passed through; otherwise [args[1:]] are kept. *)
Definition aggregation_of (args : list node) : node :=
  match args with
  | [v] => v
  | _ => AggregationExpression (tl args)
  end.

(** The productions under [expression], each with the value its
    transformer method returns; the value list of a nonterminal proper is
    a singleton, that of a repeated group the arguments it contributes. *)
Inductive derives : nonterminal -> list lexeme -> list node -> Prop :=
| d_expression ts v :
    derives assignment_expression ts [v] -> derives expression ts [v]
| d_assignment ts1 v ts2 vs :
    derives conditional_expression ts1 [v] ->
    derives (operands conditional_expression "=") ts2 vs ->
    derives assignment_expression (ts1 ++ ts2) [fold_binary AssignmentExpression v vs]
| d_conditional ts1 v ts2 vs :
    derives piping_expression ts1 [v] ->
    derives branches ts2 vs ->
    derives conditional_expression (ts1 ++ ts2) [fold_conditional v vs]
| d_piping ts1 v ts2 vs :
    derives parallel_expression ts1 [v] ->
    derives (operands parallel_expression "|") ts2 vs ->
    derives piping_expression (ts1 ++ ts2) [fold_binary PipingExpression v vs]
| d_parallel ts1 v ts2 vs :
    derives sequence_expression ts1 [v] ->
    derives (operands sequence_expression "&") ts2 vs ->
    derives parallel_expression (ts1 ++ ts2) [fold_binary ParallelExpression v vs]
| d_sequence ts1 v ts2 vs :
    derives aggregation_expression ts1 [v] ->
    derives (operands aggregation_expression ">") ts2 vs ->
    derives sequence_expression (ts1 ++ ts2) [fold_binary SequenceExpression v vs]
| d_aggregation_pass ts v :
    derives repetition_expression ts [v] -> derives aggregation_expression ts [v]
| d_aggregation ts vs :
    derives (expression_list ",") ts vs ->
    derives aggregation_expression (lit "#" :: lit "[" :: ts ++ [lit "]"])
            [aggregation_of vs]
| d_repetition_pass ts v :
    derives atomic_expression ts [v] -> derives repetition_expression ts [v]
| d_repetition ts v d :
    derives atomic_expression ts [v] -> matches DIGIT d = true ->
    derives repetition_expression (ts ++ [lit "**"; (DIGIT, d)])
            [RepetitionExpression (PyStr.int d)
                                  (if maybe_placeholders then None else Some v)]
| d_repetition_bracket ts v d ts' v' :
    derives atomic_expression ts [v] -> matches DIGIT d = true ->
    derives expression ts' [v'] ->
    derives repetition_expression
            (ts ++ [lit "**"; (DIGIT, d); lit "["] ++ ts' ++ [lit "]"])
            [RepetitionExpression (PyStr.int d) (Some v')]
| d_atomic_token ts v :
    derives token ts [v] -> derives atomic_expression ts [v]
| d_atomic_bracketed ts v :
    derives bracketed_expression ts [v] -> derives atomic_expression ts [v]
| d_atomic_batch ts v :
    derives batch_operation ts [v] -> derives atomic_expression ts [v]
| d_atomic_context ts v :
    derives context_activation ts [v] -> derives atomic_expression ts [v]
| d_atomic_sequence ts v :
    derives token_sequence ts [v] -> derives atomic_expression ts [v]
| d_token_sequence ts1 v ts2 vs :
    derives token ts1 [v] -> derives tokens ts2 vs ->
    derives token_sequence (ts1 ++ ts2) [TokenSequence (v :: vs)]
| d_bracketed ts vs :
    derives (expression_list ",") ts vs ->
    derives bracketed_expression (lit "[" :: ts ++ [lit "]"]) [BracketedExpression vs]
| d_batch ts vs :
    derives (expression_list "&") ts vs ->
    derives batch_operation (lit "B" :: lit "[" :: ts ++ [lit "]"])
            [BatchOperation (tl vs)]
| d_context ts1 v ts2 c :
    derives expression ts1 [v] -> derives token_sequence ts2 [c] ->
    derives context_activation (ts1 ++ lit "!" :: ts2) [ContextActivation v c]
| d_token_standard ts v :
    derives standard_token ts [v] -> derives token ts [v]
| d_token_complex ts v :
    derives complex_token ts [v] -> derives token ts [v]
| d_standard_token c i :
    matches CATEGORY_CODE c = true -> matches IDENTIFIER i = true ->
    derives standard_token [(CATEGORY_CODE, c); (IDENTIFIER, i)] [StandardToken c i]
| d_complex_token p c i :
    matches TYPE_PREFIX p = true -> matches CATEGORY_CODE c = true ->
    matches COMPLEX_IDENTIFIER i = true ->
    derives complex_token [(TYPE_PREFIX, p); (CATEGORY_CODE, c); (COMPLEX_IDENTIFIER, i)]
            [ComplexToken p c i]
| d_list_one sep ts v :
    derives expression ts [v] -> derives (expression_list sep) ts [v]
| d_list_more sep ts1 v ts2 vs :
    derives expression ts1 [v] -> derives (expression_list sep) ts2 vs ->
    derives (expression_list sep) (ts1 ++ lit sep :: ts2) (v :: vs)
| d_operands_none operand op :
    derives (operands operand op) [] []
| d_operands_more operand op ts1 v ts2 vs :
    derives operand ts1 [v] -> derives (operands operand op) ts2 vs ->
    derives (operands operand op) (lit op :: ts1 ++ ts2) (v :: vs)
| d_branches_none :
    derives branches [] []
| d_branches_more ts1 t ts2 f ts3 vs :
    derives piping_expression ts1 [t] -> derives piping_expression ts2 [f] ->
    derives branches ts3 vs ->
    derives branches (lit "?" :: ts1 ++ lit ":" :: ts2 ++ ts3) (t :: f :: vs)
| d_tokens_one ts v :
    derives token ts [v] -> derives tokens ts [v]
| d_tokens_more ts1 v ts2 vs :
    derives token ts1 [v] -> derives tokens ts2 vs ->
    derives tokens (ts1 ++ ts2) (v :: vs).

(** ** The optional system header *)

(** What an optional argument that did not match contributes to an
    f-string of the transformer. *)
Definition missing : string := if maybe_placeholders then "None" else "".

Inductive derives_system_id : list lexeme -> string -> Prop :=
| d_system_id a d :
    matches ALPHA_CHAR a = true -> matches DIGIT d = true ->
    derives_system_id [(ALPHA_CHAR, a); (DIGIT, d)] (a ++ d ++ missing)
| d_system_id_long a d d' :
    matches ALPHA_CHAR a = true -> matches DIGIT d = true -> matches DIGIT d' = true ->
    derives_system_id [(ALPHA_CHAR, a); (DIGIT, d); (DIGIT, d')] (a ++ d ++ d').

Inductive derives_version_number : list lexeme -> string -> Prop :=
| d_version_number d1 d2 :
    matches DIGIT d1 = true -> matches DIGIT d2 = true ->
    derives_version_number [(DIGIT, d1); lit "."; (DIGIT, d2)]
                           (d1 ++ "." ++ d2 ++ (if maybe_placeholders then ".None" else ""))
| d_version_number_long d1 d2 d3 :
    matches DIGIT d1 = true -> matches DIGIT d2 = true -> matches DIGIT d3 = true ->
    derives_version_number [(DIGIT, d1); lit "."; (DIGIT, d2); lit "."; (DIGIT, d3)]
                           (d1 ++ "." ++ d2 ++ "." ++ d3).

Inductive derives_version_components : list lexeme -> list node -> Prop :=
| d_component_one t ts n :
    matches VERSION_TYPE t = true -> derives_version_number ts n ->
    derives_version_components ((VERSION_TYPE, t) :: lit "-" :: ts) [VersionComponent t n]
| d_component_more t ts n ts' vs :
    matches VERSION_TYPE t = true -> derives_version_number ts n ->
    derives_version_components ts' vs ->
    derives_version_components ((VERSION_TYPE, t) :: lit "-" :: ts ++ lit "," :: ts')
                               (VersionComponent t n :: vs).

Inductive derives_system : list lexeme -> node -> Prop :=
| d_system ts id :
    derives_system_id ts id -> derives_system ts (SystemIdentifier id None)
| d_system_version ts id ts' vs :
    derives_system_id ts id -> derives_version_components ts' vs ->
    derives_system (ts ++ lit "[" :: ts' ++ [lit "]"])
                   (SystemIdentifier id (Some (VersionDeclaration vs))).

(** [pailang: [system_with_version] expression] *)
Inductive derives_pailang : list lexeme -> node -> Prop :=
| d_pailang ts v :
    derives expression ts [v] ->
    derives_pailang ts (PAILang (if maybe_placeholders then Some None else None) v)
| d_pailang_system ts1 s ts2 v :
    derives_system ts1 s -> derives expression ts2 [v] ->
    derives_pailang (ts1 ++ ts2) (PAILang (Some (Some s)) v).

(** The grammar as a relation: [input] has a lexing and a derivation from
    [pailang] for which the transformer returns [ast].  Whatever table
    Lark builds, an AST that [parse] returns on [input] is one of these;
    the construction of the LALR table, which can refuse the grammar as a
    whole, is not part of the model.  So the absence of a derivation shows
    that [parse] raises, while a derivation alone does not show that
    [parse] returns. *)
Definition parses (input : string) (ast : node) : Prop :=
  exists ts, lexes input ts /\ derives_pailang ts ast.

End Grammar.

(** ** A necessary condition on the first characters of an input *)

Fixpoint drop_ws (s : string) : string :=
  match s with
  | EmptyString => EmptyString
  | String c r => if is_ws c then drop_ws r else s
  end.

(** The first [n] characters and the rest, when there are that many. *)
Fixpoint split_at (n : nat) (s : string) : option (string * string) :=
  match n with
  | O => Some (EmptyString, s)
  | S n' =>
      match s with
      | EmptyString => None
      | String c r =>
          match split_at n' r with
          | Some (l, rest) => Some (String c l, rest)
          | None => None
          end
      end
  end.

(** The first character of a text: present and no white space. *)
Definition solid (l : string) : bool :=
  match l with
  | EmptyString => false
  | String c _ => negb (is_ws c)
  end.

(** The lengths of the texts a terminal can match. *)
Definition lengths (t : terminal) : list nat :=
  match t with
  | CATEGORY_CODE | ALPHA_CHAR | DIGIT => [1]
  | IDENTIFIER => [2]
  | COMPLEX_IDENTIFIER => [3]
  | TYPE_PREFIX => [2; 3]
  | VERSION_TYPE => [1; 2]
  | Lit s => [String.length s]
  end%nat.

(** What can remain of an input after white space and one terminal [t]. *)
Definition after (t : terminal) (s : string) : list string :=
  flat_map (fun n =>
              match split_at n (drop_ws s) with
              | Some (l, rest) => if matches t l then [rest] else []
              | None => []
              end)
           (lengths t).

Definition nonempty {A} (l : list A) : bool :=
  match l with [] => false | _ => true end.

(** The terminal sequences an expression can start with: a standard
    token, a complex token, or one of the literals ["["], ["#"], ["B"]. *)
Definition starts_expression (ts : list lexeme) : bool :=
  match ts with
  | (CATEGORY_CODE, _) :: (IDENTIFIER, _) :: _ => true
  | (TYPE_PREFIX, _) :: (CATEGORY_CODE, _) :: (COMPLEX_IDENTIFIER, _) :: _ => true
  | (Lit s, _) :: _ => String.eqb s "[" || String.eqb s "#" || String.eqb s "B"
  | _ => false
  end.

(** The same condition read off the input string. *)
Definition string_starts_expression (s : string) : bool :=
  existsb (fun r => nonempty (after IDENTIFIER r)) (after CATEGORY_CODE s)
  || existsb (fun r => existsb (fun r' => nonempty (after COMPLEX_IDENTIFIER r'))
                               (after CATEGORY_CODE r))
             (after TYPE_PREFIX s)
  || nonempty (after (Lit "[") s)
  || nonempty (after (Lit "#") s)
  || nonempty (after (Lit "B") s).

(** An input starts with an expression, or with a system identifier (a
    letter and one or two digits) followed by a version declaration, which
    starts with ["["], or by an expression. *)
Definition string_starts_pailang (s : string) : bool :=
  string_starts_expression s
  || existsb (fun r1 =>
                existsb (fun r2 =>
                           string_starts_expression r2
                           || existsb string_starts_expression (after DIGIT r2))
                        (after DIGIT r1))
             (after ALPHA_CHAR s).

(** The nonterminals that derive at least what an expression starts with;
    the others are the possibly empty repeated groups. *)
Definition expression_like (x : nonterminal) : bool :=
  match x with
  | operands _ _ | branches => false
  | _ => true
  end.

(** [parse] raises on an input: no setting of Lark lets it return. *)
Definition rejected (input : string) : Prop :=
  forall maybe_placeholders ast, ~ parses maybe_placeholders input ast.

(** The characters that can follow a token in an expression but start
    none: the operator characters, [","] and ["]"]. *)
Definition follows_token (x : ascii) : bool :=
  existsb (Ascii.eqb x) (PyStr.to_list "?:>&|=!,]*").

End PAILangParser.

(* ================================================================== *)
(** * Rendering followed by parsing *)
(* ================================================================== *)

Module RoundTrip.
Import PAILangParser ExpressionSynthesizer.

(** The node of a token value the grammar reads as a standard token: a
    category letter and two digits. *)
Definition standard_token_of (value : string) : option node :=
  match value with
  | String c (String d1 (String d2 EmptyString)) =>
      if is_category_code c && PyStr.is_digit d1 && PyStr.is_digit d2
      then Some (StandardToken (String c "") (String d1 (String d2 "")))
      else None
  | _ => None
  end.

(** The parser's node for a tree of the synthesizer, variant by variant:
    token and StandardToken, sequence and SequenceExpression, parallel and
    ParallelExpression, conditional and ConditionalExpression, repetition
    and RepetitionExpression.  Trees with a missing child, another
    operator or another token value have no counterpart. *)
Fixpoint ast_of (t : tree) : option node :=
  let sub := fun child : option tree =>
               match child with
               | Some c => ast_of c
               | None => None
               end in
  match t with
  | token (Some v) => standard_token_of v
  | sequence operator l r =>
      if String.eqb (or_default operator ">") ">" then
        match sub l, sub r with
        | Some a, Some b => Some (SequenceExpression a b)
        | _, _ => None
        end
      else None
  | parallel operator l r =>
      if String.eqb (or_default operator "&") "&" then
        match sub l, sub r with
        | Some a, Some b => Some (ParallelExpression a b)
        | _, _ => None
        end
      else None
  | conditional c tb (Some fb) =>
      match sub c, sub tb, sub fb with
      | Some a, Some b, Some d => Some (ConditionalExpression a b d)
      | _, _, _ => None
      end
  | repetition (Some count) e =>
      if (0 <=? count)%Z then
        match sub e with
        | Some a => Some (RepetitionExpression (Z.to_N count) (Some a))
        | None => None
        end
      else None
  | _ => None
  end.

Definition is_some {A} (o : option A) : bool :=
  match o with Some _ => true | None => false end.

(** ** The trees the grammar folds the same way without brackets *)

(** A chain of standard tokens joined by [>], nested to the left. *)
Fixpoint sequence_level (t : tree) : bool :=
  match t with
  | token (Some v) => is_some (standard_token_of v)
  | sequence operator (Some l) (Some (token (Some v))) =>
      String.eqb (or_default operator ">") ">"
      && sequence_level l && is_some (standard_token_of v)
  | _ => false
  end.

(** A chain of such sequences joined by [&], nested to the left. *)
Fixpoint parallel_level (t : tree) : bool :=
  match t with
  | parallel operator (Some l) (Some r) =>
      String.eqb (or_default operator "&") "&"
      && parallel_level l && sequence_level r
  | _ => sequence_level t
  end.

(** Conditionals with both branches, nested in the condition only. *)
Fixpoint conditional_level (t : tree) : bool :=
  match t with
  | conditional (Some c) (Some tb) (Some (Some fb)) =>
      conditional_level c && parallel_level tb && parallel_level fb
  | _ => parallel_level t
  end.

(** The terminals of the rendered string. *)
Fixpoint lexemes (t : tree) : list lexeme :=
  let sub := fun child : option tree =>
               match child with
               | Some c => lexemes c
               | None => []
               end in
  match t with
  | token (Some (String c r)) => [(CATEGORY_CODE, String c ""); (IDENTIFIER, r)]
  | sequence _ l r => sub l ++ lit ">" :: sub r
  | parallel _ l r => sub l ++ lit "&" :: sub r
  | conditional c tb (Some fb) => sub c ++ lit "?" :: sub tb ++ lit ":" :: sub fb
  | _ => []
  end.

(** A property of the child of a node, when there is one. *)
Definition on_child (P : tree -> Prop) (child : option tree) : Prop :=
  match child with
  | Some t => P t
  | None => True
  end.

(** The terminals of [(op operand)*] and of [("?" piping ":" piping)*] for
    given operands. *)
Definition operand_lexemes (op : string) (items : list (list lexeme * node))
  : list lexeme :=
  flat_map (fun p => lit op :: fst p) items.

Definition branch_lexemes (items : list ((list lexeme * node) * (list lexeme * node)))
  : list lexeme :=
  flat_map (fun p => lit "?" :: fst (fst p) ++ lit ":" :: fst (snd p)) items.

Definition branch_nodes (items : list ((list lexeme * node) * (list lexeme * node)))
  : list node :=
  flat_map (fun p => [snd (fst p); snd (snd p)]) items.

(** Examples of trees. *)
Definition T (value : string) : option tree := Some (token (Some value)).

(** The chain T12 > T13 > T14 nested to the left and nested to the right. *)
Definition left_nested : tree :=
  sequence None (Some (sequence None (T "T12") (T "T13"))) (T "T14").

Definition right_nested : tree :=
  sequence None (T "T12") (Some (sequence None (T "T13") (T "T14"))).

End RoundTrip.

(* ================================================================== *)
(** * Decoder (decoder/decoder.py): from the parser to the context manager *)
(* ================================================================== *)

Module Decoder.
Import Dict.
Import ContextManager.
Import PAILangParser.

(** The dictionary the transformer builds for a node, key by key in the
    order of the dictionary display of its method. *)
Fixpoint dictionary_of (n : node) : value :=
  let binary := fun (type operator : string) (l r : node) =>
    VDict [("type", VStr type); ("operator", VStr operator);
           ("leftExpression", dictionary_of l); ("rightExpression", dictionary_of r)] in
  match n with
  | PAILang system e =>
      VDict (("type", VStr "PAILang")
               :: match system with
                  | None => []
                  | Some None => [("system", VNone)]
                  | Some (Some s) => [("system", dictionary_of s)]
                  end
               ++ [("expression", dictionary_of e)])
  | SystemIdentifier id version =>
      VDict (("type", VStr "SystemIdentifier") :: ("id", VStr id)
               :: match version with
                  | Some v => [("version", dictionary_of v)]
                  | None => []
                  end)
  | VersionDeclaration components =>
      VDict [("type", VStr "VersionDeclaration");
             ("components", VList (map dictionary_of components))]
  | VersionComponent type number =>
      VDict [("type", VStr type); ("number", VStr number)]
  | AssignmentExpression l r => binary "AssignmentExpression" "=" l r
  | ConditionalExpression c t f =>
      VDict [("type", VStr "ConditionalExpression"); ("operator", VStr "?:");
             ("condition", dictionary_of c); ("trueBranch", dictionary_of t);
             ("falseBranch", dictionary_of f)]
  | PipingExpression l r => binary "PipingExpression" "|" l r
  | ParallelExpression l r => binary "ParallelExpression" "&" l r
  | SequenceExpression l r => binary "SequenceExpression" ">" l r
  | AggregationExpression expressions =>
      VDict [("type", VStr "AggregationExpression"); ("operator", VStr "#");
             ("expressions", VList (map dictionary_of expressions))]
  | RepetitionExpression count e =>
      VDict [("type", VStr "RepetitionExpression"); ("operator", VStr "**");
             ("count", VInt (Z.of_N count));
             ("expression", match e with
                            | Some e => dictionary_of e
                            | None => VNone
                            end)]
  | TokenSequence items =>
      VDict [("type", VStr "TokenSequence");
             ("tokens", VList (map dictionary_of items))]
  | BracketedExpression expressions =>
      VDict [("type", VStr "BracketedExpression");
             ("expressions", VList (map dictionary_of expressions))]
  | BatchOperation expressions =>
      VDict [("type", VStr "BatchOperation");
             ("expressions", VList (map dictionary_of expressions))]
  | ContextActivation e context =>
      VDict [("type", VStr "ContextActivation");
             ("expression", dictionary_of e); ("context", dictionary_of context)]
  | StandardToken categoryCode identifier =>
      VDict [("type", VStr "StandardToken"); ("categoryCode", VStr categoryCode);
             ("identifier", VStr identifier); ("value", VStr (categoryCode ++ identifier))]
  | ComplexToken typePrefix categoryCode identifier =>
      VDict [("type", VStr "ComplexToken"); ("typePrefix", VStr typePrefix);
             ("categoryCode", VStr categoryCode); ("identifier", VStr identifier);
             ("value", VStr (typePrefix ++ categoryCode ++ identifier))]
  end.

(** The entries of that dictionary. *)
Definition entries_of (n : node) : dict value :=
  match dictionary_of n with
  | VDict entries => entries
  | _ => []
  end.

(** The two steps of [Decoder.decode] before the expansion, on an AST the
    parser returned: [apply_context] on a fresh context manager. *)
Definition contextualize (ast : node) : option manager :=
  apply_context new_manager (entries_of ast).

(** ** The loops of [_process_context_activations], by name *)

(** The loop over the items of a list value. *)
Definition process_items (l : list value) (stack : context_stack) : context_stack :=
  fold_left (fun stack item =>
               match item with
               | VDict _ => _process_context_activations item stack
               | _ => stack
               end) l stack.

(** What the loop over the values of a dictionary does with one value. *)
Definition visit (v : value) (stack : context_stack) : context_stack :=
  match v with
  | VDict _ => _process_context_activations v stack
  | VList l => process_items l stack
  | _ => stack
  end.

(** The loop over the values of a dictionary. *)
Definition process_values (entries : dict value) (stack : context_stack)
  : context_stack :=
  fold_left (fun stack kv => visit (snd kv) stack) entries stack.

(** ** Nodes *)

(** No context activation inside a node. *)
Fixpoint activation_free (n : node) : bool :=
  let all := fix all (l : list node) : bool :=
               match l with
               | [] => true
               | x :: r => activation_free x && all r
               end in
  match n with
  | PAILang system e =>
      match system with
      | Some (Some s) => activation_free s
      | _ => true
      end && activation_free e
  | SystemIdentifier _ version =>
      match version with
      | Some v => activation_free v
      | None => true
      end
  | VersionDeclaration components => all components
  | VersionComponent _ _ => true
  | AssignmentExpression l r | PipingExpression l r
  | ParallelExpression l r | SequenceExpression l r =>
      activation_free l && activation_free r
  | ConditionalExpression c t f =>
      activation_free c && activation_free t && activation_free f
  | AggregationExpression l | TokenSequence l | BracketedExpression l
  | BatchOperation l => all l
  | RepetitionExpression _ e =>
      match e with
      | Some e => activation_free e
      | None => true
      end
  | ContextActivation _ _ => false
  | StandardToken _ _ | ComplexToken _ _ _ => true
  end.

(** The nodes an expression of the grammar can be. *)
Definition expression_kind (n : node) : bool :=
  match n with
  | PAILang _ _ | SystemIdentifier _ _ | VersionDeclaration _ | VersionComponent _ _ => false
  | _ => true
  end.

(** What [process_context_activation] pushes for the expression in front
    of the ["!"]: the context of a token of category C, nothing
    otherwise. *)
Definition activated_by (e : node) (token_dictionary : dict (dict value)) : list value :=
  match e with
  | StandardToken c i =>
      if String.eqb c "C" then [context_of (c ++ i) token_dictionary] else []
  | ComplexToken p c i =>
      if String.eqb c "C" then [context_of (p ++ c ++ i) token_dictionary] else []
  | _ => []
  end.

End Decoder.

(* ================================================================== *)
(** * The expansion engine ([src/decoder/expansion_engine.py]) *)
(* ================================================================== *)

Module ExpansionEngine.
Import Dict.
Import ContextManager.

Definition newline : string := String (ascii_of_nat 10) EmptyString.

(** ** Strings *)

(** [s.replace(old, new)] for a non-empty [old]: the occurrences are taken
    from the left and do not overlap; [skip] counts the characters of an
    occurrence that are still to be passed over. *)
Fixpoint replace_from (old new : string) (skip : nat) (s : string) : string :=
  match s with
  | EmptyString => EmptyString
  | String c r =>
      match skip with
      | S k => replace_from old new k r
      | O =>
          if String.prefix old s
          then new ++ replace_from old new (String.length old - 1) r
          else String c (replace_from old new 0 r)
      end
  end.

(** [s.replace(old, new)]; an empty [old] puts [new] in front of every
    character and at the end. *)
Definition replace (old new s : string) : string :=
  match old with
  | EmptyString =>
      new ++ String.concat "" (map (fun c => String c new) (PyStr.to_list s))
  | _ => replace_from old new 0 s
  end.

(** The longest prefix of characters that satisfy [p], and the rest. *)
Fixpoint span (p : ascii -> bool) (s : string) : string * string :=
  match s with
  | String c r =>
      if p c then let (taken, rest) := span p r in (String c taken, rest)
      else (EmptyString, s)
  | EmptyString => (EmptyString, EmptyString)
  end.

(** A match of [\{(\w+)\[(\d+)\]\}] at the start of [s]: its two groups
    and its length.  The character after a group is no character of the
    group, so the longest run is the only candidate. *)
Definition list_placeholder_at (s : string) : option (string * string * nat) :=
  match s with
  | String "{" r =>
      let (name, r1) := span PyStr.is_word r in
      match name, r1 with
      | String _ _, String "[" r2 =>
          let (index, r3) := span PyStr.is_digit r2 in
          match index, r3 with
          | String _ _, String "]" (String "}" _) =>
              Some (name, index, String.length name + String.length index + 4)
          | _, _ => None
          end
      | _, _ => None
      end
  | _ => None
  end.

(** A match of [\{(\w+)\.(\w+)\}] at the start of [s]. *)
Definition dict_placeholder_at (s : string) : option (string * string * nat) :=
  match s with
  | String "{" r =>
      let (name, r1) := span PyStr.is_word r in
      match name, r1 with
      | String _ _, String "." r2 =>
          let (key, r3) := span PyStr.is_word r2 in
          match key, r3 with
          | String _ _, String "}" _ =>
              Some (name, key, String.length name + String.length key + 3)
          | _, _ => None
          end
      | _, _ => None
      end
  | _ => None
  end.

(** [re.findall]: the matches from the left, without overlap. *)
Fixpoint findall (at_start : string -> option (string * string * nat))
         (skip : nat) (s : string) : list (string * string) :=
  match s with
  | EmptyString => []
  | String c r =>
      match skip with
      | S k => findall at_start k r
      | O =>
          match at_start s with
          | Some (name, key, len) => (name, key) :: findall at_start (len - 1) r
          | None => findall at_start 0 r
          end
      end
  end.

(** [str(v)], which is also what an f-string writes for [v].  The text of
    a list or of a dictionary is left out of the model: [None]. *)
Definition str_of (v : value) : option string :=
  match v with
  | VNone => Some "None"
  | VBool true => Some "True"
  | VBool false => Some "False"
  | VInt z =>
      Some (if (z <? 0)%Z then "-" ++ PyStr.str (Z.to_N (- z)) else PyStr.str (Z.to_N z))
  | VStr s => Some s
  | VList _ | VDict _ => None
  end.

(** ** Templates *)

(** The loop over [data.items()]: the placeholders [{key}] of the string
    values. *)
Definition simple_placeholders (data : dict value) (template : string) : string :=
  fold_left (fun result kv =>
               match snd kv with
               | VStr v =>
                   let placeholder := "{" ++ fst kv ++ "}" in
                   if PyStr.contains placeholder result
                   then replace placeholder v result
                   else result
               | _ => result
               end)
            data template.

(** The body of the loop over the list placeholders.  [None] is the
    [TypeError] of [replace] with an element that is no string. *)
Definition list_placeholder (data : dict value) (result : string)
           (found : string * string) : option string :=
  let (list_name, index) := found in
  match get data list_name with
  | Some (VList items) =>
      let index := PyStr.int index in
      match nth_error items (N.to_nat index) with
      | Some (VStr v) =>
          Some (replace ("{" ++ list_name ++ "[" ++ PyStr.str index ++ "]}") v result)
      | Some _ => None
      | None => Some result
      end
  | _ => Some result
  end.

(** The body of the loop over the dictionary placeholders.  [None]: the
    value is a list or a dictionary, whose text is not modelled. *)
Definition dict_placeholder (data : dict value) (result : string)
           (found : string * string) : option string :=
  let (dict_name, key) := found in
  match get data dict_name with
  | Some (VDict d) =>
      match get d key with
      | Some v =>
          match str_of v with
          | Some text => Some (replace ("{" ++ dict_name ++ "." ++ key ++ "}") text result)
          | None => None
          end
      | None => Some result
      end
  | _ => Some result
  end.

Definition each_placeholder (step : string -> string * string -> option string)
           (found : list (string * string)) (result : string) : option string :=
  fold_left (fun result m =>
               match result with
               | Some result => step result m
               | None => None
               end)
            found (Some result).

(** [_apply_template(template, data)] *)
Definition _apply_template (template : string) (data : dict value) : option string :=
  let result := simple_placeholders data template in
  match each_placeholder (list_placeholder data)
                         (findall list_placeholder_at 0 result) result with
  | Some result =>
      each_placeholder (dict_placeholder data)
                       (findall dict_placeholder_at 0 result) result
  | None => None
  end.

(** ** Operators *)

Record operator_definition := {
  name : string;
  expansionTemplate : string;
  properties : dict value
}.

Definition operator_definitions : dict operator_definition :=
  [(">", {| name := "sequence";
            expansionTemplate := "{operands[0]}" ++ newline ++ "{operands[1]}";
            properties := [("type", VStr "sequential")] |});
   ("&", {| name := "parallel";
            expansionTemplate :=
              ">>> PARALLEL" ++ newline ++ "    {operands[0]}" ++ newline
                ++ "    {operands[1]}" ++ newline ++ ">>> END_PARALLEL";
            properties := [("type", VStr "concurrent")] |});
   ("?:", {| name := "conditional";
             expansionTemplate :=
               ">>> CONDITIONAL [{condition}]" ++ newline ++ "    {true_branch}" ++ newline
                 ++ ">>> ELSE" ++ newline ++ "    {false_branch}" ++ newline
                 ++ ">>> END_CONDITIONAL";
             properties := [("type", VStr "branching")] |});
   ("|", {| name := "piping";
            expansionTemplate :=
              ">>> PIPE" ++ newline ++ "    >>> SOURCE" ++ newline
                ++ "        {operands[0]}" ++ newline ++ "    >>> TARGET" ++ newline
                ++ "        {operands[1]}" ++ newline ++ ">>> END_PIPE";
            properties := [("type", VStr "dataflow")] |});
   ("=", {| name := "assignment";
            expansionTemplate := ">>> ASSIGN [{operands[0]}] = [{operands[1]}]";
            properties := [("type", VStr "assignment")] |});
   ("#", {| name := "aggregation";
            expansionTemplate :=
              ">>> AGGREGATE" ++ newline ++ "    {operands[0]}" ++ newline
                ++ ">>> END_AGGREGATE";
            properties := [("type", VStr "collection")] |});
   ("!", {| name := "context_activation";
            expansionTemplate := ">>> ACTIVATE_CONTEXT [{operands[0]}]";
            properties := [("type", VStr "context")] |});
   ("**", {| name := "repetition";
             expansionTemplate :=
               ">>> REPEAT [{count}]" ++ newline ++ "    {operands[0]}" ++ newline
                 ++ ">>> END_REPEAT";
             properties := [("type", VStr "iteration")] |})].

(** The results of a list of calls, the first exception included. *)
Fixpoint all_of {A} (results : list (option A)) : option (list A) :=
  match results with
  | [] => Some []
  | Some x :: rest =>
      match all_of rest with
      | Some xs => Some (x :: xs)
      | None => None
      end
  | None :: _ => None
  end.

(** [expand_operator(operator, operands)], given what [expand_expression]
    returns on each operand. *)
Definition expand_operator (operator : string) (expanded : list (option string))
  : option string :=
  match get operator_definitions operator with
  | None => Some (">>> UNKNOWN_OPERATOR [" ++ operator ++ "]")
  | Some operator_def =>
      match all_of expanded with
      | Some expanded_operands =>
          _apply_template (expansionTemplate operator_def)
                          [("operator", VStr operator);
                           ("operands", VList (map VStr expanded_operands));
                           ("properties", VDict (properties operator_def))]
      | None => None
      end
  end.

(** ** Tokens *)

Definition category_map : dict string :=
  [("C", "SET_CONTEXT"); ("L", "APPLY_LOGIC"); ("M", "ALLOCATE_MEMORY");
   ("D", "EXECUTE_DIRECTIVE"); ("N", "NETWORK_OPERATION"); ("T", "EXECUTE_TASK");
   ("P", "RUN_PROCESS"); ("R", "ALLOCATE_RESOURCE"); ("S", "APPLY_SECURITY");
   ("H", "REGISTER_HANDLER"); ("Q", "EXECUTE_QUERY"); ("B", "BATCH_OPERATION")].

(** [_generate_default_expansion(token)].  [None]: the category code
    cannot be a key ([TypeError]), or the identifier or type prefix is a
    list or a dictionary, whose text is not modelled. *)
Definition _generate_default_expansion (token : dict value) : option string :=
  let identifier :=
    match get token "identifier" with
    | Some v => v
    | None => get_default token "value" (VStr "unknown")
    end in
  let command :=
    match get token "categoryCode" with
    | Some (VStr c) => Some (get_default category_map c "EXECUTE")
    | Some (VList _ | VDict _) => None
    | _ => Some "EXECUTE"
    end in
  match command, str_of identifier with
  | Some command, Some identifier =>
      if is_str (get token "type") "ComplexToken" then
        match str_of (get_or_none token "typePrefix") with
        | Some type_prefix =>
            Some (">>> " ++ command ++ " [TYPE=" ++ type_prefix ++ ", ID="
                         ++ identifier ++ "]")
        | None => None
        end
      else Some (">>> " ++ command ++ " [ID=" ++ identifier ++ "]")
  | _, _ => None
  end.

(** The two keys of a token that the context manager reads.  A key that
    is no string is never found in a dictionary; a list or a dictionary
    there is left out of the model. *)
Definition key_of (v : option value) : option (option string) :=
  match v with
  | Some (VStr s) => Some (Some s)
  | Some (VList _ | VDict _) => None
  | _ => Some None
  end.

Definition as_token (t : dict value) : option token :=
  match key_of (get t "value"), key_of (get t "categoryCode") with
  | Some v, Some c => Some {| token_value := v; categoryCode := c |}
  | _, _ => None
  end.

Section Engine.

(** The stack of the engine's context manager and the engine's token
    dictionary. *)
Variable stack : context_stack.
Variable token_dictionary : dict (dict value).

(** [expand_token(token)].  [None]: an exception (the resolved definition
    has no [.get], the template is no string), or a case left out of the
    model. *)
Definition expand_token (token : dict value) : option string :=
  match as_token token with
  | None => None
  | Some tok =>
      match resolve_in_context stack tok token_dictionary with
      | Some (VDict resolved_token) =>
          match get resolved_token "expansionTemplate" with
          | Some template =>
              if truthy template then
                match template with
                | VStr template =>
                    _apply_template
                      template
                      [("token", get_or_none token "value");
                       ("category", get_or_none token "categoryCode");
                       ("identifier", get_or_none token "identifier");
                       ("properties", get_default resolved_token "properties" (VDict []))]
                | _ => None
                end
              else _generate_default_expansion token
          | None => _generate_default_expansion token
          end
      | _ => None
      end
  end.

(** [_format_batch_structure(header, expanded_expressions)] *)
Definition _format_batch_structure (header : string) (expanded_expressions : list string)
  : string :=
  fold_left (fun result expr =>
               result ++ newline
                      ++ String.concat newline
                           (map (fun line => "    " ++ line)
                                (PyStr.split (ascii_of_nat 10) expr)))
            expanded_expressions header
    ++ newline ++ ">>> END_BATCH".

(** [expand_expression(expression)], with [expand_operator] and
    [expand_structure] on the node types it sends to them.  [child]
    is [expand_expression(expression.get(k))], [children] is the list
    [expand_expression(expr) for expr in structure.get(k, [])]: a
    dictionary is iterated by its keys and a string by its characters,
    which expand to the empty string. *)
Fixpoint expand_expression (expression : value) {struct expression} : option string :=
  match expression with
  | VDict [] => Some ""
  | VDict entries =>
      let child :=
        fix child (items : list (string * value)) (k : string) {struct items}
          : option string :=
          match items with
          | [] => Some ""
          | (k', v) :: rest =>
              if String.eqb k' k then expand_expression v else child rest k
          end in
      let each :=
        fix each (l : list value) {struct l} : list (option string) :=
          match l with
          | [] => []
          | x :: r => expand_expression x :: each r
          end in
      let children :=
        fix children (items : list (string * value)) (k : string) {struct items}
          : option (list string) :=
          match items with
          | [] => Some []
          | (k', v) :: rest =>
              if String.eqb k' k then
                match v with
                | VList l => all_of (each l)
                | VDict d => Some (map (fun _ => "") d)
                | VStr s => Some (map (fun _ => "") (PyStr.to_list s))
                | _ => None
                end
              else children rest k
          end in
      let expr_type := get entries "type" in
      if is_str expr_type "StandardToken" || is_str expr_type "ComplexToken" then
        expand_token entries
      else if is_str expr_type "SequenceExpression" then
        expand_operator ">" [child entries "leftExpression";
                             child entries "rightExpression"]
      else if is_str expr_type "ParallelExpression" then
        expand_operator "&" [child entries "leftExpression";
                             child entries "rightExpression"]
      else if is_str expr_type "ConditionalExpression" then
        match child entries "condition", child entries "trueBranch",
              child entries "falseBranch" with
        | Some condition, Some true_branch, Some false_branch =>
            match get operator_definitions "?:" with
            | Some definition =>
                _apply_template (expansionTemplate definition)
                                [("condition", VStr condition);
                                 ("true_branch", VStr true_branch);
                                 ("false_branch", VStr false_branch)]
            | None => None
            end
        | _, _, _ => None
        end
      else if is_str expr_type "PipingExpression" then
        expand_operator "|" [child entries "leftExpression";
                             child entries "rightExpression"]
      else if is_str expr_type "AssignmentExpression" then
        expand_operator "=" [child entries "leftExpression";
                             child entries "rightExpression"]
      else if is_str expr_type "AggregationExpression" then
        expand_operator "#" [child entries "expression"]
      else if is_str expr_type "BatchOperation" then
        match children entries "expressions" with
        | Some expanded_expressions =>
            Some (_format_batch_structure ">>> BATCH_OPERATION" expanded_expressions)
        | None => None
        end
      else if is_str expr_type "ContextActivation" then
        match child entries "expression" with
        | Some expanded_context =>
            Some (">>> ACTIVATE_CONTEXT" ++ newline ++ "    " ++ expanded_context)
        | None => None
        end
      else if is_str expr_type "TokenSequence" then
        match children entries "expressions" with
        | Some expanded_expressions => Some (String.concat ", " expanded_expressions)
        | None => None
        end
      else if is_str expr_type "Repetition" then
        match child entries "expression", str_of (get_default entries "count" (VInt 1)) with
        | Some expanded_expression, Some count =>
            Some (">>> REPEAT [" ++ count ++ "]" ++ newline ++ "    "
                    ++ expanded_expression ++ newline ++ ">>> END_REPEAT")
        | _, _ => None
        end
      else if is_str expr_type "SystemIdentifier" then
        match str_of (get_or_none entries "value") with
        | Some v => Some (">>> SYSTEM [" ++ v ++ "]")
        | None => None
        end
      else
        match str_of (get_or_none entries "type") with
        | Some t => Some (">>> UNKNOWN_EXPRESSION [" ++ t ++ "]")
        | None => None
        end
  | _ => Some ""
  end.

(** ** The body of [expand_expression], by name *)

(** [recurse(expression.get(k))] *)
Definition child (recurse : value -> option string) (entries : dict value) (k : string)
  : option string :=
  match get entries k with
  | Some v => recurse v
  | None => Some ""
  end.

(** [[recurse(expr) for expr in structure.get(k, [])]] *)
Definition children (recurse : value -> option string) (entries : dict value) (k : string)
  : option (list string) :=
  match get entries k with
  | None => Some []
  | Some (VList l) => all_of (map recurse l)
  | Some (VDict d) => Some (map (fun _ => "") d)
  | Some (VStr s) => Some (map (fun _ => "") (PyStr.to_list s))
  | Some _ => None
  end.

(** What [expand_expression] does with a dictionary that is not empty,
    given the function for the recursive calls. *)
Definition expand_entries (recurse : value -> option string) (entries : dict value)
  : option string :=
  let expr_type := get entries "type" in
  if is_str expr_type "StandardToken" || is_str expr_type "ComplexToken" then
    expand_token entries
  else if is_str expr_type "SequenceExpression" then
    expand_operator ">" [child recurse entries "leftExpression";
                         child recurse entries "rightExpression"]
  else if is_str expr_type "ParallelExpression" then
    expand_operator "&" [child recurse entries "leftExpression";
                         child recurse entries "rightExpression"]
  else if is_str expr_type "ConditionalExpression" then
    match child recurse entries "condition", child recurse entries "trueBranch",
          child recurse entries "falseBranch" with
    | Some condition, Some true_branch, Some false_branch =>
        match get operator_definitions "?:" with
        | Some definition =>
            _apply_template (expansionTemplate definition)
                            [("condition", VStr condition);
                             ("true_branch", VStr true_branch);
                             ("false_branch", VStr false_branch)]
        | None => None
        end
    | _, _, _ => None
    end
  else if is_str expr_type "PipingExpression" then
    expand_operator "|" [child recurse entries "leftExpression";
                         child recurse entries "rightExpression"]
  else if is_str expr_type "AssignmentExpression" then
    expand_operator "=" [child recurse entries "leftExpression";
                         child recurse entries "rightExpression"]
  else if is_str expr_type "AggregationExpression" then
    expand_operator "#" [child recurse entries "expression"]
  else if is_str expr_type "BatchOperation" then
    match children recurse entries "expressions" with
    | Some expanded_expressions =>
        Some (_format_batch_structure ">>> BATCH_OPERATION" expanded_expressions)
    | None => None
    end
  else if is_str expr_type "ContextActivation" then
    match child recurse entries "expression" with
    | Some expanded_context =>
        Some (">>> ACTIVATE_CONTEXT" ++ newline ++ "    " ++ expanded_context)
    | None => None
    end
  else if is_str expr_type "TokenSequence" then
    match children recurse entries "expressions" with
    | Some expanded_expressions => Some (String.concat ", " expanded_expressions)
    | None => None
    end
  else if is_str expr_type "Repetition" then
    match child recurse entries "expression",
          str_of (get_default entries "count" (VInt 1)) with
    | Some expanded_expression, Some count =>
        Some (">>> REPEAT [" ++ count ++ "]" ++ newline ++ "    "
                ++ expanded_expression ++ newline ++ ">>> END_REPEAT")
    | _, _ => None
    end
  else if is_str expr_type "SystemIdentifier" then
    match str_of (get_or_none entries "value") with
    | Some v => Some (">>> SYSTEM [" ++ v ++ "]")
    | None => None
    end
  else
    match str_of (get_or_none entries "type") with
    | Some t => Some (">>> UNKNOWN_EXPRESSION [" ++ t ++ "]")
    | None => None
    end.

Definition header : string := "# Generated Command Language from pAI_Lang" ++ newline.

(** [expand_to_cl(parsed_pailang)] *)
Definition expand_to_cl (parsed_pailang : value) : option string :=
  match parsed_pailang with
  | VDict [] => Some ""
  | VDict entries =>
      let main_expression :=
        if is_str (get entries "type") "PAILang"
        then get_or_none entries "expression"
        else parsed_pailang in
      if truthy main_expression then
        match expand_expression main_expression with
        | Some expanded_cl => Some (header ++ expanded_cl)
        | None => None
        end
      else Some ""
  | _ => Some ""
  end.

End Engine.

End ExpansionEngine.

(* ================================================================== *)
(** * The decoder ([src/decoder/decoder.py]) *)
(* ================================================================== *)

Module Pipeline.
Import Dict.
Import ContextManager.
Import PAILangParser.
Import Decoder.
Import ExpansionEngine.

(** [Decoder.decode(pailang_text, "CL")] on a fresh decoder, after the
    parser has returned [ast]: [apply_context] on the decoder's context
    manager, then [expand_to_cl] of the engine, whose context manager is
    the same one and whose token dictionary is empty. *)
Definition decode_parsed (ast : node) : option string :=
  match contextualize ast with
  | Some m => expand_to_cl (contexts m) [] (dictionary_of ast)
  | None => None
  end.

(** A context without modifiers, for every category. *)
Definition inert (ctx : value) : bool :=
  match ctx with
  | VDict c =>
      match get_default c "definition" (VDict []) with
      | VDict ctx_def =>
          match get ctx_def "tokenModifiers" with
          | None => true
          | Some _ => false
          end
      | _ => false
      end
  | _ => false
  end.

(** A step on the stack that brings no modifier. *)
Definition keeps_inert (step : context_stack -> context_stack) : Prop :=
  forall stack, forallb inert stack = true -> forallb inert (step stack) = true.


End Pipeline.
(* ================================================================== *)
(** * Facts about dictionaries *)
(* ================================================================== *)

Module DictFacts.
Import Dict.

Lemma get_set_same {V} (d : dict V) k v : get (set d k v) k = Some v.
Proof.
  induction d as [|[k' v'] r IH]; simpl.
  - now rewrite String.eqb_refl.
  - destruct (String.eqb k' k) eqn:E; simpl; rewrite E; auto.
Qed.

Lemma get_set_other {V} (d : dict V) k k' v :
  k <> k' -> get (set d k v) k' = get d k'.
Proof.
  intros Hne. induction d as [|[k0 v0] r IH]; simpl.
  - destruct (String.eqb k k') eqn:E; auto.
    apply String.eqb_eq in E. contradiction.
  - destruct (String.eqb k0 k) eqn:E; simpl.
    + apply String.eqb_eq in E. subst k0.
      destruct (String.eqb k k') eqn:E'; auto.
      apply String.eqb_eq in E'. contradiction.
    + now rewrite IH.
Qed.

Lemma get_In {V} (d : dict V) k v : get d k = Some v -> In (k, v) d.
Proof.
  induction d as [|[k' v'] r IH]; simpl; [discriminate|].
  destruct (String.eqb k' k) eqn:E.
  - apply String.eqb_eq in E. intros [= ->]. subst. now left.
  - intros H. right. auto.
Qed.

(** A fresh key is appended after the existing entries. *)
Lemma set_fresh {V} (d : dict V) k v :
  get d k = None -> set d k v = (d ++ [(k, v)])%list.
Proof.
  induction d as [|[k' v'] r IH]; simpl; auto.
  destruct (String.eqb k' k); [discriminate|].
  intros H. now rewrite IH.
Qed.

End DictFacts.

(* ================================================================== *)
(** * SHA-256 test vectors *)
(* ================================================================== *)

Module Sha256Facts.
Import Sha256.
Local Open Scope N_scope.

Example seed_empty : seed "" = 3820012610.
Proof. vm_compute. reflexivity. Qed.

Example seed_abc : seed "abc" = 3128432319.
Proof. vm_compute. reflexivity. Qed.

Example seed_two_blocks :
  seed "aaaaaaaaaaaaaaaaaaaaaaaaaaaaaaaaaaaaaaaaaaaaaaaaaaaaaaaaaaaaaaaaaaaaaa"
  = 1809179907.
Proof. vm_compute. reflexivity. Qed.

End Sha256Facts.

(* ================================================================== *)
(** * The token registry *)
(* ================================================================== *)

Module TokenIDGeneratorFacts.
Import Dict DictFacts TokenIDGenerator.
Local Open Scope N_scope.

Lemma id_taken_spec r category s :
  id_taken r category s = true <-> In s (ids_of r category).
Proof.
  unfold id_taken, ids_of. destruct (get r category) as [d|].
  - rewrite existsb_exists. split.
    + intros [x [Hin Heq]]. apply String.eqb_eq in Heq. now subst.
    + intros Hin. exists s. split; [assumption | apply String.eqb_refl].
  - split; [discriminate | intros []].
Qed.

Lemma candidates_spec n : In n candidates <-> 1 <= n <= 99.
Proof.
  unfold candidates. rewrite in_map_iff. split.
  - intros [m [<- Hm]]. apply in_seq in Hm. lia.
  - intros H. exists (N.to_nat n). split; [apply N2Nat.id|].
    apply in_seq. lia.
Qed.

Lemma candidates_two_digit n :
  1 <= n <= 99 -> two_digit_numeric (PyStr.format_02d n) = true.
Proof.
  intros H. apply candidates_spec in H.
  assert (A : forallb (fun n => two_digit_numeric (PyStr.format_02d n)) candidates = true)
    by (vm_compute; reflexivity).
  rewrite forallb_forall in A. now apply A.
Qed.

Lemma candidates_NoDup : NoDup (map PyStr.format_02d candidates).
Proof.
  assert (E : nodup string_dec (map PyStr.format_02d candidates)
              = map PyStr.format_02d candidates) by (vm_compute; reflexivity).
  rewrite <- E. apply NoDup_nodup.
Qed.

(** Pigeonhole: with fewer than 99 distinct two-digit identifiers in use,
    one of 01..99 is free. *)
Lemma free_id_exists r category :
  (distinct_two_digit_ids r category < 99)%nat ->
  exists n, 1 <= n <= 99 /\ id_taken r category (PyStr.format_02d n) = false.
Proof.
  intros Hlt.
  destruct (find (fun n => negb (id_taken r category (PyStr.format_02d n))) candidates)
    as [n|] eqn:F.
  - apply find_some in F. destruct F as [Hin Hfree].
    exists n. split; [now apply candidates_spec | now apply negb_true_iff].
  - exfalso.
    assert (Hincl : incl (map PyStr.format_02d candidates)
                         (nodup string_dec
                                (filter two_digit_numeric (ids_of r category)))).
    { intros s Hs. apply in_map_iff in Hs. destruct Hs as [n [<- Hn]].
      apply nodup_In. apply filter_In. split.
      - apply id_taken_spec. pose proof (find_none _ _ F n Hn) as Hnone.
        now apply negb_false_iff in Hnone.
      - apply candidates_two_digit. now apply candidates_spec. }
    pose proof (NoDup_incl_length candidates_NoDup Hincl) as Hlen.
    unfold distinct_two_digit_ids in Hlt.
    rewrite length_map in Hlen. unfold candidates in Hlen.
    rewrite length_map, length_seq in Hlen. lia.
Qed.

Lemma probe_step t :
  1 <= t <= 99 -> t mod 99 + 1 = if t =? 99 then 1 else t + 1.
Proof.
  intros H. destruct (N.eqb_spec t 99) as [->|Hne]; [reflexivity|].
  rewrite N.mod_small by lia. reflexivity.
Qed.

(** While a free identifier lies ahead of the probe and before the
    starting point, the loop stops on an unused identifier in 1..99
    without drawing a UUID and without touching the generator. *)
Lemma probe_reaches_free (n first : N) (category : string) :
  1 <= n <= 99 -> 1 <= first <= 99 ->
  forall (d : nat) (fuel : nat) (w : world) (t : N),
    id_taken (token_registry (self w)) category (PyStr.format_02d n) = false ->
    1 <= t <= 99 ->
    steps_to n t = N.of_nat d ->
    steps_to n t <= steps_to n first ->
    (d < fuel)%nat ->
    exists t', probe fuel w category first t = Some (t', w)
               /\ 1 <= t' <= 99
               /\ id_taken (token_registry (self w)) category (PyStr.format_02d t') = false.
Proof.
  intros Hn Hfirst. induction d as [|d IH]; intros fuel w t Hfree Ht Hd Hle Hfuel.
  - destruct fuel as [|fuel]; [lia|]. simpl.
    assert (t = n) as ->.
    { unfold steps_to in Hd.
      destruct (t <=? n) eqn:E; [apply N.leb_le in E | apply N.leb_gt in E]; lia. }
    fold (PyStr.format_02d n). rewrite Hfree. eauto.
  - destruct fuel as [|fuel]; [lia|]. simpl.
    fold (PyStr.format_02d t).
    destruct (id_taken (token_registry (self w)) category (PyStr.format_02d t)) eqn:Htaken.
    2:{ eauto. }
    rewrite (probe_step Ht).
    assert (Hnext : 1 <= (if t =? 99 then 1 else t + 1) <= 99
                    /\ steps_to n (if t =? 99 then 1 else t + 1) = N.of_nat d).
    { assert (t <> n) by (intros ->; congruence).
      unfold steps_to in *. revert Hd Hle.
      destruct (N.eqb_spec t 99); destruct (N.leb_spec t n);
        repeat match goal with |- context [?a <=? ?b] => destruct (N.leb_spec a b) end;
        lia. }
    destruct Hnext as [Hrange Hsteps].
    destruct (N.eqb_spec (if t =? 99 then 1 else t + 1) first) as [Heq|Hneq].
    + exfalso. rewrite Heq in Hsteps. rewrite Hsteps in Hle. lia.
    + apply IH; auto; lia.
Qed.

Lemma probe_terminates (fuel : nat) (w : world) (category : string) (first : N) :
  (distinct_two_digit_ids (token_registry (self w)) category < 99)%nat ->
  1 <= first <= 99 ->
  (99 <= fuel)%nat ->
  exists t, probe fuel w category first first = Some (t, w)
            /\ 1 <= t <= 99
            /\ id_taken (token_registry (self w)) category (PyStr.format_02d t) = false.
Proof.
  intros Hcount Hfirst Hfuel.
  destruct (free_id_exists _ _ Hcount) as [n [Hn Hfree]].
  apply (@probe_reaches_free n first category Hn Hfirst
           (N.to_nat (steps_to n first))); auto.
  - now rewrite N2Nat.id.
  - lia.
  - unfold steps_to. destruct (N.leb_spec first n); lia.
Qed.

Lemma first_in_range seed counter : 1 <= (seed + counter) mod 99 + 1 <= 99.
Proof.
  assert (H : (seed + counter) mod 99 < 99) by (apply N.mod_upper_bound; discriminate).
  revert H. generalize ((seed + counter) mod 99). intros m H. lia.
Qed.

(** ** Decimal rendering *)

Lemma all_digits_string_of_uint d :
  PyStr.all_digits (NilEmpty.string_of_uint d) = true.
Proof. induction d; simpl; auto. Qed.

Lemma zfill2_long s : (2 <= String.length (PyStr.zfill2 s))%nat.
Proof. destruct s as [|a [|b r]]; simpl; lia. Qed.

Lemma format_02d_nonempty n : PyStr.format_02d n <> "".
Proof.
  pose proof (zfill2_long (PyStr.str n)) as H. unfold PyStr.format_02d.
  destruct (PyStr.zfill2 (PyStr.str n)); [simpl in H; lia | discriminate].
Qed.

Lemma int_str n : PyStr.int (PyStr.str n) = n.
Proof.
  unfold PyStr.int, PyStr.str. rewrite NilEmpty.usu. apply DecimalN.Unsigned.of_to.
Qed.

Lemma int_leading_zero s : PyStr.int (String "0" s) = PyStr.int s.
Proof.
  unfold PyStr.int. cbn [NilEmpty.uint_of_string].
  destruct (NilEmpty.uint_of_string s); reflexivity.
Qed.

Lemma int_format_02d n : PyStr.int (PyStr.format_02d n) = n.
Proof.
  unfold PyStr.format_02d. pose proof (int_str n) as H.
  destruct (PyStr.str n) as [|a [|b r]] eqn:E; simpl PyStr.zfill2.
  - rewrite <- H. reflexivity.
  - rewrite <- H. apply int_leading_zero.
  - exact H.
Qed.

Lemma isdigit_format_02d n : PyStr.isdigit (PyStr.format_02d n) = true.
Proof.
  unfold PyStr.format_02d.
  pose proof (all_digits_string_of_uint (N.to_uint n)) as H. fold (PyStr.str n) in H.
  destruct (PyStr.str n) as [|a [|b r]]; simpl in *; auto.
Qed.

(** ** Frame properties *)

Lemma save_self w : self (_save_token_registry w) = self w.
Proof. unfold _save_token_registry. now destruct (_ && _). Qed.

Lemma save_store w :
  store (_save_token_registry w)
  = if path_set (token_registry_path (self w)) && store_writable w
    then Some (token_registry (self w)) else store w.
Proof. unfold _save_token_registry. now destruct (_ && _). Qed.

Lemma save_writable w : store_writable (_save_token_registry w) = store_writable w.
Proof. unfold _save_token_registry. now destruct (_ && _). Qed.

Lemma probe_frame fuel : forall w category first t t' w',
  probe fuel w category first t = Some (t', w') ->
  self w' = self w /\ store w' = store w /\ store_writable w' = store_writable w.
Proof.
  induction fuel as [|fuel IH]; intros w category first t t' w' H; simpl in H.
  - discriminate.
  - destruct (id_taken _ _ _).
    + destruct (_ =? first).
      * apply IH in H. simpl in H. exact H.
      * now apply IH in H.
    + injection H as _ <-. auto.
Qed.

Lemma generate_new_frame fuel w value category token_id w1 :
  _generate_new_token_id fuel w value category = Some (token_id, w1) ->
  token_registry (self w1) = token_registry (self w)
  /\ token_registry_path (self w1) = token_registry_path (self w)
  /\ store w1 = store w /\ store_writable w1 = store_writable w.
Proof.
  unfold _generate_new_token_id. intros H.
  destruct value as [|c value].
  - injection H as _ <-. simpl. auto.
  - destruct (probe _ _ _ _ _) as [[t w']|] eqn:P; [|discriminate].
    apply probe_frame in P. destruct P as [Hs [Hst Hw]].
    injection H as _ <-. simpl. rewrite Hs. auto.
Qed.

(** ** Registry updates *)

Lemma lookup_store_same r category value token_id :
  lookup (store_token r category value token_id) category value = Some token_id.
Proof.
  unfold lookup, store_token. rewrite get_set_same. apply get_set_same.
Qed.

Lemma lookup_store_other r category value token_id category' value' :
  (category', value') <> (category, value) ->
  lookup (store_token r category value token_id) category' value'
  = lookup r category' value'.
Proof.
  intros Hne. unfold lookup, store_token.
  destruct (string_dec category category') as [<-|Hc].
  - rewrite get_set_same.
    assert (Hv : value <> value') by congruence.
    rewrite get_set_other by assumption.
    unfold mem, get_default.
    destruct (get r category) as [d|] eqn:G.
    + now rewrite G.
    + now rewrite get_set_same.
  - rewrite get_set_other by assumption.
    unfold mem. destruct (get r category); auto.
    now rewrite get_set_other.
Qed.

Lemma ids_of_store_fresh r category value token_id :
  lookup r category value = None ->
  ids_of (store_token r category value token_id) category
  = (ids_of r category ++ [token_id])%list.
Proof.
  unfold lookup, ids_of, store_token, mem, get_default, values. intros H.
  rewrite get_set_same.
  destruct (get r category) as [d|] eqn:G.
  - rewrite G. rewrite set_fresh by assumption. now rewrite map_app.
  - rewrite get_set_same. reflexivity.
Qed.

Lemma get_store_token r category value token_id :
  get (store_token r category value token_id) category
  = Some (set (get_default r category []) value token_id).
Proof.
  unfold store_token, mem, get_default. rewrite get_set_same.
  destruct (get r category) as [d|] eqn:G.
  - now rewrite G.
  - now rewrite get_set_same.
Qed.

(** ** What [_generate_new_token_id] returns *)

Lemma generate_new_nonempty fuel w c value category :
  (distinct_two_digit_ids (token_registry (self w)) category < 99)%nat ->
  (99 <= fuel)%nat ->
  exists t,
    1 <= t <= 99
    /\ id_taken (token_registry (self w)) category (PyStr.format_02d t) = false
    /\ _generate_new_token_id fuel w (String c value) category
       = Some (PyStr.format_02d t,
               with_self w
                 {| token_registry_path := token_registry_path (self w);
                    token_registry := token_registry (self w);
                    category_counters :=
                      set (category_counters (self w)) category
                          (N.max (get_default (category_counters (self w)) category 1) t + 1) |}).
Proof.
  intros Hcount Hfuel. unfold _generate_new_token_id.
  set (first := (Sha256.seed (String c value)
                 + get_default (category_counters (self w)) category 1) mod 99 + 1).
  destruct (@probe_terminates fuel w category first Hcount (first_in_range _ _) Hfuel)
    as [t [Hp [Ht Hfree]]].
  exists t. rewrite Hp. auto.
Qed.

(** ** What [generate_token_id] returns *)

Lemma generate_token_id_existing fuel w value category token_id :
  lookup (token_registry (self w)) (PyStr.lower category) (_normalize_value value)
  = Some token_id ->
  generate_token_id fuel w value category
  = Some (get_default category_prefixes (PyStr.lower category) "D" ++ token_id, w).
Proof. intros H. unfold generate_token_id. now rewrite H. Qed.

(** Every returning call either finds the value or appends it, and leaves
    the path and the store's writability alone. *)
Lemma generate_token_id_inv fuel w value category token w' :
  generate_token_id fuel w value category = Some (token, w') ->
  token_registry_path (self w') = token_registry_path (self w)
  /\ store_writable w' = store_writable w
  /\ ((w' = w
       /\ exists token_id,
           lookup (token_registry (self w)) (PyStr.lower category) (_normalize_value value)
           = Some token_id
           /\ token = get_default category_prefixes (PyStr.lower category) "D" ++ token_id)
      \/ (lookup (token_registry (self w)) (PyStr.lower category) (_normalize_value value)
          = None
          /\ exists token_id,
              token = get_default category_prefixes (PyStr.lower category) "D" ++ token_id
              /\ token_registry (self w')
                 = store_token (token_registry (self w)) (PyStr.lower category)
                               (_normalize_value value) token_id
              /\ store w'
                 = if path_set (token_registry_path (self w)) && store_writable w
                   then Some (token_registry (self w')) else store w)).
Proof.
  unfold generate_token_id. intros H.
  destruct (lookup _ _ _) as [token_id|] eqn:L.
  - injection H as <- <-. split; [reflexivity|]. split; [reflexivity|].
    left. split; [reflexivity|]. now exists token_id.
  - destruct (_generate_new_token_id _ _ _ _) as [[token_id w1]|] eqn:G; [|discriminate].
    apply generate_new_frame in G. destruct G as [Hreg [Hpath [Hstore Hwr]]].
    injection H as <- <-.
    rewrite save_self, save_writable, save_store. simpl.
    rewrite Hreg, Hpath, Hstore, Hwr.
    split; [reflexivity|]. split; [reflexivity|]. right.
    split; [reflexivity|]. exists token_id. auto.
Qed.

(** The call returns when the value is registered already, when its
    normalized form is empty, or when the category still has a free
    two-digit identifier. *)
Lemma generate_token_id_returns fuel w value category :
  lookup (token_registry (self w)) (PyStr.lower category) (_normalize_value value) <> None
  \/ _normalize_value value = ""
  \/ (distinct_two_digit_ids (token_registry (self w)) (PyStr.lower category) < 99)%nat ->
  (99 <= fuel)%nat ->
  exists token_id w',
    generate_token_id fuel w value category
    = Some (get_default category_prefixes (PyStr.lower category) "D" ++ token_id, w')
    /\ lookup (token_registry (self w')) (PyStr.lower category) (_normalize_value value)
       = Some token_id
    /\ (lookup (token_registry (self w)) (PyStr.lower category) (_normalize_value value)
        = None ->
        exists t,
          token_id = PyStr.format_02d t
          /\ (_normalize_value value <> "" ->
              1 <= t <= 99
              /\ id_taken (token_registry (self w)) (PyStr.lower category) token_id = false)
          /\ (_normalize_value value = "" ->
              t = get_default (category_counters (self w)) (PyStr.lower category) 1)).
Proof.
  intros Hret Hfuel. unfold generate_token_id.
  destruct (lookup _ _ _) as [token_id|] eqn:L.
  - exists token_id, w. split; [reflexivity|]. split; [assumption | discriminate].
  - destruct (_normalize_value value) as [|c nv] eqn:NV.
    + eexists. eexists. split; [reflexivity|]. split.
      * rewrite save_self. simpl. apply lookup_store_same.
      * intros _. eexists. split; [reflexivity|]. split; [congruence | reflexivity].
    + assert (Hcount : (distinct_two_digit_ids (token_registry (self w))
                                              (PyStr.lower category) < 99)%nat).
      { destruct Hret as [H | [H | H]]; [congruence | discriminate | assumption]. }
      destruct (@generate_new_nonempty fuel w c nv _ Hcount Hfuel) as [t [Ht [Hfree Hg]]].
      rewrite Hg. eexists. eexists. split; [reflexivity|]. split.
      * rewrite save_self. simpl. apply lookup_store_same.
      * intros _. exists t. split; [reflexivity|]. split; [auto | discriminate].
Qed.

Lemma find_none_existsb {A} (f : A -> bool) l : existsb f l = false -> find f l = None.
Proof.
  induction l as [|x l IH]; simpl; auto.
  destruct (f x); simpl; [discriminate | auto].
Qed.

(** C8: for every malformed token string, empty, shorter than two
    characters, or starting with a character that is no category prefix,
    [get_value_from_token] returns the not-found result (the pair of
    [None]s); being a total function it raises nothing. *)
Theorem get_value_from_token_malformed (g : generator) (token : string) :
  token = "" \/ (String.length token < 2)%nat
  \/ (exists c rest, token = String c rest /\ known_prefix c = false) ->
  get_value_from_token g token = None.
Proof.
  intros [-> | [Hlen | [c [rest [-> Hunknown]]]]]; [reflexivity | |].
  - destruct token as [|c rest]; [reflexivity|].
    unfold get_value_from_token.
    destruct (String.length (String c rest) <? 2)%nat eqn:E; [reflexivity|].
    apply Nat.ltb_ge in E. lia.
  - unfold get_value_from_token.
    destruct (String.length (String c rest) <? 2)%nat; [reflexivity|].
    unfold known_prefix in Hunknown.
    now rewrite (find_none_existsb _ _ Hunknown).
Qed.

Lemma get_value_from_token_malformed_witness :
  get_value_from_token (self (in_memory crowded_tasks initial_counters)) "" = None
  /\ get_value_from_token (self (in_memory crowded_tasks initial_counters)) "T" = None
  /\ get_value_from_token (self (in_memory crowded_tasks initial_counters)) "X01" = None.
Proof.
  split; [|split]; apply get_value_from_token_malformed.
  - left. reflexivity.
  - right. left. simpl. lia.
  - right. right. exists "X"%char, "01". split; reflexivity.
Defined.

(** C10: a call of [_generate_new_token_id] with a non-empty normalized
    value, made while the category has fewer than 99 distinct two-digit
    numeric identifiers registered, leaves the collision loop (99
    iterations are enough) and returns a two-digit identifier. *)
Theorem generate_new_token_id_terminates (fuel : nat) (w : world) (value category : string) :
  value <> "" ->
  (distinct_two_digit_ids (token_registry (self w)) category < 99)%nat ->
  (99 <= fuel)%nat ->
  exists token_id w',
    _generate_new_token_id fuel w value category = Some (token_id, w')
    /\ two_digit_numeric token_id = true.
Proof.
  intros Hvalue Hcount Hfuel.
  destruct value as [|c value]; [contradiction|].
  destruct (@generate_new_nonempty fuel w c value category Hcount Hfuel)
    as [t [Ht [_ Hg]]].
  rewrite Hg. eexists. eexists. split; [reflexivity|].
  now apply candidates_two_digit.
Qed.

Lemma generate_new_token_id_terminates_witness :
  exists token_id w',
    _generate_new_token_id 99 (in_memory crowded_tasks initial_counters)
                           "initialize_system" "task" = Some (token_id, w')
    /\ two_digit_numeric token_id = true.
Proof.
  apply generate_new_token_id_terminates.
  - discriminate.
  - vm_compute. lia.
  - lia.
Defined.

(** ** A category the generator does not know *)

(** For a category whose lower-case form is none of the 13 known ones, a
    call of [generate_token_id] that returns gives a token with the default
    prefix D and has the value stored under the (lower-cased) unknown
    category, and the call does return whenever the collision loop can
    stop, that is when the value is registered already, its normalized form
    is empty, or the category has fewer than 99 distinct two-digit
    identifiers in use. *)
Lemma generate_token_id_unknown_category
        (fuel : nat) (w : world) (value category : string) :
  get category_prefixes (PyStr.lower category) = None ->
  lookup (token_registry (self w)) (PyStr.lower category) (_normalize_value value) <> None
  \/ _normalize_value value = ""
  \/ (distinct_two_digit_ids (token_registry (self w)) (PyStr.lower category) < 99)%nat ->
  (99 <= fuel)%nat ->
  (exists token_id w',
      generate_token_id fuel w value category = Some ("D" ++ token_id, w')
      /\ lookup (token_registry (self w')) (PyStr.lower category) (_normalize_value value)
         = Some token_id)
  /\ (forall fuel' token w',
         generate_token_id fuel' w value category = Some (token, w') ->
         exists token_id,
           token = "D" ++ token_id
           /\ lookup (token_registry (self w')) (PyStr.lower category)
                     (_normalize_value value) = Some token_id).
Proof.
  intros Hunknown Hret Hfuel. split.
  - destruct (generate_token_id_returns w value category Hret Hfuel)
      as [token_id [w' [Hg [Hl _]]]].
    exists token_id, w'. split; [|assumption].
    rewrite Hg. unfold get_default. now rewrite Hunknown.
  - intros fuel' token w' Hg. apply generate_token_id_inv in Hg.
    unfold get_default in Hg. rewrite Hunknown in Hg.
    destruct Hg as [_ [_ [[-> [tid [Hl ->]]] | [_ [tid [-> [Hreg _]]]]]]].
    + now exists tid.
    + exists tid. split; [reflexivity|]. rewrite Hreg. apply lookup_store_same.
Qed.

Lemma generate_token_id_unknown_category_witness :
  (exists token_id w',
      generate_token_id 99 (in_memory empty_registry initial_counters)
                        "Custom Operation" "Operation" = Some ("D" ++ token_id, w')
      /\ lookup (token_registry (self w')) (PyStr.lower "Operation")
                (_normalize_value "Custom Operation") = Some token_id)
  /\ (forall fuel' token w',
         generate_token_id fuel' (in_memory empty_registry initial_counters)
                           "Custom Operation" "Operation" = Some (token, w') ->
         exists token_id,
           token = "D" ++ token_id
           /\ lookup (token_registry (self w')) (PyStr.lower "Operation")
                     (_normalize_value "Custom Operation") = Some token_id).
Proof.
  apply generate_token_id_unknown_category.
  - reflexivity.
  - right. right. vm_compute. lia.
  - lia.
Defined.

(** ** A saturated category *)

(** With all of 01..99 in use the collision loop never stops: every
    identifier it tries, the UUID fallback included, lies in 1..99. *)
Lemma probe_saturated category first :
  forall fuel w t,
    (forall n, 1 <= n <= 99 ->
               id_taken (token_registry (self w)) category (PyStr.format_02d n) = true) ->
    1 <= t <= 99 ->
    probe fuel w category first t = None.
Proof.
  induction fuel as [|fuel IH]; intros w t Hall Ht; [reflexivity|].
  simpl. fold (PyStr.format_02d t). rewrite (Hall t Ht).
  destruct (_ =? first).
  - apply IH; [exact Hall|].
    assert (H : uuid4 w (uuid_drawn w) mod 99 < 99) by (apply N.mod_upper_bound; discriminate).
    revert H. generalize (uuid4 w (uuid_drawn w) mod 99). intros m H. lia.
  - apply IH; [exact Hall|].
    assert (H : t mod 99 < 99) by (apply N.mod_upper_bound; discriminate).
    revert H. generalize (t mod 99). intros m H. lia.
Qed.

Lemma generate_token_id_saturated fuel w value category :
  (forall n, 1 <= n <= 99 ->
             id_taken (token_registry (self w)) (PyStr.lower category)
                      (PyStr.format_02d n) = true) ->
  lookup (token_registry (self w)) (PyStr.lower category) (_normalize_value value) = None ->
  _normalize_value value <> "" ->
  generate_token_id fuel w value category = None.
Proof.
  intros Hall Hnone Hne. unfold generate_token_id. rewrite Hnone.
  unfold _generate_new_token_id.
  destruct (_normalize_value value) as [|c nv]; [contradiction|].
  rewrite probe_saturated; [reflexivity | exact Hall | apply first_in_range].
Qed.

Lemma saturated_all_taken category n :
  1 <= n <= 99 -> id_taken (saturated category) category (PyStr.format_02d n) = true.
Proof.
  intros Hn. apply id_taken_spec. unfold ids_of, saturated.
  cbn [get]. rewrite String.eqb_refl. unfold values. rewrite map_map.
  cbn [snd]. apply in_map. now apply candidates_spec.
Qed.

(** The hundredth value of a category is never given an identifier. *)
Lemma generate_token_id_hundredth_value fuel :
  generate_token_id fuel (in_memory (saturated "task") initial_counters)
                    "one more task" "task" = None.
Proof.
  apply generate_token_id_saturated.
  - intros n Hn. now apply saturated_all_taken.
  - vm_compute. reflexivity.
  - discriminate.
Qed.

(** Ninety-nine calls for an unknown category, from the empty registry,
    use up the identifiers 01..99 of that category, whatever UUIDs the
    generator would draw. *)
Lemma plugin_values_saturate (uuids : nat -> N) :
  match generate_all 99 (drawing uuids (in_memory empty_registry initial_counters))
                     plugin_values "Plugin" with
  | Some w =>
      forallb (fun n => id_taken (token_registry (self w)) "plugin" (PyStr.format_02d n))
              candidates = true
      /\ lookup (token_registry (self w)) "plugin" "one_more_plugin" = None
  | None => False
  end.
Proof. vm_compute. split; reflexivity. Qed.

(** C9: [generate_token_id] does not return a token for every value of an
    unknown category.  After the 99 values plugin 01 .. plugin 99 of the
    category Plugin (not one of the 13 known ones) have been given their
    identifiers, starting from the empty registry, the call for one more
    value never leaves the collision loop of [_generate_new_token_id]:
    no number of iterations gives a result, whatever UUIDs are drawn. *)
Theorem generate_token_id_unknown_category_saturated (uuids : nat -> N) :
  get category_prefixes (PyStr.lower "Plugin") = None
  /\ exists w,
      generate_all 99 (drawing uuids (in_memory empty_registry initial_counters))
                   plugin_values "Plugin" = Some w
      /\ forall fuel, generate_token_id fuel w "One more plugin!" "Plugin" = None.
Proof.
  split; [reflexivity|].
  pose proof (plugin_values_saturate uuids) as H.
  destruct (generate_all 99 _ plugin_values "Plugin") as [w|]; [|contradiction].
  destruct H as [Hall Hnone]. exists w. split; [reflexivity|].
  intros fuel. apply generate_token_id_saturated.
  - intros n Hn. rewrite forallb_forall in Hall. apply Hall. now apply candidates_spec.
  - exact Hnone.
  - discriminate.
Qed.

(** ** Construction *)

(** Without a readable registry file the constructor does not return:
    [_load_token_registry] reads [self.category_prefixes] before
    [__init__] has assigned it. *)
Lemma init_without_store path w :
  path_set path = false \/ store w = None -> init path w = None.
Proof.
  unfold init, _load_token_registry. intros [H | H].
  - now rewrite H.
  - rewrite H. now destruct (path_set path).
Qed.

Lemma init_on_disk :
  init (Some "registry/tokens.json") (on_disk "registry/tokens.json")
  = Some (on_disk "registry/tokens.json").
Proof. reflexivity. Qed.

(** One identifier before and after a reload. *)
Lemma reload_example :
  exists w1 w2 w3,
    generate_token_id 99 (on_disk "registry/tokens.json") "initialize_system" "system"
    = Some ("S27", w1)
    /\ reload w1 = Some w2
    /\ generate_token_id 99 w2 "Initialize system!" "System" = Some ("S27", w3).
Proof.
  eexists. eexists. eexists. split; [vm_compute; reflexivity|].
  split; [vm_compute; reflexivity|]. vm_compute. reflexivity.
Qed.

(** ** Determinism *)



Lemma registry_empty_forallb (r : registry) :
  forallb (fun cd => match snd cd with [] => true | _ => false end) r = true ->
  registry_empty r.
Proof.
  intros H category. unfold ids_of.
  destruct (get r category) as [d|] eqn:G; [|reflexivity].
  apply get_In in G. rewrite forallb_forall in H. specialize (H _ G). simpl in H.
  destruct d; [reflexivity | discriminate].
Qed.






(** ** Resolving a generated token *)

Lemma find_by_id (d : dict string) value token_id :
  NoDup (values d) -> get d value = Some token_id ->
  find (fun vt => String.eqb (snd vt) token_id) d = Some (value, token_id).
Proof.
  induction d as [|[k x] r IH]; simpl; [discriminate|].
  intros Hnd Hget. inversion Hnd as [|? ? Hnotin Hnd']; subst.
  destruct (String.eqb k value) eqn:E.
  - apply String.eqb_eq in E. injection Hget as ->. subst.
    now rewrite String.eqb_refl.
  - destruct (String.eqb x token_id) eqn:E'.
    + apply String.eqb_eq in E'. subst x. exfalso. apply Hnotin.
      apply get_In in Hget. unfold values. apply in_map_iff.
      now exists (value, token_id).
    + now apply IH.
Qed.

Lemma find_appended (d : dict string) value token_id :
  ~ In token_id (values d) ->
  find (fun vt => String.eqb (snd vt) token_id) (d ++ [(value, token_id)])%list
  = Some (value, token_id).
Proof.
  induction d as [|[k x] r IH]; simpl; intros Hnotin.
  - now rewrite String.eqb_refl.
  - destruct (String.eqb x token_id) eqn:E.
    + apply String.eqb_eq in E. tauto.
    + apply IH. tauto.
Qed.

Lemma resolve_token g category p token_id value d :
  token_id <> "" ->
  find (fun cp => String.eqb (snd cp) (String p "")) category_prefixes
  = Some (category, String p "") ->
  get (token_registry g) category = Some d ->
  find (fun vt => String.eqb (snd vt) token_id) d = Some (value, token_id) ->
  get_value_from_token g (String p token_id) = Some (value, category).
Proof.
  intros Hne Hprefix Hd Hfind. unfold get_value_from_token.
  destruct token_id as [|c r]; [contradiction|]. simpl String.length. simpl Nat.ltb.
  now rewrite Hprefix, Hd, Hfind.
Qed.

Lemma lookup_ids r category value token_id :
  lookup r category value = Some token_id -> In token_id (ids_of r category).
Proof.
  unfold lookup, ids_of. destruct (get r category) as [d|]; [|discriminate].
  intros H. apply get_In in H. unfold values. apply in_map_iff.
  now exists (value, token_id).
Qed.

(** With a prefix that leads back to its category and a well-formed
    category, the token just generated resolves to the value it names. *)
Lemma resolve_after_generate fuel w value category p :
  PyStr.lower category = category ->
  get category_prefixes category = Some (String p "") ->
  find (fun cp => String.eqb (snd cp) (String p "")) category_prefixes
  = Some (category, String p "") ->
  well_formed w category ->
  (distinct_two_digit_ids (token_registry (self w)) category < 99)%nat ->
  (99 <= fuel)%nat ->
  exists token w',
    generate_token_id fuel w value category = Some (token, w')
    /\ get_value_from_token (self w') token = Some (_normalize_value value, category).
Proof.
  intros Hlower Hprefix Hback [Hnd Hne Hctr] Hcount Hfuel.
  assert (Hret : lookup (token_registry (self w)) (PyStr.lower category)
                        (_normalize_value value) <> None
                 \/ _normalize_value value = ""
                 \/ (distinct_two_digit_ids (token_registry (self w))
                                            (PyStr.lower category) < 99)%nat).
  { right. right. now rewrite Hlower. }
  destruct (generate_token_id_returns w value category Hret Hfuel)
    as [token_id [w' [Hg [Hl Hnew]]]].
  rewrite Hlower in *. unfold get_default in Hg. rewrite Hprefix in Hg.
  exists (String p token_id), w'. split; [exact Hg|].
  pose proof (generate_token_id_inv _ _ _ _ Hg) as Hinv. rewrite Hlower in Hinv.
  destruct Hinv as [_ [_ [[-> [tid [Hsome Htok]]] | [Hnone [tid [Htok [Hreg _]]]]]]].
  - (* the value was registered already *)
    rewrite Hsome in Hl. injection Hl as ->.
    pose proof (lookup_ids _ _ _ Hsome) as Hin.
    unfold lookup in Hsome. unfold ids_of in Hnd, Hin, Hne.
    destruct (get (token_registry (self w)) category) as [d|] eqn:G; [|discriminate].
    eapply resolve_token; eauto.
    + intros ->. contradiction.
    + now apply find_by_id.
  - (* a new identifier was appended *)
    assert (tid = token_id) as ->.
    { unfold get_default in Htok. rewrite Hprefix in Htok. simpl in Htok. congruence. }
    destruct (Hnew Hnone) as [t [-> [Hfresh Hcounter]]].
    assert (Hnotin : ~ In (PyStr.format_02d t) (ids_of (token_registry (self w)) category)).
    { destruct (_normalize_value value) as [|c nv] eqn:NV.
      - intros Hin. specialize (Hctr _ Hin (isdigit_format_02d t)).
        rewrite int_format_02d, (Hcounter eq_refl) in Hctr. lia.
      - destruct (Hfresh ltac:(discriminate)) as [_ Hfree].
        intros Hin. apply id_taken_spec in Hin. congruence. }
    eapply resolve_token.
    + apply format_02d_nonempty.
    + exact Hback.
    + rewrite Hreg. apply get_store_token.
    + assert (Hd0 : get (get_default (token_registry (self w)) category [])
                        (_normalize_value value) = None).
      { unfold lookup in Hnone. unfold get_default.
        destruct (get (token_registry (self w)) category); auto. }
      rewrite (set_fresh _ _ _ Hd0). apply find_appended.
      unfold ids_of in Hnotin. unfold get_default.
      destruct (get (token_registry (self w)) category); auto.
Qed.

(** ** The invariant is kept by [generate_token_id] *)

Lemma probe_free fuel : forall w category first t t' w',
  probe fuel w category first t = Some (t', w') ->
  id_taken (token_registry (self w)) category (PyStr.format_02d t') = false.
Proof.
  induction fuel as [|fuel IH]; intros w category first t t' w' H; simpl in H.
  - discriminate.
  - fold (PyStr.format_02d t) in H.
    destruct (id_taken _ _ (PyStr.format_02d t)) eqn:E.
    + destruct (_ =? first).
      * apply IH in H. exact H.
      * now apply IH in H.
    + now injection H as <- _.
Qed.

Lemma generate_new_inv fuel w value category token_id w1 :
  _generate_new_token_id fuel w value category = Some (token_id, w1) ->
  exists t,
    token_id = PyStr.format_02d t
    /\ category_counters (self w1)
       = set (category_counters (self w)) category
             (N.max (get_default (category_counters (self w)) category 1) t + 1)
    /\ (value <> "" ->
        id_taken (token_registry (self w)) category token_id = false)
    /\ (value = "" -> t = get_default (category_counters (self w)) category 1).
Proof.
  unfold _generate_new_token_id. intros H. destruct value as [|c value].
  - injection H as <- <-. eexists. split; [reflexivity|]. split; [reflexivity|].
    split; [congruence | reflexivity].
  - destruct (probe _ _ _ _ _) as [[t w']|] eqn:P; [|discriminate].
    pose proof (probe_free _ _ _ _ _ P) as Hfree.
    apply probe_frame in P. destruct P as [Hs _].
    injection H as <- <-. exists t. simpl. rewrite Hs.
    split; [reflexivity|]. split; [reflexivity|]. split; [auto | discriminate].
Qed.

Lemma ids_of_store_other r category value token_id category' :
  category' <> category ->
  ids_of (store_token r category value token_id) category' = ids_of r category'.
Proof.
  intros Hne. unfold ids_of, store_token.
  rewrite get_set_other by congruence.
  unfold mem. destruct (get r category); [reflexivity|].
  now rewrite get_set_other by congruence.
Qed.

Lemma get_default_set_same {V} (d : dict V) k v dflt :
  get_default (set d k v) k dflt = v.
Proof. unfold get_default. now rewrite get_set_same. Qed.

Lemma get_default_set_other {V} (d : dict V) k k' v dflt :
  k <> k' -> get_default (set d k v) k' dflt = get_default d k' dflt.
Proof. intros H. unfold get_default. now rewrite get_set_other. Qed.

Lemma well_formed_generate fuel w value category token w' c :
  well_formed w c ->
  generate_token_id fuel w value category = Some (token, w') ->
  well_formed w' c.
Proof.
  intros [Hnd Hne Hctr] H. unfold generate_token_id in H.
  destruct (lookup _ _ _) as [existing|] eqn:L.
  - injection H as _ <-. now constructor.
  - destruct (_generate_new_token_id _ _ _ _) as [[tid w1]|] eqn:G; [|discriminate].
    pose proof (generate_new_frame _ _ _ _ G) as [Hreg _].
    apply generate_new_inv in G. destruct G as [t [-> [Hcounters [Hfresh Hnext]]]].
    injection H as _ <-.
    set (next := get_default (category_counters (self w)) (PyStr.lower category) 1) in *.
    destruct (string_dec c (PyStr.lower category)) as [->|Hother].
    + (* the category of the call *)
      assert (Hnotin : ~ In (PyStr.format_02d t)
                           (ids_of (token_registry (self w)) (PyStr.lower category))).
      { destruct (_normalize_value value) as [|x nv] eqn:NV.
        - intros Hin. specialize (Hctr _ Hin (isdigit_format_02d t)).
          rewrite int_format_02d, (Hnext eq_refl) in Hctr. fold next in Hctr. lia.
        - intros Hin. apply id_taken_spec in Hin.
          rewrite (Hfresh ltac:(discriminate)) in Hin. discriminate. }
      constructor; rewrite save_self; cbn [self with_self token_registry category_counters];
        rewrite Hreg, (ids_of_store_fresh _ _ _ _ L).
      * apply NoDup_app; [assumption | repeat constructor; intros [] | ].
        intros x Hx [<-|[]]. contradiction.
      * intros Hin. apply in_app_or in Hin. destruct Hin as [Hin | [Hin | []]];
          [contradiction | now apply format_02d_nonempty in Hin].
      * intros token_id Hin Hdigit. rewrite Hcounters.
        rewrite get_set_same, get_default_set_same.
        fold next.
        apply in_app_or in Hin. destruct Hin as [Hin | [<- | []]].
        -- specialize (Hctr _ Hin Hdigit). fold next in Hctr. lia.
        -- rewrite int_format_02d. lia.
    + (* another category *)
      constructor; rewrite save_self; cbn [self with_self token_registry category_counters];
        rewrite Hreg; rewrite ids_of_store_other by exact Hother; try assumption.
      intros token_id Hin Hdigit. specialize (Hctr _ Hin Hdigit).
      rewrite Hcounters. rewrite get_set_same.
      rewrite !get_default_set_other by congruence. exact Hctr.
Qed.

Lemma well_formed_empty w c :
  registry_empty (token_registry (self w)) -> well_formed w c.
Proof.
  intros H. constructor; rewrite (H c).
  - constructor.
  - intros [].
  - intros token_id [].
Qed.

Lemma well_formed_calls w0 w c :
  well_formed w0 c -> calls w0 w -> well_formed w c.
Proof.
  intros H0 Hc. induction Hc as [w | w1 w2 w3 fuel value category token _ IH Hg].
  - assumption.
  - eapply well_formed_generate; [exact (IH H0) | exact Hg].
Qed.

(** Generated tokens resolve on every registry built from an empty one by
    calls of [generate_token_id]: such a registry is well formed. *)
Lemma token_bijection_on_generated_registries
      (fuel : nat) (w0 w : world) (value category : string) :
  registry_empty (token_registry (self w0)) ->
  calls w0 w ->
  In category (keys category_prefixes) ->
  category <> "security" ->
  (distinct_two_digit_ids (token_registry (self w)) category < 99)%nat ->
  (99 <= fuel)%nat ->
  exists token w',
    generate_token_id fuel w value category = Some (token, w')
    /\ get_value_from_token (self w') token = Some (_normalize_value value, category).
Proof.
  intros Hempty Hcalls Hin Hsec Hcount Hfuel.
  assert (Hwf : well_formed w category).
  { eapply well_formed_calls; [|exact Hcalls]. now apply well_formed_empty. }
  simpl in Hin.
  repeat (destruct Hin as [<- | Hin];
          [try contradiction;
           eapply resolve_after_generate; eauto; reflexivity |]).
  contradiction.
Qed.

(** C2, as the claim states it, fails for the category security: its
    prefix S resolves to system, the first category with that prefix. *)
Lemma token_bijection_security_counterexample :
  exists w',
    generate_token_id 99 (in_memory empty_registry initial_counters)
                      "Authenticate User" "security" = Some ("S45", w')
    /\ _normalize_value "Authenticate User" = "authenticate_user"
    /\ get_value_from_token (self w') "S45" = None
    /\ get_value_from_token (self w') "S45"
       <> Some (_normalize_value "Authenticate User", "security").
Proof.
  eexists. split; [vm_compute; reflexivity|].
  split; [reflexivity|]. split; [reflexivity|]. discriminate.
Qed.

(** C2 (amended): for every value and every one of the 12 documented
    categories other than security, on a registry whose category is
    well formed (identifiers non-empty and pairwise distinct, counter above
    the numeric identifiers in use) and has fewer than 99 distinct
    two-digit identifiers, the token returned by [generate_token_id]
    resolves through [get_value_from_token], on the same registry, to the
    normalized value and the category. *)
Theorem token_bijection_unambiguous_prefix
        (fuel : nat) (w : world) (value category : string) :
  In category (keys category_prefixes) ->
  category <> "security" ->
  well_formed w category ->
  (distinct_two_digit_ids (token_registry (self w)) category < 99)%nat ->
  (99 <= fuel)%nat ->
  exists token w',
    generate_token_id fuel w value category = Some (token, w')
    /\ get_value_from_token (self w') token = Some (_normalize_value value, category).
Proof.
  intros Hin Hsec Hwf Hcount Hfuel. simpl in Hin.
  repeat (destruct Hin as [<- | Hin];
          [try contradiction;
           eapply resolve_after_generate; eauto; reflexivity |]).
  contradiction.
Qed.

Lemma token_bijection_unambiguous_prefix_witness :
  exists token w',
    generate_token_id 99 (in_memory crowded_tasks [("task", 99)])
                      "Retrieve customer data!" "task" = Some (token, w')
    /\ get_value_from_token (self w') token
       = Some (_normalize_value "Retrieve customer data!", "task").
Proof.
  apply token_bijection_unambiguous_prefix.
  - simpl. tauto.
  - discriminate.
  - assert (Hids : ids_of crowded_tasks "task"
                   = map PyStr.format_02d (firstn 98 candidates))
      by (vm_compute; reflexivity).
    constructor;
      change (token_registry (self (in_memory crowded_tasks [("task", 99)])))
        with crowded_tasks; rewrite Hids.
    + assert (E : nodup string_dec (map PyStr.format_02d (firstn 98 candidates))
                  = map PyStr.format_02d (firstn 98 candidates))
        by (vm_compute; reflexivity).
      rewrite <- E. apply NoDup_nodup.
    + intros Hin. apply in_map_iff in Hin. destruct Hin as [n [Hn _]].
      now apply format_02d_nonempty in Hn.
    + intros token_id Hin _. apply in_map_iff in Hin. destruct Hin as [n [<- Hn]].
      rewrite int_format_02d.
      assert (A : forallb (fun n => n <? 99) (firstn 98 candidates) = true)
        by (vm_compute; reflexivity).
      rewrite forallb_forall in A. specialize (A _ Hn). apply N.ltb_lt in A.
      exact A.
  - vm_compute. lia.
  - lia.
Defined.

End TokenIDGeneratorFacts.

(* ================================================================== *)
(** * More about the token registry *)
(* ================================================================== *)

Module TokenRegistryProperties.
Import Dict DictFacts TokenIDGenerator TokenIDGeneratorFacts.
Local Open Scope N_scope.

(** ** Normalization *)

Lemma lower_char_clean c :
  PyStr.is_word (PyStr.lower_char c) = true ->
  PyStr.is_space (PyStr.lower_char c) = false ->
  clean (PyStr.lower_char c) = true.
Proof.
  destruct c as [[] [] [] [] [] [] [] []]; vm_compute; intros; congruence.
Qed.

Lemma clean_facts c :
  clean c = true ->
  PyStr.lower_char c = c /\ PyStr.is_word c = true /\ PyStr.is_space c = false.
Proof.
  destruct c as [[] [] [] [] [] [] [] []]; vm_compute; intros; try discriminate; auto.
Qed.

Lemma collapse_clean s : forall in_run,
  all_clean (PyStr.collapse_ws in_run
               (PyStr.filter (fun c => PyStr.is_word c || PyStr.is_space c) (PyStr.lower s)))
  = true.
Proof.
  induction s as [|c s IH]; intros in_run; [reflexivity|].
  cbn [PyStr.lower PyStr.filter].
  destruct (PyStr.is_word (PyStr.lower_char c)) eqn:W;
    destruct (PyStr.is_space (PyStr.lower_char c)) eqn:S;
    cbn [orb PyStr.collapse_ws]; rewrite ?S.
  - destruct in_run; cbn [all_clean]; rewrite ?IH; reflexivity.
  - cbn [all_clean]. rewrite lower_char_clean by assumption. apply IH.
  - destruct in_run; cbn [all_clean]; rewrite ?IH; reflexivity.
  - apply IH.
Qed.

Lemma normalize_clean value : all_clean (_normalize_value value) = true.
Proof.
  unfold _normalize_value. destruct value; [reflexivity|]. apply collapse_clean.
Qed.

Lemma clean_fixed s : all_clean s = true -> _normalize_value s = s.
Proof.
  intros H. unfold _normalize_value. destruct s as [|c0 s0]; [reflexivity|].
  revert H. generalize (String c0 s0). clear. intros s.
  induction s as [|c s IH]; intros H; [reflexivity|].
  simpl in H. apply andb_true_iff in H. destruct H as [Hc Hs].
  destruct (clean_facts _ Hc) as [Hl [Hw Hsp]].
  simpl. rewrite Hl, Hw. simpl. rewrite Hsp. f_equal. now apply IH.
Qed.


Lemma lower_char_idempotent c : PyStr.lower_char (PyStr.lower_char c) = PyStr.lower_char c.
Proof. destruct c as [[] [] [] [] [] [] [] []]; reflexivity. Qed.

Lemma lower_idempotent s : PyStr.lower (PyStr.lower s) = PyStr.lower s.
Proof.
  induction s as [|c s IH]; [reflexivity|].
  simpl. now rewrite lower_char_idempotent, IH.
Qed.

(** X1: [_normalize_value] is idempotent, and what it returns holds only
    lower-case letters, digits and underscores. *)
Theorem normalize_value_idempotent (value : string) :
  _normalize_value (_normalize_value value) = _normalize_value value
  /\ all_clean (_normalize_value value) = true.
Proof.
  split; [apply clean_fixed|]; apply normalize_clean.
Qed.

(** X2: [generate_token_id] treats a value like its normalized form and a
    category like its lower-case form: both calls return the same token
    and leave the same generator. *)
Theorem generate_token_id_normalized (fuel : nat) (w : world) (value category : string) :
  generate_token_id fuel w value category
  = generate_token_id fuel w (_normalize_value value) (PyStr.lower category).
Proof.
  unfold generate_token_id.
  now rewrite lower_idempotent, (clean_fixed _ (normalize_clean value)).
Qed.

(** X3: a call of [generate_token_id] that returned is repeated at no
    cost: the same value and category give the same token again and leave
    the generator as it is, whatever the loop bound. *)
Theorem generate_token_id_twice
        (fuel fuel' : nat) (w w' : world) (value category token : string) :
  generate_token_id fuel w value category = Some (token, w') ->
  generate_token_id fuel' w' value category = Some (token, w').
Proof.
  intros H. apply generate_token_id_inv in H.
  destruct H as [_ [_ [[-> [tid [Hl ->]]] | [_ [tid [-> [Hreg _]]]]]]].
  - now apply generate_token_id_existing.
  - apply generate_token_id_existing. rewrite Hreg. apply lookup_store_same.
Qed.

Lemma generate_token_id_twice_witness :
  exists token w',
    generate_token_id 99 (on_disk "registry/tokens.json") "Execute task" "task"
    = Some (token, w')
    /\ generate_token_id 0 w' "Execute task" "task" = Some (token, w').
Proof.
  eexists. eexists. split; [vm_compute; reflexivity|].
  apply (@generate_token_id_twice 99 0 (on_disk "registry/tokens.json")).
  vm_compute. reflexivity.
Defined.


(** ** No two values share an identifier *)

Lemma NoDup_values_injective {V} (d : dict V) k1 k2 v1 v2 :
  NoDup (values d) -> get d k1 = Some v1 -> get d k2 = Some v2 ->
  k1 <> k2 -> v1 <> v2.
Proof.
  induction d as [|[k v] r IH]; simpl; [discriminate|].
  intros Hnd H1 H2 Hne. inversion Hnd as [|? ? Hnotin Hnd']; subst.
  destruct (String.eqb k k1) eqn:E1; destruct (String.eqb k k2) eqn:E2.
  - apply String.eqb_eq in E1, E2. congruence.
  - injection H1 as ->. intros <-. apply Hnotin.
    apply get_In in H2. unfold values. apply in_map_iff. now exists (k2, v1).
  - injection H2 as ->. intros ->. apply Hnotin.
    apply get_In in H1. unfold values. apply in_map_iff. now exists (k1, v2).
  - now apply IH.
Qed.

Lemma lookup_injective r category v1 v2 t1 t2 :
  NoDup (ids_of r category) ->
  lookup r category v1 = Some t1 -> lookup r category v2 = Some t2 ->
  v1 <> v2 -> t1 <> t2.
Proof.
  unfold ids_of, lookup. destruct (get r category) as [d|]; [|discriminate].
  apply NoDup_values_injective.
Qed.

(** What a returning call leaves in the registry. *)
Lemma generate_token_id_registered fuel w value category token w' :
  generate_token_id fuel w value category = Some (token, w') ->
  exists token_id,
    token = get_default category_prefixes (PyStr.lower category) "D" ++ token_id
    /\ lookup (token_registry (self w')) (PyStr.lower category) (_normalize_value value)
       = Some token_id
    /\ forall category' value' token_id',
        lookup (token_registry (self w)) category' value' = Some token_id' ->
        lookup (token_registry (self w')) category' value' = Some token_id'.
Proof.
  intros H. apply generate_token_id_inv in H.
  destruct H as [_ [_ [[-> [tid [Hl ->]]] | [Hnone [tid [-> [Hreg _]]]]]]].
  - exists tid. auto.
  - exists tid. split; [reflexivity|]. split.
    + rewrite Hreg. apply lookup_store_same.
    + intros c' v' t' Hl. rewrite Hreg. rewrite lookup_store_other; [assumption|].
      intros [= -> ->]. congruence.
Qed.

Lemma append_injective (p a b : string) : p ++ a = p ++ b -> a = b.
Proof. induction p as [|c p IH]; simpl; [auto|]. intros [= H]. auto. Qed.

(** X4: on a registry built from an empty one by calls of
    [generate_token_id], two values of one category whose normalized forms
    differ never receive the same token. *)
Theorem generate_token_id_distinct_values
        (fuel1 fuel2 : nat) (w0 w w1 w2 : world)
        (value1 value2 category token1 token2 : string) :
  registry_empty (token_registry (self w0)) ->
  calls w0 w ->
  _normalize_value value1 <> _normalize_value value2 ->
  generate_token_id fuel1 w value1 category = Some (token1, w1) ->
  generate_token_id fuel2 w1 value2 category = Some (token2, w2) ->
  token1 <> token2.
Proof.
  intros Hempty Hcalls Hne H1 H2.
  assert (Hwf : well_formed w2 (PyStr.lower category)).
  { eapply well_formed_generate; [|exact H2].
    eapply well_formed_generate; [|exact H1].
    eapply well_formed_calls; [|exact Hcalls]. now apply well_formed_empty. }
  destruct (generate_token_id_registered _ _ _ _ H1) as [t1 [-> [Hl1 _]]].
  destruct (generate_token_id_registered _ _ _ _ H2) as [t2 [-> [Hl2 Hkeep]]].
  apply Hkeep in Hl1.
  intros Heq. apply append_injective in Heq.
  destruct Hwf as [Hnd _ _].
  exact (@lookup_injective _ _ _ _ _ _ Hnd Hl1 Hl2 Hne Heq).
Qed.


Lemma generate_token_id_distinct_values_witness :
  exists token1 token2 w1 w2,
    generate_token_id 99 (in_memory empty_registry initial_counters)
                      "Execute task" "task" = Some (token1, w1)
    /\ generate_token_id 99 w1 "Cancel task" "task" = Some (token2, w2)
    /\ token1 <> token2.
Proof.
  eexists. eexists. eexists. eexists.
  split; [vm_compute; reflexivity|]. split; [vm_compute; reflexivity|].
  eapply (@generate_token_id_distinct_values
            99 99 (in_memory empty_registry initial_counters)
            (in_memory empty_registry initial_counters) _ _
            "Execute task" "Cancel task" "task").
  - apply registry_empty_forallb. reflexivity.
  - constructor.
  - vm_compute. discriminate.
  - vm_compute. reflexivity.
  - vm_compute. reflexivity.
Defined.

(** X5: [generate_token_id] keeps the invariant of every category: its
    identifiers stay non-empty and pairwise distinct and its counter stays
    above every numeric identifier in use. *)
Theorem generate_token_id_keeps_well_formed
        (fuel : nat) (w w' : world) (value category token c : string) :
  well_formed w c ->
  generate_token_id fuel w value category = Some (token, w') ->
  well_formed w' c.
Proof. intros Hwf H. eapply well_formed_generate; eassumption. Qed.

Lemma generate_token_id_keeps_well_formed_witness :
  exists token w',
    generate_token_id 99 (in_memory empty_registry initial_counters)
                      "Execute task" "task" = Some (token, w')
    /\ well_formed w' "task".
Proof.
  eexists. eexists. split; [vm_compute; reflexivity|].
  eapply (@generate_token_id_keeps_well_formed
            99 (in_memory empty_registry initial_counters) _ "Execute task" "task").
  - apply well_formed_empty. apply registry_empty_forallb. reflexivity.
  - vm_compute. reflexivity.
Defined.

(** ** Resolving *)

(** X6: a token that [get_value_from_token] resolves is a known prefix and
    a non-empty identifier, the value found is registered with that
    identifier under the category returned, and that category is never
    security: its prefix S leads to system. *)
Theorem get_value_from_token_sound (g : generator) (token value category : string) :
  get_value_from_token g token = Some (value, category) ->
  category <> "security"
  /\ exists p token_id d,
      token = String p token_id
      /\ token_id <> ""
      /\ get category_prefixes category = Some (String p "")
      /\ get (token_registry g) category = Some d
      /\ In (value, token_id) d.
Proof.
  unfold get_value_from_token. destruct token as [|p token_id]; [discriminate|].
  destruct token_id as [|c rest]; [discriminate|].
  change (String.length (String p (String c rest)) <? 2)%nat with false.
  cbv iota.
  destruct (find _ category_prefixes) as [[cat pre]|] eqn:F; [|discriminate].
  destruct (get (token_registry g) cat) as [d|] eqn:G; [|discriminate].
  destruct (find _ d) as [[v tid]|] eqn:Fd; [|discriminate].
  intros [= <- <-].
  apply find_some in Fd. destruct Fd as [Hin Heq]. apply String.eqb_eq in Heq.
  simpl in Heq. subst tid.
  assert (Hcat : cat <> "security" /\ get category_prefixes cat = Some (String p "")).
  { clear - F. unfold category_prefixes in *. cbn [find snd] in F.
    repeat match type of F with
           | (if ?b then _ else _) = _ =>
               destruct b eqn:?; [injection F as <- <- | ]
           end; try discriminate;
      match goal with
      | H : String.eqb _ _ = true |- _ => apply String.eqb_eq in H; rewrite <- H
      end; (split; [discriminate | reflexivity]). }
  destruct Hcat as [Hsec Hget]. split; [assumption|].
  exists p, (String c rest), d. repeat split; try assumption. discriminate.
Qed.


Lemma get_value_from_token_sound_witness :
  "task" <> "security"
  /\ exists p token_id d,
      "T12" = String p token_id
      /\ token_id <> ""
      /\ get category_prefixes "task" = Some (String p "")
      /\ get (token_registry
                (self (in_memory [("task", [("execute_task", "12")])] initial_counters)))
             "task" = Some d
      /\ In ("execute_task", token_id) d.
Proof.
  apply (@get_value_from_token_sound
           (self (in_memory [("task", [("execute_task", "12")])] initial_counters))
           "T12" "execute_task" "task").
  reflexivity.
Defined.

(** ** Construction *)

(** X7: the constructor raises exactly when no registry file is read:
    the path is unset or empty, or there is nothing to load. *)
Theorem init_fails_iff (path : option string) (w : world) :
  init path w = None <-> path_set path = false \/ store w = None.
Proof.
  split; [|apply init_without_store].
  unfold init, _load_token_registry.
  destruct (path_set path); [|auto].
  destruct (store w); [discriminate | auto].
Qed.

Lemma max_numeric_id_ge_acc ids : forall acc,
  acc <= fold_left (fun max_id token_id =>
                      if PyStr.isdigit token_id then N.max max_id (PyStr.int token_id)
                      else max_id) ids acc.
Proof.
  induction ids as [|x ids IH]; intros acc; simpl; [lia|].
  destruct (PyStr.isdigit x).
  - specialize (IH (N.max acc (PyStr.int x))). lia.
  - apply IH.
Qed.

Lemma max_numeric_id_bound ids token_id : forall acc,
  In token_id ids -> PyStr.isdigit token_id = true ->
  PyStr.int token_id
  <= fold_left (fun max_id token_id =>
                  if PyStr.isdigit token_id then N.max max_id (PyStr.int token_id)
                  else max_id) ids acc.
Proof.
  induction ids as [|x ids IH]; intros acc Hin Hd; [destruct Hin|].
  simpl. destruct Hin as [->|Hin].
  - rewrite Hd.
    pose proof (max_numeric_id_ge_acc ids (N.max acc (PyStr.int token_id))). lia.
  - now apply IH.
Qed.

Lemma initialize_counters_other r c : forall cs,
  ~ In c (keys r) ->
  get (_initialize_category_counters r cs) c = get cs c.
Proof.
  unfold _initialize_category_counters.
  induction r as [|[k v] r IH]; intros cs Hnotin; [reflexivity|].
  simpl in *. rewrite IH by tauto.
  destruct (mem cs k); [|reflexivity].
  apply get_set_other. tauto.
Qed.

Lemma initialize_counters_loaded r c d : forall cs,
  NoDup (keys r) -> get r c = Some d -> mem cs c = true ->
  get (_initialize_category_counters r cs) c = Some (max_numeric_id d + 1).
Proof.
  induction r as [|[k v] r IH]; intros cs Hnd Hget Hmem; [discriminate|].
  simpl in Hnd, Hget. inversion Hnd as [|? ? Hnotin Hnd']; subst.
  change (_initialize_category_counters ((k, v) :: r) cs)
    with (_initialize_category_counters
            r (if mem cs k then set cs k (max_numeric_id v + 1) else cs)).
  destruct (String.eqb k c) eqn:E.
  - apply String.eqb_eq in E. subst k. injection Hget as ->.
    rewrite initialize_counters_other by assumption.
    rewrite Hmem. apply get_set_same.
  - apply IH; [assumption | assumption |].
    destruct (mem cs k); [|assumption].
    unfold mem in *. rewrite get_set_other; [assumption|].
    intros ->. rewrite String.eqb_refl in E. discriminate.
Qed.

(** X8: loading a registry file (a JSON object, so its keys are distinct)
    gives a generator with that registry and that path in which the counter
    of every known category lies above the numeric identifiers the file
    holds for it. *)
Theorem init_loads_registry (path : option string) (w : world) (r : registry) :
  path_set path = true -> store w = Some r -> NoDup (keys r) ->
  exists w',
    init path w = Some w'
    /\ token_registry (self w') = r
    /\ token_registry_path (self w') = path
    /\ forall category token_id,
        In category (keys category_prefixes) ->
        In token_id (ids_of r category) ->
        PyStr.isdigit token_id = true ->
        PyStr.int token_id < get_default (category_counters (self w')) category 1.
Proof.
  intros Hpath Hstore Hnd. unfold init, _load_token_registry.
  rewrite Hpath, Hstore. eexists. split; [reflexivity|].
  split; [reflexivity|]. split; [reflexivity|].
  intros category token_id Hcat Hin Hdigit. simpl.
  unfold ids_of in Hin. destruct (get r category) as [d|] eqn:G; [|destruct Hin].
  assert (Hmem : mem initial_counters category = true).
  { simpl in Hcat.
    repeat (destruct Hcat as [<- | Hcat]; [reflexivity|]). destruct Hcat. }
  unfold get_default. rewrite (@initialize_counters_loaded _ _ _ _ Hnd G Hmem).
  pose proof (@max_numeric_id_bound _ _ 0 Hin Hdigit) as Hb.
  unfold max_numeric_id. lia.
Qed.

Lemma init_loads_registry_witness :
  exists w',
    init (Some "registry/tokens.json")
         {| self := self (in_memory [] []);
            store := Some [("task", [("execute_task", "12"); ("cancel_task", "40")])];
            store_writable := true; uuid4 := fun _ => 0; uuid_drawn := 0 |}
    = Some w'
    /\ token_registry (self w') = [("task", [("execute_task", "12"); ("cancel_task", "40")])]
    /\ token_registry_path (self w') = Some "registry/tokens.json"
    /\ forall category token_id,
        In category (keys category_prefixes) ->
        In token_id (ids_of [("task", [("execute_task", "12"); ("cancel_task", "40")])]
                            category) ->
        PyStr.isdigit token_id = true ->
        PyStr.int token_id < get_default (category_counters (self w')) category 1.
Proof.
  apply init_loads_registry.
  - reflexivity.
  - reflexivity.
  - unfold keys. simpl. repeat constructor. intros [].
Defined.

(** ** Termination of the collision loop *)

Lemma all_taken_or_free r category :
  (forall n, 1 <= n <= 99 -> id_taken r category (PyStr.format_02d n) = true)
  \/ exists n, 1 <= n <= 99 /\ id_taken r category (PyStr.format_02d n) = false.
Proof.
  destruct (find (fun n => negb (id_taken r category (PyStr.format_02d n))) candidates)
    as [n|] eqn:F.
  - right. apply find_some in F. destruct F as [Hin Hfree].
    exists n. split; [now apply candidates_spec | now apply negb_true_iff].
  - left. intros n Hn. apply candidates_spec in Hn.
    pose proof (find_none _ _ F n Hn) as H. now apply negb_false_iff in H.
Qed.

(** X9: for a value not registered yet whose normalized form is not
    empty, [generate_token_id] returns (99 iterations are enough) exactly
    when one of the identifiers 01..99 of the category is unused, and it
    never returns exactly when all of them are in use. *)
Theorem generate_token_id_returns_iff (w : world) (value category : string) :
  lookup (token_registry (self w)) (PyStr.lower category) (_normalize_value value) = None ->
  _normalize_value value <> "" ->
  ((exists n, 1 <= n <= 99
              /\ id_taken (token_registry (self w)) (PyStr.lower category)
                          (PyStr.format_02d n) = false)
   <-> exists token w', generate_token_id 99 w value category = Some (token, w'))
  /\ ((forall n, 1 <= n <= 99 ->
                 id_taken (token_registry (self w)) (PyStr.lower category)
                          (PyStr.format_02d n) = true)
      <-> forall fuel, generate_token_id fuel w value category = None).
Proof.
  intros Hnone Hne.
  assert (Hfree : (exists n, 1 <= n <= 99
                     /\ id_taken (token_registry (self w)) (PyStr.lower category)
                                 (PyStr.format_02d n) = false)
                  -> exists token w', generate_token_id 99 w value category
                                      = Some (token, w')).
  { intros [n [Hn Hfree]]. unfold generate_token_id. rewrite Hnone.
    unfold _generate_new_token_id.
    destruct (_normalize_value value) as [|c nv]; [contradiction|].
    set (first := (Sha256.seed (String c nv)
                   + get_default (category_counters (self w)) (PyStr.lower category) 1)
                  mod 99 + 1).
    assert (Hfirst : 1 <= first <= 99) by apply first_in_range.
    destruct (@probe_reaches_free n first (PyStr.lower category) Hn Hfirst
                (N.to_nat (steps_to n first)) 99%nat w first Hfree Hfirst)
      as [t [Hp _]].
    + now rewrite N2Nat.id.
    + lia.
    + unfold steps_to. destruct (N.leb_spec first n); lia.
    + rewrite Hp. eauto. }
  assert (Hall : (forall n, 1 <= n <= 99 ->
                     id_taken (token_registry (self w)) (PyStr.lower category)
                              (PyStr.format_02d n) = true)
                 -> forall fuel, generate_token_id fuel w value category = None).
  { intros Hall fuel. now apply generate_token_id_saturated. }
  split; split; try assumption.
  - intros [token [w' Hg]].
    destruct (all_taken_or_free (token_registry (self w)) (PyStr.lower category))
      as [Ht | Hf]; [|assumption].
    rewrite (Hall Ht) in Hg. discriminate.
  - intros Hnever.
    destruct (all_taken_or_free (token_registry (self w)) (PyStr.lower category))
      as [Ht | Hf]; [assumption|].
    destruct (Hfree Hf) as [token [w' Hg]]. rewrite Hnever in Hg. discriminate.
Qed.

Lemma generate_token_id_returns_iff_witness :
  ((exists n, 1 <= n <= 99
              /\ id_taken (token_registry (self (in_memory crowded_tasks initial_counters)))
                          (PyStr.lower "Task") (PyStr.format_02d n) = false)
   <-> exists token w', generate_token_id 99 (in_memory crowded_tasks initial_counters)
                                          "One more task" "Task" = Some (token, w'))
  /\ ((forall n, 1 <= n <= 99 ->
                 id_taken (token_registry (self (in_memory crowded_tasks initial_counters)))
                          (PyStr.lower "Task") (PyStr.format_02d n) = true)
      <-> forall fuel, generate_token_id fuel (in_memory crowded_tasks initial_counters)
                                         "One more task" "Task" = None).
Proof.
  apply generate_token_id_returns_iff.
  - vm_compute. reflexivity.
  - vm_compute. discriminate.
Defined.


(** ** Registration by hand *)

Lemma register_token_registry w value category token_id :
  token_registry (self (snd (register_token w value category token_id)))
  = store_token (token_registry (self w)) (PyStr.lower category)
                (_normalize_value value) (bare_identifier token_id).
Proof. unfold register_token. cbn [snd]. now rewrite save_self. Qed.

(** X10: after [register_token(value, category, token_id)],
    [generate_token_id(value, category)] returns the category prefix
    followed by the registered identifier, from which a leading prefix
    letter was dropped, and changes nothing. *)
Theorem register_token_then_generate
        (fuel : nat) (w : world) (value category token_id : string) :
  generate_token_id fuel (snd (register_token w value category token_id)) value category
  = Some (get_default category_prefixes (PyStr.lower category) "D"
            ++ bare_identifier token_id,
          snd (register_token w value category token_id)).
Proof.
  apply generate_token_id_existing.
  rewrite register_token_registry. apply lookup_store_same.
Qed.

Lemma find_set_unique (d : dict string) value token_id :
  (forall v t, In (v, t) d -> v <> value -> t <> token_id) ->
  find (fun vt => String.eqb (snd vt) token_id) (set d value token_id)
  = Some (value, token_id).
Proof.
  induction d as [|[k x] r IH]; intros H; simpl.
  - now rewrite String.eqb_refl.
  - destruct (String.eqb k value) eqn:E.
    + apply String.eqb_eq in E. subst k. simpl. now rewrite String.eqb_refl.
    + simpl. destruct (String.eqb x token_id) eqn:E'.
      * apply String.eqb_eq in E'. exfalso. apply (H k x); [now left | | assumption].
        intros ->. rewrite String.eqb_refl in E. discriminate.
      * apply IH. intros v t Hin. apply H. now right.
Qed.

(** X11: a token registered by hand resolves to its value and category
    when the category's prefix leads back to it, the identifier kept is not
    empty and no other value of the category holds it. *)
Theorem register_token_then_resolve
        (w : world) (value category token_id : string) (p : ascii) :
  find (fun cp => String.eqb (snd cp) (String p "")) category_prefixes
  = Some (category, String p "") ->
  bare_identifier token_id <> "" ->
  (forall d v t,
      get (token_registry (self w)) category = Some d ->
      In (v, t) d -> v <> _normalize_value value -> t <> bare_identifier token_id) ->
  get_value_from_token (self (snd (register_token w value category token_id)))
                       (String p (bare_identifier token_id))
  = Some (_normalize_value value, category).
Proof.
  intros Hprefix Hne Hunique.
  assert (Hlower : PyStr.lower category = category).
  { clear - Hprefix. unfold category_prefixes in Hprefix. cbn [find snd] in Hprefix.
    repeat match type of Hprefix with
           | (if ?b then _ else _) = _ =>
               destruct b; [injection Hprefix as <- _; reflexivity | ]
           end. discriminate. }
  eapply resolve_token.
  - exact Hne.
  - exact Hprefix.
  - rewrite register_token_registry, Hlower. apply get_store_token.
  - apply find_set_unique. intros v t Hin. unfold get_default in Hin.
    destruct (get (token_registry (self w)) category) as [d|] eqn:G; [|destruct Hin].
    now apply (Hunique d).
Qed.

Lemma register_token_then_resolve_witness :
  get_value_from_token
    (self (snd (register_token
                  (in_memory [("task", [("execute_task", "12")])] initial_counters)
                  "Cancel task" "task" "T40")))
    (String "T" (bare_identifier "T40"))
  = Some (_normalize_value "Cancel task", "task").
Proof.
  apply register_token_then_resolve.
  - reflexivity.
  - discriminate.
  - intros d v t Hd Hin Hv. injection Hd as <-.
    destruct Hin as [[= <- <-] | []]. discriminate.
Defined.

End TokenRegistryProperties.

(* ================================================================== *)
(** * The context manager *)
(* ================================================================== *)

Module ContextManagerFacts.
Import Dict DictFacts ContextManager.

(** ** The scan order of [resolve_in_context] *)

(** The loop returns at the first context, counted from the bottom of the
    stack, that has a modifier for the token's category. *)
Lemma scan_contexts_first_wins c ctx_def modifiers modifier rest tok token_def :
  get_default c "definition" (VDict []) = VDict ctx_def ->
  get ctx_def "tokenModifiers" = Some (VDict modifiers) ->
  get_opt modifiers (categoryCode tok) = Some modifier ->
  scan_contexts (VDict c :: rest) tok token_def
  = _apply_context_modifier token_def modifier.
Proof. intros H1 H2 H3. simpl. now rewrite H1, H2, H3. Qed.

(** Whatever contexts are activated later, a token without context
    behaviours is resolved by the modifier of the first context of the
    stack (the outermost) that has one for its category. *)
Lemma resolve_in_context_bottom_wins c ctx_def modifiers modifier inner tok
      (dictionary : dict (dict value)) :
  get_default c "definition" (VDict []) = VDict ctx_def ->
  get ctx_def "tokenModifiers" = Some (VDict modifiers) ->
  get_opt modifiers (categoryCode tok) = Some modifier ->
  (forall v, token_value tok = Some v ->
             get (get_default dictionary v []) "contextBehaviors" = None) ->
  forall top,
    get_current_context (VDict c :: inner) = Some (VDict top) ->
    top <> [] ->
    resolve_in_context (VDict c :: inner) tok dictionary
    = _apply_context_modifier
        (match token_value tok with
         | Some v => get_default dictionary v []
         | None => []
         end) modifier.
Proof.
  intros Hdef Hmods Hmod Hbeh top Htop Hne. unfold resolve_in_context.
  cbv zeta. rewrite Htop.
  assert (Ht : truthy (VDict top) = true) by (destruct top; [contradiction | reflexivity]).
  rewrite Ht. cbn [negb].
  destruct (token_value tok) as [v|].
  - rewrite (Hbeh v eq_refl). exact (scan_contexts_first_wins _ _ _ _ Hdef Hmods Hmod).
  - cbn [get]. exact (scan_contexts_first_wins _ _ _ _ Hdef Hmods Hmod).
Qed.

(** C3: with two active contexts that both override task tokens, the
    context activated first (the outermost, at the bottom of the stack)
    decides; the innermost one is not applied. *)
Theorem resolve_in_context_outermost_applies :
  resolve_in_context
    (activate_context (activate_context [] (overriding "C1" "OUTER"))
                      (overriding "C2" "INNER"))
    {| token_value := Some "T12"; categoryCode := Some "T" |}
    [("T12", [("command", VStr "EXECUTE_TASK")])]
  = Some (VStr "OUTER").
Proof. reflexivity. Qed.

(** ** The extend modifier *)

Lemma extend_item_merged modified_def prop_key prop_value :
  extend_item modified_def prop_key prop_value
  = set modified_def prop_key (merged (get modified_def prop_key) prop_value).
Proof.
  unfold extend_item, merged.
  destruct (get modified_def prop_key) as [[| | | | l | d]|]; try reflexivity;
    destruct prop_value; reflexivity.
Qed.

Lemma extend_items_cons modified_def k v items :
  extend_items modified_def ((k, v) :: items)
  = extend_items (extend_item modified_def k v) items.
Proof. reflexivity. Qed.

Lemma get_extend_items_other items : forall modified_def k,
  ~ In k (keys items) ->
  get (extend_items modified_def items) k = get modified_def k.
Proof.
  induction items as [|[k0 v0] rest IH]; intros modified_def k Hnotin; [reflexivity|].
  rewrite extend_items_cons. simpl in Hnotin.
  rewrite IH by tauto. rewrite extend_item_merged.
  apply get_set_other. tauto.
Qed.

Lemma get_extend_items items : forall modified_def k v,
  NoDup (keys items) -> get items k = Some v ->
  get (extend_items modified_def items) k = Some (merged (get modified_def k) v).
Proof.
  induction items as [|[k0 v0] rest IH]; intros modified_def k v Hnd Hget; [discriminate|].
  rewrite extend_items_cons. simpl in Hnd, Hget. inversion Hnd as [|? ? Hnotin Hnd']; subst.
  destruct (String.eqb k0 k) eqn:E.
  - apply String.eqb_eq in E. subst k0. injection Hget as ->.
    rewrite get_extend_items_other by assumption.
    rewrite extend_item_merged. apply get_set_same.
  - rewrite (IH _ _ _ Hnd' Hget). rewrite extend_item_merged.
    rewrite get_set_other; [reflexivity|].
    intros ->. rewrite String.eqb_refl in E. discriminate.
Qed.

Lemma get_None_notin {V} (d : dict V) k : get d k = None -> ~ In k (keys d).
Proof.
  induction d as [|[k0 v0] rest IH]; simpl; [tauto|].
  destruct (String.eqb k0 k) eqn:E; [discriminate|].
  intros H [Heq|Hin]; [|now apply IH].
  subst. rewrite String.eqb_refl in E. discriminate.
Qed.

(** [dict.update]: the entries of the argument win. *)
Lemma get_update e : forall d k,
  NoDup (keys e) ->
  get (update d e) k = match get e k with Some v => Some v | None => get d k end.
Proof.
  unfold update.
  induction e as [|[k0 v0] rest IH]; intros d k Hnd; [reflexivity|].
  simpl in *. inversion Hnd as [|? ? Hnotin Hnd']; subst.
  rewrite IH by assumption.
  destruct (String.eqb k0 k) eqn:E.
  - apply String.eqb_eq in E. subst k0.
    destruct (get rest k) eqn:G.
    + exfalso. apply Hnotin. apply get_In in G. unfold keys. apply in_map_iff.
      now exists (k, v).
    + apply get_set_same.
  - destruct (get rest k); [reflexivity|].
    apply get_set_other. intros ->. rewrite String.eqb_refl in E. discriminate.
Qed.

(** C7, as the claim states it, fails: a key present in the base
    definition and in the extension ends with the extension's value. *)
Lemma extend_prefers_extension_counterexample :
  exists result,
    _apply_context_modifier [("priority", VStr "low"); ("command", VStr "EXECUTE_TASK")]
                            (VDict [("extend", VDict [("priority", VStr "high")])])
    = Some (VDict result)
    /\ get result "priority" = Some (VStr "high")
    /\ get result "priority"
       <> get [("priority", VStr "low"); ("command", VStr "EXECUTE_TASK")] "priority".
Proof.
  eexists. split; [reflexivity|]. split; [reflexivity | discriminate].
Qed.

(** C7 (amended): applying a modifier of kind extend returns the base
    definition in which every key of the extension holds the merge of both
    values: a dictionary updated with the extension's dictionary (whose
    entries win), a list followed by the extension's list, and in every
    other case, also when the key is new, the extension's value; keys the
    extension does not name keep the base definition's value. *)
Theorem extend_modifier_merges (token_def ext : dict value) :
  NoDup (keys ext) ->
  exists result,
    _apply_context_modifier token_def (VDict [("extend", VDict ext)]) = Some (VDict result)
    /\ forall k,
        get result k
        = match get ext k with
          | Some v =>
              Some match get token_def k, v with
                   | Some (VDict d), VDict e => VDict (update d e)
                   | Some (VList l), VList e => VList (l ++ e)
                   | _, _ => v
                   end
          | None => get token_def k
          end.
Proof.
  intros Hnd. exists (extend_items token_def ext). split; [reflexivity|].
  intros k. destruct (get ext k) as [v|] eqn:G.
  - erewrite get_extend_items by eassumption. unfold merged. reflexivity.
  - apply get_extend_items_other. now apply get_None_notin.
Qed.

Lemma extend_modifier_merges_witness :
  exists result,
    _apply_context_modifier
      [("parameters", VDict [("format", VStr "pdf"); ("copies", VInt 1)]);
       ("steps", VList [VStr "collect"]);
       ("priority", VStr "low")]
      (VDict [("extend",
               VDict [("parameters", VDict [("copies", VInt 2); ("duplex", VBool true)]);
                      ("steps", VList [VStr "audit"]);
                      ("priority", VStr "high");
                      ("owner", VStr "finance")])])
    = Some (VDict result)
    /\ forall k,
        get result k
        = match get [("parameters", VDict [("copies", VInt 2); ("duplex", VBool true)]);
                     ("steps", VList [VStr "audit"]);
                     ("priority", VStr "high");
                     ("owner", VStr "finance")] k with
          | Some v =>
              Some match get [("parameters", VDict [("format", VStr "pdf"); ("copies", VInt 1)]);
                              ("steps", VList [VStr "collect"]);
                              ("priority", VStr "low")] k, v with
                   | Some (VDict d), VDict e => VDict (update d e)
                   | Some (VList l), VList e => VList (l ++ e)
                   | _, _ => v
                   end
          | None => get [("parameters", VDict [("format", VStr "pdf"); ("copies", VInt 1)]);
                         ("steps", VList [VStr "collect"]);
                         ("priority", VStr "low")] k
          end.
Proof.
  apply extend_modifier_merges.
  unfold keys. simpl.
  repeat (constructor; [simpl; intuition discriminate|]). constructor.
Defined.

End ContextManagerFacts.

(* ================================================================== *)
(** * More about the context manager *)
(* ================================================================== *)

Module ContextManagerProperties.
Import Dict DictFacts ContextManager ContextManagerFacts.

(** A context pushed by [activate_context] is the current context, and
    [deactivate_context] gives it back and restores the stack; on an
    empty stack [deactivate_context] returns [None] and changes nothing. *)
Lemma activate_then_deactivate (stack : context_stack) (context : value) :
  get_current_context (activate_context stack context) = Some context
  /\ deactivate_context (activate_context stack context) = (Some context, stack)
  /\ deactivate_context [] = (None, []).
Proof.
  unfold get_current_context, deactivate_context, activate_context.
  rewrite rev_app_distr. simpl. rewrite rev_involutive. auto.
Qed.

(** ** Modifiers *)

(** X12: a modifier with an override returns the override, whatever
    extend and modify entries it holds besides (each with a dictionary, on
    which the loops cannot fail). *)
Theorem override_modifier_wins (token_def : dict value) (modifier : dict value)
        (replacement : value) :
  get modifier "override" = Some replacement ->
  (forall k v, In (k, v) modifier -> k = "extend" \/ k = "modify" -> exists e, v = VDict e) ->
  _apply_context_modifier token_def (VDict modifier) = Some replacement.
Proof.
  unfold _apply_context_modifier. revert token_def.
  induction modifier as [|[k v] rest IH]; intros token_def Hget Hshape; [discriminate|].
  simpl in Hget. simpl.
  destruct (String.eqb k "override") eqn:E.
  - congruence.
  - assert (Hrest : forall k' v', In (k', v') rest -> k' = "extend" \/ k' = "modify" ->
                                  exists e, v' = VDict e).
    { intros k' v' Hin. apply Hshape. now right. }
    destruct (String.eqb k "extend") eqn:E1.
    + apply String.eqb_eq in E1. destruct (Hshape k v (or_introl eq_refl) (or_introl E1)) as [e ->].
      now apply IH.
    + destruct (String.eqb k "modify") eqn:E2.
      * apply String.eqb_eq in E2.
        destruct (Hshape k v (or_introl eq_refl) (or_intror E2)) as [e ->].
        now apply IH.
      * now apply IH.
Qed.

Lemma override_modifier_wins_witness :
  _apply_context_modifier
    [("command", VStr "EXECUTE_TASK")]
    (VDict [("extend", VDict [("priority", VStr "high")]);
            ("override", VDict [("command", VStr "AUDIT")]);
            ("modify", VDict [("command", VStr "SKIP")])])
  = Some (VDict [("command", VStr "AUDIT")]).
Proof.
  apply override_modifier_wins.
  - reflexivity.
  - intros k v [[= <- <-] | [[= <- <-] | [[= <- <-] | []]]] [E | E];
      try discriminate; eauto.
Defined.


Lemma modify_items_cons modified_def k v items :
  modify_items modified_def ((k, v) :: items)
  = modify_items (if mem modified_def k then set modified_def k v else modified_def) items.
Proof. reflexivity. Qed.

Lemma mem_set {V} (d : dict V) k k' v : mem d k' = true -> mem (set d k' v) k = mem d k.
Proof.
  unfold mem. intros H. destruct (string_dec k' k) as [->|Hne].
  - rewrite get_set_same. destruct (get d k); [reflexivity | discriminate].
  - now rewrite get_set_other.
Qed.

Lemma keys_set_present {V} (d : dict V) k v : mem d k = true -> keys (set d k v) = keys d.
Proof.
  unfold mem, keys. induction d as [|[k0 v0] r IH]; simpl; [discriminate|].
  destruct (String.eqb k0 k) eqn:E.
  - apply String.eqb_eq in E. now subst.
  - intros H. simpl. f_equal. now apply IH.
Qed.

Lemma modify_items_keys items : forall modified_def,
  keys (modify_items modified_def items) = keys modified_def.
Proof.
  induction items as [|[k v] rest IH]; intros modified_def; [reflexivity|].
  rewrite modify_items_cons, IH.
  destruct (mem modified_def k) eqn:M; [now apply keys_set_present | reflexivity].
Qed.

Lemma modify_items_other items : forall modified_def k,
  ~ In k (keys items) ->
  get (modify_items modified_def items) k = get modified_def k.
Proof.
  induction items as [|[k0 v0] rest IH]; intros modified_def k Hnotin; [reflexivity|].
  rewrite modify_items_cons. simpl in Hnotin. rewrite IH by tauto.
  destruct (mem modified_def k0); [|reflexivity].
  apply get_set_other. tauto.
Qed.

Lemma modify_items_get items : forall modified_def k v,
  NoDup (keys items) -> get items k = Some v ->
  get (modify_items modified_def items) k
  = if mem modified_def k then Some v else None.
Proof.
  induction items as [|[k0 v0] rest IH]; intros modified_def k v Hnd Hget; [discriminate|].
  rewrite modify_items_cons. simpl in Hnd, Hget. inversion Hnd as [|? ? Hnotin Hnd']; subst.
  destruct (String.eqb k0 k) eqn:E.
  - apply String.eqb_eq in E. subst k0. injection Hget as ->.
    rewrite modify_items_other by assumption.
    destruct (mem modified_def k) eqn:M.
    + apply get_set_same.
    + unfold mem in M. destruct (get modified_def k); [discriminate | reflexivity].
  - rewrite (IH _ _ _ Hnd' Hget).
    destruct (mem modified_def k0) eqn:M0; [|reflexivity].
    rewrite mem_set by assumption. reflexivity.
Qed.

(** X13: a modifier of kind modify replaces the value of every key the
    definition has and the modifier names, adds no key and keeps the
    order of the keys. *)
Theorem modify_modifier_replaces (token_def changes : dict value) :
  NoDup (keys changes) ->
  exists result,
    _apply_context_modifier token_def (VDict [("modify", VDict changes)])
    = Some (VDict result)
    /\ keys result = keys token_def
    /\ forall k,
        get result k
        = match get token_def k, get changes k with
          | Some _, Some v => Some v
          | existing, _ => existing
          end.
Proof.
  intros Hnd. exists (modify_items token_def changes). split; [reflexivity|].
  split; [apply modify_items_keys|]. intros k.
  destruct (get changes k) as [v|] eqn:G.
  - rewrite (@modify_items_get _ token_def _ _ Hnd G). unfold mem.
    destruct (get token_def k); reflexivity.
  - rewrite modify_items_other by (now apply get_None_notin).
    destruct (get token_def k); reflexivity.
Qed.

Lemma modify_modifier_replaces_witness :
  exists result,
    _apply_context_modifier
      [("command", VStr "EXECUTE_TASK"); ("priority", VStr "low")]
      (VDict [("modify", VDict [("priority", VStr "high"); ("owner", VStr "finance")])])
    = Some (VDict result)
    /\ keys result = keys [("command", VStr "EXECUTE_TASK"); ("priority", VStr "low")]
    /\ forall k,
        get result k
        = match get [("command", VStr "EXECUTE_TASK"); ("priority", VStr "low")] k,
                get [("priority", VStr "high"); ("owner", VStr "finance")] k with
          | Some _, Some v => Some v
          | existing, _ => existing
          end.
Proof.
  apply modify_modifier_replaces.
  unfold keys. simpl. repeat (constructor; [simpl; intuition discriminate|]). constructor.
Defined.



(** ** Resolution *)

Lemma current_context_top stack ctx :
  get_current_context (activate_context stack ctx) = Some ctx.
Proof.
  unfold get_current_context, activate_context. now rewrite rev_app_distr.
Qed.

(** X14: a behaviour that the token's definition lists for the innermost
    context (under [contextBehaviors], by the context's id) is returned
    before any modifier of any context is looked at. *)
Theorem context_behaviour_first
        (stack : context_stack) (c : dict value) (tok : token)
        (token_dictionary : dict (dict value))
        (behaviours : dict value) (id : string) (definition : value) :
  c <> [] ->
  get c "id" = Some (VStr id) ->
  get (base_definition tok token_dictionary) "contextBehaviors" = Some (VDict behaviours) ->
  get behaviours id = Some definition ->
  resolve_in_context (activate_context stack (VDict c)) tok token_dictionary
  = Some definition.
Proof.
  intros Hne Hid Hbeh Hdef. unfold resolve_in_context.
  rewrite current_context_top. cbv zeta.
  fold (base_definition tok token_dictionary).
  destruct c as [|kv c']; [contradiction|]. cbn [truthy negb].
  now rewrite Hid, Hbeh, Hdef.
Qed.

Lemma context_behaviour_first_witness :
  resolve_in_context
    (activate_context [overriding "C1" "OUTER"] (overriding "C2" "INNER"))
    {| token_value := Some "T12"; categoryCode := Some "T" |}
    [("T12", [("command", VStr "EXECUTE_TASK");
              ("contextBehaviors", VDict [("C2", VStr "IN C2")])])]
  = Some (VStr "IN C2").
Proof.
  apply (@context_behaviour_first
           [overriding "C1" "OUTER"]
           [("id", VStr "C2");
            ("definition",
             VDict [("tokenModifiers",
                     VDict [("T", VDict [("override", VStr "INNER")])])]);
            ("properties", VDict [])]
           {| token_value := Some "T12"; categoryCode := Some "T" |}
           [("T12", [("command", VStr "EXECUTE_TASK");
                     ("contextBehaviors", VDict [("C2", VStr "IN C2")])])]
           [("C2", VStr "IN C2")] "C2" (VStr "IN C2")).
  - discriminate.
  - reflexivity.
  - reflexivity.
  - reflexivity.
Defined.


Lemma scan_contexts_silent tok token_def stack :
  forallb (silent (categoryCode tok)) stack = true ->
  scan_contexts stack tok token_def = Some (VDict token_def).
Proof.
  induction stack as [|ctx rest IH]; [reflexivity|].
  simpl forallb. intros H. apply andb_true_iff in H. destruct H as [Hc Hrest].
  unfold silent in Hc. cbn [scan_contexts].
  destruct ctx as [| | | | |c]; try discriminate.
  destruct (get_default c "definition" (VDict [])) as [| | | | |ctx_def]; try discriminate.
  destruct (get ctx_def "tokenModifiers") as [[| | | | |modifiers]|]; try discriminate.
  - destruct (get_opt modifiers (categoryCode tok)); [discriminate | now apply IH].
  - now apply IH.
Qed.

(** X15: when the token's definition lists no context behaviours and no
    context of the stack has a modifier for the token's category, the
    token resolves to its definition in the dictionary, the empty
    dictionary for a token it does not hold. *)
Theorem resolve_without_modifier
        (stack : context_stack) (tok : token) (token_dictionary : dict (dict value)) :
  forallb (silent (categoryCode tok)) stack = true ->
  get (base_definition tok token_dictionary) "contextBehaviors" = None ->
  resolve_in_context stack tok token_dictionary
  = Some (VDict (base_definition tok token_dictionary)).
Proof.
  intros Hsilent Hbeh. unfold resolve_in_context. cbv zeta.
  fold (base_definition tok token_dictionary).
  destruct (get_current_context stack) as [top|] eqn:T; [|reflexivity].
  destruct (negb (truthy top)); [reflexivity|].
  assert (Htop : In top stack).
  { unfold get_current_context in T. destruct (rev stack) as [|x l] eqn:R; [discriminate|].
    injection T as ->. apply in_rev. rewrite R. now left. }
  rewrite forallb_forall in Hsilent. pose proof (Hsilent _ Htop) as Ht.
  destruct top as [| | | | |c]; try discriminate.
  rewrite Hbeh. apply scan_contexts_silent. now apply forallb_forall.
Qed.

Lemma resolve_without_modifier_witness :
  resolve_in_context
    [context_of "C01" []; overriding "C2" "INNER"]
    {| token_value := Some "L07"; categoryCode := Some "L" |}
    [("L07", [("command", VStr "APPLY_LOGIC")])]
  = Some (VDict (base_definition {| token_value := Some "L07"; categoryCode := Some "L" |}
                                 [("L07", [("command", VStr "APPLY_LOGIC")])])).
Proof.
  apply resolve_without_modifier; reflexivity.
Defined.


(** ** The system context *)

Lemma split_without sep s : PyStr.without sep s = true -> PyStr.split sep s = [s].
Proof.
  induction s as [|c s IH]; [reflexivity|]. simpl. intros H.
  apply andb_true_iff in H. destruct H as [Hc Hs].
  apply negb_true_iff in Hc. rewrite Hc, (IH Hs). reflexivity.
Qed.

Lemma split_app sep p s :
  PyStr.without sep p = true ->
  PyStr.split sep (p ++ String sep s) = p :: PyStr.split sep s.
Proof.
  induction p as [|c p IH]; simpl; intros H.
  - now rewrite Ascii.eqb_refl.
  - apply andb_true_iff in H. destruct H as [Hc Hp].
    apply negb_true_iff in Hc. rewrite Hc, (IH Hp). reflexivity.
Qed.

Lemma split_join sep parts :
  parts <> [] -> forallb (PyStr.without sep) parts = true ->
  PyStr.split sep (PyStr.join sep parts) = parts.
Proof.
  induction parts as [|p rest IH]; [contradiction|]. intros _ H.
  simpl in H. apply andb_true_iff in H. destruct H as [Hp Hrest].
  destruct rest as [|q rest].
  - simpl. now apply split_without.
  - change (PyStr.join sep (p :: q :: rest)) with (p ++ String sep (PyStr.join sep (q :: rest))).
    rewrite split_app by assumption. f_equal. apply IH; [discriminate | assumption].
Qed.

Lemma split_once_app sep c v :
  PyStr.without sep c = true -> PyStr.split_once sep (c ++ String sep v) = Some (c, v).
Proof.
  induction c as [|x c IH]; simpl; intros H.
  - now rewrite Ascii.eqb_refl.
  - apply andb_true_iff in H. destruct H as [Hx Hc].
    apply negb_true_iff in Hx. rewrite Hx, (IH Hc). reflexivity.
Qed.

Lemma drop_last_app s c : PyStr.drop_last (s ++ String c "") = s.
Proof.
  induction s as [|x s IH]; [reflexivity|].
  simpl. rewrite IH. destruct (s ++ String c "") eqn:E; [|reflexivity].
  destruct s; discriminate.
Qed.

Lemma endswith_app s c : PyStr.endswith c (s ++ String c "") = true.
Proof.
  induction s as [|x s IH]; simpl; [apply Ascii.eqb_refl|].
  rewrite IH. destruct (s ++ String c "") eqn:E; [|reflexivity].
  destruct s; discriminate.
Qed.

Lemma without_app c a b : PyStr.without c (a ++ b) = PyStr.without c a && PyStr.without c b.
Proof. induction a as [|x a IH]; [reflexivity|]. simpl. now rewrite IH, andb_assoc. Qed.

Lemma fold_versions parts : forall (acc : dict value),
  Forall (fun cv => PyStr.without "-" (fst cv) = true) parts ->
  fold_left (fun versions part =>
               match PyStr.split_once "-" part with
               | Some (component, version) => set versions component (VStr version)
               | None => versions
               end)
            (map (fun cv => fst cv ++ String "-" (snd cv)) parts) acc
  = fold_left (fun versions cv => set versions (fst cv) (VStr (snd cv))) parts acc.
Proof.
  induction parts as [|[c v] rest IH]; intros acc H; [reflexivity|].
  inversion H as [|? ? Hc Hrest]; subst. simpl in Hc.
  cbn [map fold_left fst snd]. rewrite split_once_app by assumption. now apply IH.
Qed.

Lemma fold_set_fresh (parts : list (string * string)) : forall (acc : dict value),
  NoDup (keys acc ++ map fst parts) ->
  fold_left (fun versions cv => set versions (fst cv) (VStr (snd cv))) parts acc
  = (acc ++ map (fun cv => (fst cv, VStr (snd cv))) parts)%list.
Proof.
  induction parts as [|[c v] rest IH]; intros acc Hnd; simpl.
  - now rewrite app_nil_r.
  - assert (Hfresh : get acc c = None).
    { destruct (get acc c) as [x|] eqn:G; [|reflexivity].
      apply get_In in G. exfalso.
      apply NoDup_remove_2 in Hnd. apply Hnd. apply in_or_app. left.
      unfold keys. apply in_map_iff. now exists (c, x). }
    rewrite (set_fresh _ _ _ Hfresh). rewrite IH.
    + now rewrite <- app_assoc.
    + unfold keys in *. rewrite map_app. simpl. rewrite <- app_assoc. exact Hnd.
Qed.

(** The version string written from its components is read back. *)
Lemma version_entries_of_text (components : list (string * string)) :
  Forall (fun cv => PyStr.without "," (fst cv) = true /\ PyStr.without "-" (fst cv) = true
                    /\ PyStr.without "," (snd cv) = true) components ->
  NoDup (map fst components) ->
  version_entries (version_text components)
  = map (fun cv => (fst cv, VStr (snd cv))) components.
Proof.
  intros Hshape Hnd. unfold version_entries, version_text.
  cbn [append PyStr.inner]. rewrite drop_last_app.
  destruct components as [|cv rest]; [reflexivity|].
  rewrite split_join.
  - rewrite fold_versions.
    + now rewrite fold_set_fresh.
    + eapply Forall_impl; [|exact Hshape]. intros a [_ [H _]]. exact H.
  - discriminate.
  - apply forallb_forall. intros part Hin. apply in_map_iff in Hin.
    destruct Hin as [[c v] [<- Hin]]. rewrite Forall_forall in Hshape.
    specialize (Hshape _ Hin). simpl in *. rewrite without_app. simpl.
    destruct Hshape as [-> [_ ->]]. reflexivity.
Qed.


(** X16: [initialize_system_context] reads the version declaration
    [[G-1.2,TD-2.3.1]] back into its components, looks the properties of
    the system up in the token dictionary, pushes the system context and
    keeps it. *)
Theorem initialize_system_context_versions
        (m : manager) (system_id : string) (components : list (string * string))
        (token_dictionary : dict (dict value)) :
  Forall (fun cv => PyStr.without "," (fst cv) = true /\ PyStr.without "-" (fst cv) = true
                    /\ PyStr.without "," (snd cv) = true) components ->
  NoDup (map fst components) ->
  initialize_system_context
    m
    [("systemIdentifier", VDict [("value", VStr system_id)]);
     ("versionDeclaration", VDict [("value", VStr (version_text components))])]
    token_dictionary
  = let context :=
      system_context_of system_id
                        (map (fun cv => (fst cv, VStr (snd cv))) components)
                        token_dictionary in
    Some (context,
          {| contexts := activate_context (contexts m) context;
             system_context := context |}).
Proof.
  intros Hshape Hnd. unfold initialize_system_context.
  cbn [get String.eqb Ascii.eqb Bool.eqb get_or_none get_default].
  assert (Hend : PyStr.endswith "]" (version_text components) = true).
  { unfold version_text.
    change ("[" ++ ?s) with (String "[" s).
    pose proof (endswith_app
                  (PyStr.join "," (map (fun cv => fst cv ++ String "-" (snd cv)) components))
                  "]") as H.
    cbn [PyStr.endswith].
    destruct (PyStr.join "," _ ++ "]") eqn:E; [|exact H].
    destruct (PyStr.join "," _); discriminate. }
  replace (PyStr.startswith "[" (version_text components)) with true by reflexivity.
  rewrite Hend. cbn [andb].
  rewrite (version_entries_of_text Hshape Hnd).
  unfold system_context_of, truthy.
  destruct system_id as [|c r]; [reflexivity|].
  cbn [String.eqb negb]. 
  destruct (get token_dictionary (String c r)); reflexivity.
Qed.

Lemma initialize_system_context_versions_witness :
  initialize_system_context
    new_manager
    [("systemIdentifier", VDict [("value", VStr "A12")]);
     ("versionDeclaration",
      VDict [("value", VStr (version_text [("G", "1.2"); ("TD", "2.3.1"); ("OP", "1.1")]))])]
    [("A12", [("properties", VDict [("name", VStr "main")])])]
  = let context :=
      system_context_of "A12"
                        (map (fun cv => (fst cv, VStr (snd cv)))
                             [("G", "1.2"); ("TD", "2.3.1"); ("OP", "1.1")])
                        [("A12", [("properties", VDict [("name", VStr "main")])])] in
    Some (context,
          {| contexts := activate_context (contexts new_manager) context;
             system_context := context |}).
Proof.
  apply initialize_system_context_versions.
  - repeat constructor.
  - simpl. repeat (constructor; [simpl; intuition discriminate|]). constructor.
Defined.


End ContextManagerProperties.

(* ================================================================== *)
(** * The structure synthesizer *)
(* ================================================================== *)

Module StructureSynthesizerFacts.
Import Dict StructureSynthesizer.

(** Tokens go straight to the output queue. *)
Lemma shunting_yard_loop_tokens recurse all rest :
  forallb is_token rest = true ->
  forall i output_queue operator_stack,
    shunting_yard_loop recurse all i rest output_queue operator_stack
    = (output_queue ++ rest ++ map Operator operator_stack)%list.
Proof.
  induction rest as [|e rest IH]; intros Hall i output_queue operator_stack.
  - reflexivity.
  - simpl in Hall. apply andb_true_iff in Hall. destruct Hall as [He Hrest].
    destruct e; try discriminate. simpl.
    rewrite IH by assumption. now rewrite <- app_assoc.
Qed.

Lemma apply_shunting_yard_tokens queue :
  forallb is_token queue = true -> _apply_shunting_yard queue = queue.
Proof.
  intros H. unfold _apply_shunting_yard. simpl.
  rewrite shunting_yard_loop_tokens by assumption. simpl. apply app_nil_r.
Qed.

(** Tokens are pushed one after the other; nothing combines them. *)
Lemma build_tokens entries : forall stack,
  build (map token_element entries) stack
  = Some (last (rev (map (fun t => get_default t "token" "") entries) ++ stack)%list "").
Proof.
  induction entries as [|t entries IH]; intros stack; [reflexivity|].
  simpl. rewrite IH. simpl. now rewrite <- app_assoc.
Qed.

Lemma forallb_token_elements entries :
  forallb is_token (map token_element entries) = true.
Proof. induction entries; simpl; auto. Qed.

(** C4, as the claim states it, fails for two tokens: only the first one
    is returned. *)
Lemma synthesize_two_tokens_counterexample :
  synthesize (tokens_only ["T12"; "T13"]) = Some "T12"
  /\ synthesize (tokens_only ["T12"; "T13"]) <> Some ("T12" ++ "T13").
Proof. split; [reflexivity | discriminate]. Qed.

(** C4 (amended): for a semantic structure with a non-empty token list, no
    relationship and no direct element list, [synthesize] returns the value
    of the first token; the tokens after it are left out.  For the single
    token T12 the result is "T12". *)
Theorem synthesize_tokens_without_relationships
        (sa : semantic_analysis) (s : semantic_structure)
        (first : token_entry) (others : list token_entry) :
  structure sa = Some s ->
  elements s = [] ->
  tokens s = first :: others ->
  relationships s = [] ->
  synthesize sa = Some (get_default first "token" "")
  /\ synthesize (tokens_only ["T12"]) = Some "T12".
Proof.
  intros Hs He Ht Hr. split; [|reflexivity].
  unfold synthesize, _convert_to_expression_elements. rewrite Hs, He, Hr, Ht.
  change (map token_element (first :: others))
    with (token_element first :: map token_element others).
  cbv beta iota.
  change (token_element first :: map token_element others)
    with (map token_element (first :: others)).
  rewrite apply_shunting_yard_tokens by apply forallb_token_elements.
  unfold _build_expression. rewrite build_tokens. simpl.
  rewrite app_nil_r. now rewrite last_last.
Qed.

Lemma synthesize_tokens_without_relationships_witness :
  synthesize (tokens_only ["T12"; "T13"; "T14"]) = Some (get_default [("token", "T12")] "token" "")
  /\ synthesize (tokens_only ["T12"]) = Some "T12".
Proof.
  apply (@synthesize_tokens_without_relationships
           (tokens_only ["T12"; "T13"; "T14"])
           {| elements := [];
              tokens := [[("token", "T12")]; [("token", "T13")]; [("token", "T14")]];
              relationships := [] |}
           [("token", "T12")]
           [[("token", "T13")]; [("token", "T14")]]); reflexivity.
Defined.

End StructureSynthesizerFacts.

(* ================================================================== *)
(** * The grammar of the parser *)
(* ================================================================== *)

Module PAILangParserFacts.
Import PAILangParser.

(** ** Reading terminals off the input *)

Lemma all_chars_app p s1 s2 :
  all_chars p (s1 ++ s2) = all_chars p s1 && all_chars p s2.
Proof.
  induction s1 as [|c s1 IH]; simpl; [reflexivity|].
  rewrite IH. now rewrite andb_assoc.
Qed.

Lemma drop_ws_prefix ws l s :
  all_chars is_ws ws = true -> solid l = true -> drop_ws (ws ++ l ++ s) = l ++ s.
Proof.
  intros Hws Hl. induction ws as [|c ws IH]; simpl in *.
  - destruct l as [|c l]; [discriminate|]. simpl in *.
    now destruct (is_ws c).
  - apply andb_true_iff in Hws. destruct Hws as [Hc Hws]. rewrite Hc. auto.
Qed.

Lemma split_at_app l s : split_at (String.length l) (l ++ s) = Some (l, s).
Proof. induction l as [|c l IH]; simpl; [reflexivity | now rewrite IH]. Qed.

Lemma upper_not_ws c : PyStr.is_upper c = true -> is_ws c = false.
Proof.
  unfold PyStr.is_upper, is_ws. intros H. apply andb_true_iff in H.
  destruct H as [H1 H2]. apply N.leb_le in H1. simpl.
  repeat match goal with
         | |- context [N.eqb ?a ?b] => destruct (N.eqb_spec a b); [lia|]
         end.
  reflexivity.
Qed.

Lemma digit_not_ws c : PyStr.is_digit c = true -> is_ws c = false.
Proof.
  unfold PyStr.is_digit, is_ws. intros H. apply andb_true_iff in H.
  destruct H as [H1 H2]. apply N.leb_le in H1. simpl.
  repeat match goal with
         | |- context [N.eqb ?a ?b] => destruct (N.eqb_spec a b); [lia|]
         end.
  reflexivity.
Qed.

Lemma category_code_upper c : is_category_code c = true -> PyStr.is_upper c = true.
Proof.
  unfold is_category_code. simpl. intros H.
  repeat (apply orb_true_iff in H; destruct H as [H|H];
          [apply Ascii.eqb_eq in H; subst; reflexivity|]).
  discriminate.
Qed.

(** A terminal other than a literal matches a text of one of its lengths
    that starts with a letter or a digit. *)
Lemma matches_shape t l :
  matches t l = true ->
  In (String.length l) (lengths t)
  /\ (match t with Lit _ => True | _ => solid l = true end).
Proof.
  destruct t; simpl; intros H.
  - apply andb_true_iff in H. destruct H as [Hlen Hc]. apply Nat.eqb_eq in Hlen.
    split; [now left|]. destruct l as [|c l]; [discriminate|]. simpl in *.
    apply andb_true_iff in Hc. destruct Hc as [Hc _].
    apply category_code_upper in Hc. now rewrite (upper_not_ws _ Hc).
  - apply andb_true_iff in H. destruct H as [Hlen Hc]. apply Nat.eqb_eq in Hlen.
    split; [now left|]. destruct l as [|c l]; [discriminate|]. simpl in *.
    apply andb_true_iff in Hc. destruct Hc as [Hc _]. now rewrite (digit_not_ws _ Hc).
  - apply andb_true_iff in H. destruct H as [Hlen Hc]. apply Nat.eqb_eq in Hlen.
    split; [now left|]. destruct l as [|c l]; [discriminate|]. simpl in *.
    apply andb_true_iff in Hc. destruct Hc as [Hc _]. now rewrite (digit_not_ws _ Hc).
  - apply andb_true_iff in H. destruct H as [Hlen Hc].
    split.
    + apply orb_true_iff in Hlen. destruct Hlen as [Hlen|Hlen];
        apply Nat.eqb_eq in Hlen; rewrite Hlen; simpl; auto.
    + destruct l as [|c l]; [discriminate|]. simpl in *.
      apply andb_true_iff in Hc. destruct Hc as [Hc _]. now rewrite (upper_not_ws _ Hc).
  - apply andb_true_iff in H. destruct H as [Hlen Hc]. apply Nat.eqb_eq in Hlen.
    split; [now left|]. destruct l as [|c l]; [discriminate|]. simpl in *.
    apply andb_true_iff in Hc. destruct Hc as [Hc _]. now rewrite (upper_not_ws _ Hc).
  - apply andb_true_iff in H. destruct H as [Hlen Hc]. apply Nat.eqb_eq in Hlen.
    split; [now left|]. destruct l as [|c l]; [discriminate|]. simpl in *.
    apply andb_true_iff in Hc. destruct Hc as [Hc _]. now rewrite (digit_not_ws _ Hc).
  - repeat (apply orb_true_iff in H; destruct H as [H|H]);
      apply String.eqb_eq in H; subst; simpl; auto.
  - apply String.eqb_eq in H. subst. split; [now left | exact I].
Qed.

(** After the white space, the input goes on with the text of the first
    terminal; what follows it is among [after]. *)
Lemma lexes_after s t l ts :
  lexes s ((t, l) :: ts) -> solid l = true ->
  exists s', In s' (after t s) /\ lexes s' ts.
Proof.
  intros H Hsolid. inversion H as [|ws t' l' s' ts' Hws Hm Hl]; subst.
  exists s'. split; [|assumption].
  unfold after. apply in_flat_map. exists (String.length l). split.
  - apply (matches_shape _ _ Hm).
  - rewrite drop_ws_prefix by assumption. rewrite split_at_app, Hm. now left.
Qed.

Lemma lexes_after_terminal s t l ts :
  lexes s ((t, l) :: ts) ->
  match t with Lit _ => False | _ => True end ->
  exists s', In s' (after t s) /\ lexes s' ts.
Proof.
  intros H Ht. apply (lexes_after H).
  inversion H as [|ws t' l' s' ts' Hws Hm Hl]; subst.
  pose proof (matches_shape _ _ Hm) as [_ Hs]. destruct t; auto; contradiction.
Qed.

Lemma lexes_after_literal s x ts :
  lexes s ((Lit x, x) :: ts) -> solid x = true ->
  exists s', In s' (after (Lit x) s) /\ lexes s' ts.
Proof. intros H Hs. exact (lexes_after H Hs). Qed.

Lemma lexes_literal_text s x l ts : lexes s ((Lit x, l) :: ts) -> l = x.
Proof.
  intros H. inversion H as [|ws t' l' s' ts' Hws Hm Hl]; subst.
  now apply String.eqb_eq in Hm.
Qed.

Lemma nonempty_In {A} (x : A) l : In x l -> nonempty l = true.
Proof. destruct l; [intros [] | reflexivity]. Qed.

(** ** What an expression starts with *)

Lemma starts_expression_app ts1 ts2 :
  starts_expression ts1 = true -> starts_expression (ts1 ++ ts2) = true.
Proof.
  destruct ts1 as [|[t1 l1] [|[t2 l2] [|[t3 l3] ts1]]]; simpl; try discriminate;
    destruct t1; try discriminate; auto;
    destruct t2; try discriminate; auto;
    destruct t3; try discriminate; auto.
Qed.

Lemma derives_starts mp x ts vs :
  derives mp x ts vs -> expression_like x = true -> starts_expression ts = true.
Proof.
  induction 1; intros Hx; try discriminate; auto;
    try (apply starts_expression_app; auto; fail);
    try reflexivity.
Qed.

Lemma starts_expression_string s ts :
  lexes s ts -> starts_expression ts = true -> string_starts_expression s = true.
Proof.
  intros Hl Hs. unfold string_starts_expression.
  destruct ts as [|[t1 l1] ts]; [discriminate|].
  destruct t1; try discriminate.
  - (* a standard token *)
    destruct ts as [|[t2 l2] ts]; [discriminate|]. destruct t2; try discriminate.
    destruct (lexes_after_terminal Hl I) as [s1 [Hin1 Hl1]].
    destruct (lexes_after_terminal Hl1 I) as [s2 [Hin2 _]].
    apply orb_true_iff; left. apply orb_true_iff; left.
    apply orb_true_iff; left. apply orb_true_iff; left.
    apply existsb_exists. exists s1. split; [assumption|].
    now apply (nonempty_In s2).
  - (* a complex token *)
    destruct ts as [|[t2 l2] [|[t3 l3] ts]]; try discriminate;
      destruct t2; try discriminate. destruct t3; try discriminate.
    destruct (lexes_after_terminal Hl I) as [s1 [Hin1 Hl1]].
    destruct (lexes_after_terminal Hl1 I) as [s2 [Hin2 Hl2]].
    destruct (lexes_after_terminal Hl2 I) as [s3 [Hin3 _]].
    apply orb_true_iff; left. apply orb_true_iff; left.
    apply orb_true_iff; left. apply orb_true_iff; right.
    apply existsb_exists. exists s1. split; [assumption|].
    apply existsb_exists. exists s2. split; [assumption|].
    now apply (nonempty_In s3).
  - (* a literal *)
    pose proof (lexes_literal_text Hl) as ->. simpl in Hs.
    repeat (apply orb_true_iff in Hs; destruct Hs as [Hs|Hs]);
      apply String.eqb_eq in Hs; subst s0;
      destruct (lexes_after_literal Hl eq_refl) as [s1 [Hin1 _]];
      rewrite (nonempty_In _ _ Hin1); repeat rewrite orb_true_r; reflexivity.
Qed.

Lemma system_id_shape mp ts id :
  derives_system_id mp ts id ->
  exists a d, ts = [(ALPHA_CHAR, a); (DIGIT, d)]
              \/ exists d', ts = [(ALPHA_CHAR, a); (DIGIT, d); (DIGIT, d')].
Proof. destruct 1; eauto. Qed.

(** After the system identifier comes ["["] or the expression. *)
Lemma system_shape mp ts1 s ts2 :
  derives_system mp ts1 s -> starts_expression ts2 = true ->
  exists a d rest,
    starts_expression rest = true
    /\ ((ts1 ++ ts2)%list = (ALPHA_CHAR, a) :: (DIGIT, d) :: rest
        \/ exists d', (ts1 ++ ts2)%list = (ALPHA_CHAR, a) :: (DIGIT, d) :: (DIGIT, d') :: rest).
Proof.
  intros Hs H2. destruct Hs as [ts id Hid | ts id ts' vs Hid Hv].
  - destruct (system_id_shape Hid) as [a [d [-> | [d' ->]]]].
    + exists a, d, ts2. split; [assumption | now left].
    + exists a, d, ts2. split; [assumption | right; now exists d'].
  - destruct (system_id_shape Hid) as [a [d [-> | [d' ->]]]].
    + exists a, d, ((lit "[" :: ts' ++ [lit "]"]) ++ ts2)%list.
      split; [reflexivity | left].
      now rewrite <- app_assoc.
    + exists a, d, ((lit "[" :: ts' ++ [lit "]"]) ++ ts2)%list.
      split; [reflexivity | right; exists d'].
      now rewrite <- app_assoc.
Qed.

(** An input that does not start like an expression, also after a system
    identifier, has no derivation. *)
Lemma parses_starts mp s ast :
  parses mp s ast -> string_starts_pailang s = true.
Proof.
  intros [ts [Hl Hd]]. unfold string_starts_pailang.
  destruct Hd as [ts v He | ts1 sys ts2 v Hs He].
  - apply orb_true_iff; left.
    apply (starts_expression_string Hl). now apply (derives_starts He).
  - apply orb_true_iff; right.
    pose proof (derives_starts He eq_refl) as H2.
    destruct (@system_shape mp ts1 sys ts2 Hs H2) as [a [d [rest [Hrest [E | [d' E]]]]]];
      rewrite E in Hl.
    + destruct (lexes_after_terminal Hl I) as [s1 [Hin1 Hl1]].
      destruct (lexes_after_terminal Hl1 I) as [s2 [Hin2 Hl2]].
      apply existsb_exists. exists s1. split; [assumption|].
      apply existsb_exists. exists s2. split; [assumption|].
      apply orb_true_iff; left. now apply (starts_expression_string Hl2).
    + destruct (lexes_after_terminal Hl I) as [s1 [Hin1 Hl1]].
      destruct (lexes_after_terminal Hl1 I) as [s2 [Hin2 Hl2]].
      destruct (lexes_after_terminal Hl2 I) as [s3 [Hin3 Hl3]].
      apply existsb_exists. exists s1. split; [assumption|].
      apply existsb_exists. exists s2. split; [assumption|].
      apply orb_true_iff; right.
      apply existsb_exists. exists s3. split; [assumption|].
      now apply (starts_expression_string Hl3).
Qed.

Lemma rejected_by_start s : string_starts_pailang s = false -> rejected s.
Proof.
  intros H mp ast Hp. apply parses_starts in Hp. congruence.
Qed.

(** C5: the grammar has no derivation of "C2?T13:T16" (a standard token
    needs two digits after its category letter, and after the system
    identifier C2 no expression starts with "?"), so [parse] raises on it
    instead of returning a conditional node. *)
Theorem parse_one_digit_condition_rejected : rejected "C2?T13:T16".
Proof. apply rejected_by_start. vm_compute. reflexivity. Qed.

End PAILangParserFacts.

(* ================================================================== *)
(** * Rendering followed by parsing *)
(* ================================================================== *)

Module RoundTripFacts.
Import PAILangParser PAILangParserFacts ExpressionSynthesizer RoundTrip.

(** ** Induction on expression trees *)

Lemma tree_induction (P : tree -> Prop) :
  (forall v, P (token v)) ->
  (forall op l r, on_child P l -> on_child P r -> P (sequence op l r)) ->
  (forall op l r, on_child P l -> on_child P r -> P (parallel op l r)) ->
  (forall c tb fb,
      on_child P c -> on_child P tb ->
      match fb with Some f => on_child P f | None => True end ->
      P (conditional c tb fb)) ->
  (forall n e, on_child P e -> P (repetition n e)) ->
  P other ->
  forall t, P t.
Proof.
  intros Ht Hs Hp Hc Hr Ho. fix IH 1. intros t.
  assert (Hchild : forall child, on_child P child).
  { intros [c|]; simpl; [apply IH | exact I]. }
  destruct t as [v | op l r | op l r | c tb fb | n e |].
  - apply Ht.
  - apply Hs; apply Hchild.
  - apply Hp; apply Hchild.
  - apply Hc; try apply Hchild. destruct fb; [apply Hchild | exact I].
  - apply Hr; apply Hchild.
  - apply Ho.
Qed.

(** ** The levels are nested *)

Lemma sequence_level_parallel t : sequence_level t = true -> parallel_level t = true.
Proof. destruct t; simpl; auto; discriminate. Qed.

Lemma parallel_level_conditional t : parallel_level t = true -> conditional_level t = true.
Proof.
  destruct t as [v | op l r | op l r | c tb fb | n e |]; simpl; auto.
  discriminate.
Qed.

Lemma standard_token_shape v n :
  standard_token_of v = Some n ->
  exists c d, v = String c d
              /\ n = StandardToken (String c "") d
              /\ matches CATEGORY_CODE (String c "") = true
              /\ matches IDENTIFIER d = true.
Proof.
  unfold standard_token_of.
  destruct v as [|c [|d1 [|d2 [|x r]]]]; try discriminate.
  destruct (is_category_code c && PyStr.is_digit d1 && PyStr.is_digit d2) eqn:E;
    [|discriminate].
  intros [= <-]. apply andb_true_iff in E. destruct E as [E E2].
  apply andb_true_iff in E. destruct E as [E0 E1].
  exists c, (String d1 (String d2 "")). repeat split.
  - simpl. now rewrite E0.
  - simpl. now rewrite E1, E2.
Qed.

Lemma is_some_true {A} (o : option A) : is_some o = true -> exists x, o = Some x.
Proof. destruct o; [eauto | discriminate]. Qed.

(** ** The rendered string consists of the terminals *)

Lemma append_assoc (a b c : string) : (a ++ b) ++ c = a ++ b ++ c.
Proof. induction a as [|x a IH]; simpl; congruence. Qed.

Lemma append_nil_r (a : string) : a ++ "" = a.
Proof. induction a as [|x a IH]; simpl; congruence. Qed.

Lemma lexes_ws_prefix ws s ts :
  all_chars is_ws ws = true -> lexes s ts -> lexes (ws ++ s) ts.
Proof.
  intros Hws H. destruct H as [ws' Hws' | ws' t l s ts Hws' Hm Hl].
  - constructor. rewrite all_chars_app. now rewrite Hws, Hws'.
  - rewrite <- append_assoc. constructor; auto.
    rewrite all_chars_app. now rewrite Hws, Hws'.
Qed.

Lemma lexes_app s1 ts1 s2 ts2 :
  lexes s1 ts1 -> lexes s2 ts2 -> lexes (s1 ++ s2) (ts1 ++ ts2).
Proof.
  intros H1 H2. induction H1 as [ws Hws | ws t l s ts Hws Hm Hl IH].
  - now apply lexes_ws_prefix.
  - rewrite !append_assoc. simpl. now constructor.
Qed.

Lemma lexes_one t l : matches t l = true -> lexes l [(t, l)].
Proof.
  intros H.
  assert (E : l = ("" ++ l ++ "")%string) by (simpl; now rewrite append_nil_r).
  rewrite E at 1. constructor; auto. now constructor.
Qed.

Lemma lexes_lit_app op s1 ts1 s2 ts2 :
  lexes s1 ts1 -> lexes s2 ts2 -> lexes (s1 ++ op ++ s2) (ts1 ++ lit op :: ts2).
Proof.
  intros H1 H2. apply lexes_app; [assumption|].
  change (lit op :: ts2) with ([lit op] ++ ts2)%list.
  apply lexes_app; [|assumption].
  apply lexes_one. simpl. apply String.eqb_refl.
Qed.

Lemma render_lexes : forall t, conditional_level t = true -> lexes (render t) (lexemes t).
Proof.
  apply (tree_induction
           (fun t => conditional_level t = true -> lexes (render t) (lexemes t))).
  - (* token *)
    intros [v|]; simpl; [|discriminate]. intros H.
    apply is_some_true in H. destruct H as [n Hn].
    destruct (standard_token_shape _ Hn) as [c [d [-> [_ [Hc Hd]]]]].
    simpl.
    change (String c d) with (String c "" ++ d)%string.
    change [(CATEGORY_CODE, String c ""); (IDENTIFIER, d)]
      with ([(CATEGORY_CODE, String c "")] ++ [(IDENTIFIER, d)])%list.
    apply lexes_app; now apply lexes_one.
  - (* sequence *)
    intros op [l|] [[[v|]| | | | |]|] IHl IHr; simpl; try discriminate.
    intros H. apply andb_true_iff in H. destruct H as [H Hv].
    apply andb_true_iff in H. destruct H as [Hop Hl].
    apply String.eqb_eq in Hop. rewrite Hop.
    apply lexes_lit_app.
    + apply IHl. now apply parallel_level_conditional, sequence_level_parallel.
    + apply IHr. simpl. exact Hv.
  - (* parallel *)
    intros op [l|] [r|] IHl IHr; simpl; try discriminate.
    intros H. apply andb_true_iff in H. destruct H as [H Hr].
    apply andb_true_iff in H. destruct H as [Hop Hl].
    apply String.eqb_eq in Hop. rewrite Hop.
    apply lexes_lit_app.
    + apply IHl. now apply parallel_level_conditional.
    + apply IHr. now apply parallel_level_conditional, sequence_level_parallel.
  - (* conditional *)
    intros [c|] [tb|] [[fb|]|] IHc IHt IHf; simpl; try discriminate.
    intros H. apply andb_true_iff in H. destruct H as [H Hf].
    apply andb_true_iff in H. destruct H as [Hc Ht].
    apply (lexes_lit_app "?"); [now apply IHc|].
    apply (lexes_lit_app ":").
    + apply IHt. now apply parallel_level_conditional.
    + apply IHf. now apply parallel_level_conditional.
  - intros n e _. simpl. discriminate.
  - simpl. discriminate.
Qed.

(** ** The terminals derive the corresponding node *)

Section Derivations.

Variable mp : bool.

Lemma operands_of_list y op items :
  Forall (fun p => derives mp y (fst p) [snd p]) items ->
  derives mp (operands y op) (operand_lexemes op items) (map snd items).
Proof.
  induction 1 as [|p items Hp _ IH]; simpl.
  - constructor.
  - now constructor.
Qed.

Lemma branches_of_list items :
  Forall (fun p => derives mp piping_expression (fst (fst p)) [snd (fst p)]
                   /\ derives mp piping_expression (fst (snd p)) [snd (snd p)]) items ->
  derives mp branches (branch_lexemes items) (branch_nodes items).
Proof.
  induction 1 as [|p items [Ht Hf] _ IH]; simpl.
  - constructor.
  - rewrite <- app_assoc. simpl. now constructor.
Qed.

Lemma fold_conditional_snoc items : forall v t f,
  fold_conditional v (branch_nodes items ++ [t; f])
  = ConditionalExpression (fold_conditional v (branch_nodes items)) t f.
Proof.
  induction items as [|p items IH]; intros v t f; [reflexivity|].
  simpl. apply IH.
Qed.

Lemma operand_lexemes_snoc op items ts n :
  operand_lexemes op (items ++ [(ts, n)]) = (operand_lexemes op items ++ lit op :: ts)%list.
Proof.
  unfold operand_lexemes. rewrite flat_map_app. simpl. now rewrite app_nil_r.
Qed.

Lemma fold_binary_snoc mk v vs n :
  fold_binary mk v (vs ++ [n]) = mk (fold_binary mk v vs) n.
Proof. unfold fold_binary. now rewrite fold_left_app. Qed.

(** A standard token, from [standard_token] up to [aggregation_expression]. *)
Lemma token_derives v n :
  standard_token_of v = Some n ->
  derives mp aggregation_expression (lexemes (token (Some v))) [n].
Proof.
  intros H. destruct (standard_token_shape _ H) as [c [d [-> [-> [Hc Hd]]]]]. simpl.
  apply d_aggregation_pass, d_repetition_pass, d_atomic_token, d_token_standard.
  now constructor.
Qed.

(** A chain of tokens joined by [>]: the first token and the operands
    after it. *)
Lemma sequence_level_spine : forall t,
  sequence_level t = true ->
  exists ts0 v0 items,
    lexemes t = (ts0 ++ operand_lexemes ">" items)%list
    /\ derives mp aggregation_expression ts0 [v0]
    /\ Forall (fun p => derives mp aggregation_expression (fst p) [snd p]) items
    /\ ast_of t = Some (fold_binary SequenceExpression v0 (map snd items)).
Proof.
  apply (tree_induction
           (fun t => sequence_level t = true ->
                     exists ts0 v0 items,
                       lexemes t = (ts0 ++ operand_lexemes ">" items)%list
                       /\ derives mp aggregation_expression ts0 [v0]
                       /\ Forall (fun p => derives mp aggregation_expression (fst p) [snd p])
                                 items
                       /\ ast_of t = Some (fold_binary SequenceExpression v0 (map snd items)))).
  - intros [v|]; [|discriminate]. intros H. simpl in H.
    apply is_some_true in H. destruct H as [n Hn].
    exists (lexemes (token (Some v))), n, []. repeat split.
    + simpl operand_lexemes. now rewrite app_nil_r.
    + now apply token_derives.
    + constructor.
    + exact Hn.
  - intros op [l|] [[[v|]| | | | |]|] IHl _; try discriminate.
    intros H. simpl in H. apply andb_true_iff in H. destruct H as [H Hv].
    apply andb_true_iff in H. destruct H as [Hop Hl].
    apply is_some_true in Hv. destruct Hv as [n Hn].
    destruct (IHl Hl) as [ts0 [v0 [items [Hlex [Hd [Hall Hast]]]]]].
    exists ts0, v0, (items ++ [(lexemes (token (Some v)), n)])%list. repeat split.
    + rewrite operand_lexemes_snoc, app_assoc, <- Hlex. reflexivity.
    + assumption.
    + apply Forall_app. split; [assumption|]. constructor; [|constructor].
      now apply token_derives.
    + rewrite map_app. simpl map. rewrite fold_binary_snoc.
      simpl. rewrite Hop, Hast, Hn. reflexivity.
  - intros op l r _ _ H. discriminate.
  - intros c tb fb _ _ _ H. discriminate.
  - intros n e _ H. discriminate.
  - intros H. discriminate.
Qed.

Lemma sequence_level_derives t :
  sequence_level t = true ->
  exists v, ast_of t = Some v /\ derives mp sequence_expression (lexemes t) [v].
Proof.
  intros H. destruct (sequence_level_spine _ H) as [ts0 [v0 [items [Hlex [Hd [Hall Hast]]]]]].
  eexists. split; [exact Hast|]. rewrite Hlex.
  apply d_sequence; [assumption|]. now apply operands_of_list.
Qed.

(** A chain of sequences joined by [&]. *)
Lemma parallel_level_spine : forall t,
  parallel_level t = true ->
  exists ts0 v0 items,
    lexemes t = (ts0 ++ operand_lexemes "&" items)%list
    /\ derives mp sequence_expression ts0 [v0]
    /\ Forall (fun p => derives mp sequence_expression (fst p) [snd p]) items
    /\ ast_of t = Some (fold_binary ParallelExpression v0 (map snd items)).
Proof.
  assert (Hbase : forall t, sequence_level t = true ->
            exists ts0 v0 items,
              lexemes t = (ts0 ++ operand_lexemes "&" items)%list
              /\ derives mp sequence_expression ts0 [v0]
              /\ Forall (fun p => derives mp sequence_expression (fst p) [snd p]) items
              /\ ast_of t = Some (fold_binary ParallelExpression v0 (map snd items))).
  { intros t H. destruct (sequence_level_derives _ H) as [v [Hast Hd]].
    exists (lexemes t), v, []. repeat split; auto.
    simpl operand_lexemes. now rewrite app_nil_r. }
  apply (tree_induction
           (fun t => parallel_level t = true ->
                     exists ts0 v0 items,
                       lexemes t = (ts0 ++ operand_lexemes "&" items)%list
                       /\ derives mp sequence_expression ts0 [v0]
                       /\ Forall (fun p => derives mp sequence_expression (fst p) [snd p])
                                 items
                       /\ ast_of t = Some (fold_binary ParallelExpression v0 (map snd items)))).
  - intros v H. now apply Hbase.
  - intros op l r _ _ H. now apply Hbase.
  - intros op [l|] [r|] IHl _ H; try discriminate.
    simpl in H. apply andb_true_iff in H. destruct H as [H Hr].
    apply andb_true_iff in H. destruct H as [Hop Hl].
    destruct (IHl Hl) as [ts0 [v0 [items [Hlex [Hd [Hall Hast]]]]]].
    destruct (sequence_level_derives _ Hr) as [n [Hn Hdn]].
    exists ts0, v0, (items ++ [(lexemes r, n)])%list. repeat split.
    + rewrite operand_lexemes_snoc, app_assoc, <- Hlex. reflexivity.
    + assumption.
    + apply Forall_app. split; [assumption|]. constructor; [assumption | constructor].
    + rewrite map_app. simpl map. rewrite fold_binary_snoc.
      simpl. rewrite Hop, Hast, Hn. reflexivity.
  - intros c tb fb _ _ _ H. discriminate.
  - intros n e _ H. discriminate.
  - intros H. discriminate.
Qed.

Lemma parallel_level_derives t :
  parallel_level t = true ->
  exists v, ast_of t = Some v /\ derives mp piping_expression (lexemes t) [v].
Proof.
  intros H. destruct (parallel_level_spine _ H) as [ts0 [v0 [items [Hlex [Hd [Hall Hast]]]]]].
  eexists. split; [exact Hast|].
  rewrite <- (app_nil_r (lexemes t)).
  change [fold_binary ParallelExpression v0 (map snd items)]
    with [fold_binary PipingExpression (fold_binary ParallelExpression v0 (map snd items)) []].
  apply d_piping; [|constructor].
  rewrite Hlex. apply d_parallel; [assumption|]. now apply operands_of_list.
Qed.

(** Conditionals nested in the condition: the innermost condition and the
    pairs of branches after it. *)
Lemma conditional_level_spine : forall t,
  conditional_level t = true ->
  exists ts0 v0 items,
    lexemes t = (ts0 ++ branch_lexemes items)%list
    /\ derives mp piping_expression ts0 [v0]
    /\ Forall (fun p => derives mp piping_expression (fst (fst p)) [snd (fst p)]
                        /\ derives mp piping_expression (fst (snd p)) [snd (snd p)]) items
    /\ ast_of t = Some (fold_conditional v0 (branch_nodes items)).
Proof.
  assert (Hbase : forall t, parallel_level t = true ->
            exists ts0 v0 items,
              lexemes t = (ts0 ++ branch_lexemes items)%list
              /\ derives mp piping_expression ts0 [v0]
              /\ Forall (fun p => derives mp piping_expression (fst (fst p)) [snd (fst p)]
                                  /\ derives mp piping_expression (fst (snd p)) [snd (snd p)])
                        items
              /\ ast_of t = Some (fold_conditional v0 (branch_nodes items))).
  { intros t H. destruct (parallel_level_derives _ H) as [v [Hast Hd]].
    exists (lexemes t), v, []. repeat split; auto.
    simpl branch_lexemes. now rewrite app_nil_r. }
  apply (tree_induction
           (fun t => conditional_level t = true ->
                     exists ts0 v0 items,
                       lexemes t = (ts0 ++ branch_lexemes items)%list
                       /\ derives mp piping_expression ts0 [v0]
                       /\ Forall (fun p =>
                                    derives mp piping_expression (fst (fst p)) [snd (fst p)]
                                    /\ derives mp piping_expression (fst (snd p)) [snd (snd p)])
                                 items
                       /\ ast_of t = Some (fold_conditional v0 (branch_nodes items)))).
  - intros v H. now apply Hbase.
  - intros op l r _ _ H. now apply Hbase.
  - intros op l r _ _ H. now apply Hbase.
  - intros [c|] [tb|] [[fb|]|] IHc _ _ H; try discriminate.
    simpl in H. apply andb_true_iff in H. destruct H as [H Hf].
    apply andb_true_iff in H. destruct H as [Hc Ht].
    destruct (IHc Hc) as [ts0 [v0 [items [Hlex [Hd [Hall Hast]]]]]].
    destruct (parallel_level_derives _ Ht) as [nt [Hnt Hdt]].
    destruct (parallel_level_derives _ Hf) as [nf [Hnf Hdf]].
    exists ts0, v0, (items ++ [((lexemes tb, nt), (lexemes fb, nf))])%list. repeat split.
    + unfold branch_lexemes. rewrite flat_map_app. simpl.
      rewrite app_nil_r, app_assoc. fold (branch_lexemes items). rewrite <- Hlex.
      reflexivity.
    + assumption.
    + apply Forall_app. split; [assumption|]. constructor; [|constructor]. now split.
    + unfold branch_nodes. rewrite flat_map_app. simpl.
      fold (branch_nodes items). rewrite fold_conditional_snoc.
      rewrite Hast, Hnt, Hnf. reflexivity.
  - intros n e _ H. discriminate.
  - intros H. discriminate.
Qed.

Lemma conditional_level_derives t :
  conditional_level t = true ->
  exists v, ast_of t = Some v /\ derives mp expression (lexemes t) [v].
Proof.
  intros H. destruct (conditional_level_spine _ H) as [ts0 [v0 [items [Hlex [Hd [Hall Hast]]]]]].
  eexists. split; [exact Hast|].
  apply d_expression.
  rewrite <- (app_nil_r (lexemes t)).
  change [fold_conditional v0 (branch_nodes items)]
    with [fold_binary AssignmentExpression (fold_conditional v0 (branch_nodes items)) []].
  apply d_assignment; [|constructor].
  rewrite Hlex. apply d_conditional; [assumption|]. now apply branches_of_list.
Qed.

End Derivations.

(** With two digits in the condition the conditional of the examples is a
    sentence of the grammar, read as a ConditionalExpression of three
    standard tokens. *)
Lemma parse_two_digit_condition maybe_placeholders :
  parses maybe_placeholders "C02?T13:T16"
         (PAILang (if maybe_placeholders then Some None else None)
                  (ConditionalExpression (StandardToken "C" "02")
                                         (StandardToken "T" "13")
                                         (StandardToken "T" "16"))).
Proof.
  pose (t := conditional (T "C02") (T "T13") (Some (T "T16"))).
  assert (H : conditional_level t = true) by reflexivity.
  destruct (conditional_level_derives maybe_placeholders _ H) as [ast [Hast Hd]].
  injection Hast as <-.
  exists (lexemes t). split.
  - exact (render_lexes _ H).
  - now constructor.
Qed.

(** C1: the round trip fails, twice.  A repetition node is rendered with
    its operator in front, a string no production of the grammar derives,
    so [parse] raises on it; and the two nestings of a chain of sequences
    are rendered as one and the same string, without a bracket, so no
    parser gives both back. *)
Lemma round_trip_counterexample :
  synthesize_from_tree (Some (repetition (Some 3%Z) (T "T17"))) = "**3T17"
  /\ rejected (synthesize_from_tree (Some (repetition (Some 3%Z) (T "T17"))))
  /\ right_nested <> left_nested
  /\ synthesize_from_tree (Some right_nested) = "T12>T13>T14"
  /\ synthesize_from_tree (Some left_nested) = "T12>T13>T14".
Proof.
  split; [reflexivity|]. split; [apply rejected_by_start; vm_compute; reflexivity|].
  split; [discriminate|]. split; reflexivity.
Qed.

End RoundTripFacts.

(* ================================================================== *)
(** * From the parser to the context manager *)
(* ================================================================== *)

Module DecoderProperties.
Import Dict.
Import ContextManager.
Import PAILangParser.
Import Decoder.
Import PAILangParserFacts RoundTripFacts.

Lemma node_induction (P : node -> Prop) :
  (forall system e,
      match system with Some (Some s) => P s | _ => True end -> P e ->
      P (PAILang system e)) ->
  (forall id version,
      match version with Some v => P v | None => True end ->
      P (SystemIdentifier id version)) ->
  (forall l, Forall P l -> P (VersionDeclaration l)) ->
  (forall t n, P (VersionComponent t n)) ->
  (forall l r, P l -> P r -> P (AssignmentExpression l r)) ->
  (forall c t f, P c -> P t -> P f -> P (ConditionalExpression c t f)) ->
  (forall l r, P l -> P r -> P (PipingExpression l r)) ->
  (forall l r, P l -> P r -> P (ParallelExpression l r)) ->
  (forall l r, P l -> P r -> P (SequenceExpression l r)) ->
  (forall l, Forall P l -> P (AggregationExpression l)) ->
  (forall n e, match e with Some x => P x | None => True end ->
               P (RepetitionExpression n e)) ->
  (forall l, Forall P l -> P (TokenSequence l)) ->
  (forall l, Forall P l -> P (BracketedExpression l)) ->
  (forall l, Forall P l -> P (BatchOperation l)) ->
  (forall e c, P e -> P c -> P (ContextActivation e c)) ->
  (forall c i, P (StandardToken c i)) ->
  (forall p c i, P (ComplexToken p c i)) ->
  forall n, P n.
Proof.
  intros Hpl Hsys Hver Hcomp Hasg Hcond Hpipe Hpar Hseq Hagg Hrep Hts Hbr Hbat Hctx Hst Hcx.
  fix IH 1. intros n.
  assert (Hall : forall l, Forall P l).
  { fix all 1. intros [|x l]; [constructor | constructor; [apply IH | apply all]]. }
  destruct n as [system e | id version | l | t n | l r | c t f | l r | l r | l r | l
                 | n e | l | l | l | e c | c i | p c i].
  - apply Hpl; [destruct system as [[s|]|]; [apply IH | exact I | exact I] | apply IH].
  - apply Hsys. destruct version; [apply IH | exact I].
  - apply Hver, Hall.
  - apply Hcomp.
  - apply Hasg; apply IH.
  - apply Hcond; apply IH.
  - apply Hpipe; apply IH.
  - apply Hpar; apply IH.
  - apply Hseq; apply IH.
  - apply Hagg, Hall.
  - apply Hrep. destruct e; [apply IH | exact I].
  - apply Hts, Hall.
  - apply Hbr, Hall.
  - apply Hbat, Hall.
  - apply Hctx; apply IH.
  - apply Hst.
  - apply Hcx.
Qed.

Lemma process_unfold entries stack :
  _process_context_activations (VDict entries) stack
  = process_values entries
      (if is_str (get entries "type") "ContextActivation"
       then snd (process_context_activation stack (VDict entries) [])
       else stack).
Proof.
  cbn [_process_context_activations].
  generalize (if is_str (get entries "type") "ContextActivation"
              then snd (process_context_activation stack (VDict entries) [])
              else stack).
  unfold process_values. induction entries as [|[k v] rest IH]; intros st; [reflexivity|].
  cbn [fold_left snd]. now rewrite <- IH.
Qed.

Lemma dictionary_of_entries n : dictionary_of n = VDict (entries_of n).
Proof.
  unfold entries_of. destruct n as [[[s|]|] e| | | | | | | | | | | | | | | |]; reflexivity.
Qed.

Lemma visit_dictionary n stack :
  visit (dictionary_of n) stack = _process_context_activations (dictionary_of n) stack.
Proof. now rewrite dictionary_of_entries. Qed.

Lemma item_dictionary n stack :
  match dictionary_of n with
  | VDict _ => _process_context_activations (dictionary_of n) stack
  | _ => stack
  end = _process_context_activations (dictionary_of n) stack.
Proof. now rewrite dictionary_of_entries. Qed.

Lemma process_items_free l :
  Forall (fun n => activation_free n = true ->
                   forall stack, _process_context_activations (dictionary_of n) stack = stack) l ->
  forallb activation_free l = true ->
  forall stack, process_items (map dictionary_of l) stack = stack.
Proof.
  induction 1 as [|n l Hn _ IH]; intros Hfree stack; [reflexivity|].
  simpl in Hfree. apply andb_true_iff in Hfree. destruct Hfree as [Hf Hl].
  unfold process_items. cbn [map fold_left].
  rewrite item_dictionary, (Hn Hf). now apply IH.
Qed.

Lemma activation_free_list l :
  (fix all (l : list node) : bool :=
     match l with
     | [] => true
     | x :: r => activation_free x && all r
     end) l = forallb activation_free l.
Proof. induction l as [|x l IH]; [reflexivity|]. simpl. now rewrite IH. Qed.

Ltac frame_step :=
  rewrite dictionary_of_entries; rewrite process_unfold;
  unfold entries_of, process_values; cbn [dictionary_of fold_left snd get String.eqb
    Ascii.eqb Bool.eqb is_str app];
  rewrite ?visit_dictionary.

(** Outside a context activation nothing is pushed. *)
Lemma process_context_activations_free : forall n,
  activation_free n = true ->
  forall stack, _process_context_activations (dictionary_of n) stack = stack.
Proof.
  induction n as [system e Hs He | id version Hv | l Hl | t n | l IHl r IHr
                  | c IHc t IHt f IHf | l IHl r IHr | l IHl r IHr | l IHl r IHr | l Hl
                  | n e He | l Hl | l Hl | l Hl | e IHe c IHc | c i | p c i]
    using node_induction;
    intros Hfree stack;
    cbn [activation_free] in Hfree; rewrite ?activation_free_list in Hfree;
    repeat match goal with
           | H : _ && _ = true |- _ => apply andb_true_iff in H; destruct H
           end;
    try discriminate.
  all: rewrite dictionary_of_entries, process_unfold; unfold entries_of.
  all: try (destruct system as [[s|]|]); try (destruct version as [v|]);
    try (destruct e as [e|]).
  all: cbn [dictionary_of app].
  all: unfold process_values; cbn [fold_left snd visit].
  all: rewrite ?visit_dictionary.
  all: try (cbn [get String.eqb Ascii.eqb Bool.eqb is_str]).
  all: try reflexivity.
  all: repeat match goal with
         | IH : activation_free ?n = true -> _, H : activation_free ?n = true |- _ =>
             rewrite (IH H); clear IH
         end.
  all: try reflexivity.
  all: try (apply process_items_free; assumption).
  destruct (String.eqb t "ContextActivation"); reflexivity.
Qed.


(** X17: [process_context_activation] on a context activation the parser
    built looks only at the expression in front of the ["!"]: a token of
    category C is pushed as a context, with its definition from the token
    dictionary; any other expression, also a token sequence, pushes
    nothing; the contexts named after the ["!"] are not read; the method
    returns [True]. *)
Theorem process_context_activation_pushes
        (stack : context_stack) (e context : node) (token_dictionary : dict (dict value)) :
  process_context_activation stack (dictionary_of (ContextActivation e context))
                             token_dictionary
  = (true, (stack ++ activated_by e token_dictionary)%list).
Proof.
  cbn [dictionary_of]. unfold process_context_activation. cbn [get String.eqb Ascii.eqb Bool.eqb].
  rewrite (dictionary_of_entries e).
  destruct e as [[[s|]|] x| id [v|] | | t n | | | | | | | | | | | | c i | p c i];
    unfold entries_of; cbn [dictionary_of app get String.eqb Ascii.eqb Bool.eqb is_str
                            _activate_single_context orb andb activated_by];
    rewrite ?app_nil_r; try reflexivity.
  - (* a version component, whose type is any string *)
    destruct (String.eqb t "TokenSequence"); [reflexivity|].
    now rewrite andb_false_r.
  - (* a standard token *)
    unfold get_or_none. cbn [get String.eqb Ascii.eqb Bool.eqb].
    destruct (String.eqb c "C"); [reflexivity | now rewrite app_nil_r].
  - (* a complex token *)
    unfold get_or_none. cbn [get String.eqb Ascii.eqb Bool.eqb].
    destruct (String.eqb c "C"); [reflexivity | now rewrite app_nil_r].
Qed.


(** The stack after [process_context_activation], with the empty token
    dictionary of [_process_context_activations]. *)
Lemma process_context_activation_stack stack e context :
  snd (process_context_activation stack (dictionary_of (ContextActivation e context)) [])
  = (stack ++ activated_by e [])%list.
Proof.
  cbn [dictionary_of]. unfold process_context_activation.
  cbn [get String.eqb Ascii.eqb Bool.eqb].
  rewrite (dictionary_of_entries e).
  destruct e as [[[s|]|] x| id [v|] | | t n | | | | | | | | | | | | c i | p c i];
    unfold entries_of; cbn [dictionary_of app get String.eqb Ascii.eqb Bool.eqb is_str
                            _activate_single_context orb andb activated_by snd];
    rewrite ?app_nil_r; try reflexivity.
  - destruct (String.eqb t "TokenSequence"); [reflexivity|].
    now rewrite andb_false_r.
  - unfold get_or_none. cbn [get String.eqb Ascii.eqb Bool.eqb].
    destruct (String.eqb c "C"); [reflexivity | now rewrite app_nil_r].
  - unfold get_or_none. cbn [get String.eqb Ascii.eqb Bool.eqb].
    destruct (String.eqb c "C"); [reflexivity | now rewrite app_nil_r].
Qed.

Lemma process_context_activation_node stack e context :
  activation_free e = true -> activation_free context = true ->
  _process_context_activations (dictionary_of (ContextActivation e context)) stack
  = (stack ++ activated_by e [])%list.
Proof.
  intros He Hc. rewrite dictionary_of_entries, process_unfold.
  rewrite <- dictionary_of_entries.
  replace (is_str (get (entries_of (ContextActivation e context)) "type") "ContextActivation")
    with true by reflexivity.
  rewrite process_context_activation_stack.
  unfold entries_of, process_values. cbn [dictionary_of fold_left snd visit].
  rewrite !visit_dictionary.
  rewrite (process_context_activations_free _ He).
  now rewrite (process_context_activations_free _ Hc).
Qed.

(** X18: decoding an input [e ! contexts] activates at most the token
    [e], and only when its category is C: the context manager ends with
    that one context, whose definition is empty, or with none; the tokens
    after the ["!"] and the system identifier of the input are not
    activated and no system context is set. *)
Theorem contextualize_context_activation
        (system : option (option node)) (e context : node) :
  match system with
  | Some (Some s) => activation_free s
  | _ => true
  end = true ->
  activation_free e = true -> activation_free context = true ->
  contextualize (PAILang system (ContextActivation e context))
  = Some {| contexts := activated_by e []; system_context := VNone |}.
Proof.
  intros Hs He Hc. unfold contextualize, apply_context.
  replace (is_str (get (entries_of (PAILang system (ContextActivation e context))) "type")
                  "PAILang") with true
    by (destruct system as [[s|]|]; reflexivity).
  replace (get (entries_of (PAILang system (ContextActivation e context))) "expression")
    with (Some (dictionary_of (ContextActivation e context)))
    by (destruct system as [[s|]|]; reflexivity).
  cbn [dictionary_of get String.eqb Ascii.eqb Bool.eqb is_str].
  f_equal. f_equal. cbn [contexts new_manager].
  change (VDict (entries_of (PAILang system (ContextActivation e context))))
    with (VDict (entries_of (PAILang system (ContextActivation e context)))).
  rewrite <- dictionary_of_entries, dictionary_of_entries, process_unfold.
  destruct system as [[s|]|]; unfold entries_of, process_values;
    cbn [dictionary_of app fold_left snd visit get String.eqb Ascii.eqb Bool.eqb is_str];
    rewrite ?visit_dictionary, ?(process_context_activations_free _ Hs);
    change (VDict [("type", VStr "ContextActivation");
                   ("expression", dictionary_of e); ("context", dictionary_of context)])
      with (dictionary_of (ContextActivation e context));
    now rewrite process_context_activation_node.
Qed.

Lemma contextualize_context_activation_witness :
  contextualize
    (PAILang (Some (Some (SystemIdentifier "A12" None)))
             (ContextActivation (StandardToken "T" "12")
                                (TokenSequence [StandardToken "C" "01";
                                                StandardToken "C" "02"])))
  = Some {| contexts := activated_by (StandardToken "T" "12") [];
            system_context := VNone |}
  /\ contextualize
       (PAILang None
                (ContextActivation (StandardToken "C" "01")
                                   (TokenSequence [StandardToken "T" "12";
                                                   StandardToken "T" "13"])))
     = Some {| contexts := activated_by (StandardToken "C" "01") [];
               system_context := VNone |}.
Proof.
  split; apply contextualize_context_activation; reflexivity.
Defined.



Lemma fold_binary_kind mk rest : forall first,
  (forall a b, expression_kind (mk a b) = true) ->
  expression_kind first = true ->
  expression_kind (fold_binary mk first rest) = true.
Proof.
  unfold fold_binary. induction rest as [|x rest IH]; intros first Hmk Hfirst; [assumption|].
  simpl. apply IH; auto.
Qed.

Lemma fold_conditional_kind rest : forall first,
  expression_kind first = true ->
  expression_kind (fold_conditional first rest) = true.
Proof.
  unfold fold_conditional.
  assert (H : forall n (rest : list node) first, (length rest <= n)%nat ->
            expression_kind first = true ->
            expression_kind
              ((fix go (result : node) (args : list node) {struct args} : node :=
                  match args with
                  | t :: f :: args' => go (ConditionalExpression result t f) args'
                  | _ => result
                  end) first rest) = true).
  { induction n as [|n IH]; intros l first Hlen Hfirst.
    - destruct l; [assumption | simpl in Hlen; lia].
    - destruct l as [|t [|f l]]; try assumption.
      apply IH; [simpl in Hlen; lia | reflexivity]. }
  intros first. apply (H (length rest)). lia.
Qed.

Lemma derives_expression_kind mp x ts vs :
  derives mp x ts vs -> Forall (fun v => expression_kind v = true) vs.
Proof.
  induction 1;
    repeat match goal with
           | H : Forall _ [_] |- _ => inversion H; subst; clear H
           end;
    repeat constructor; try assumption; try reflexivity.
  - now apply fold_binary_kind.
  - now apply fold_conditional_kind.
  - now apply fold_binary_kind.
  - now apply fold_binary_kind.
  - now apply fold_binary_kind.
  - unfold aggregation_of. destruct IHderives as [|v ? Hv [|]]; try reflexivity. exact Hv.
Qed.

(** X19: on no input that the parser accepts does [apply_context]
    fail or initialize the system context: the expression of a parsed
    input is never a system identifier. *)
Theorem contextualize_parsed (maybe_placeholders : bool) (input : string) (ast : node) :
  parses maybe_placeholders input ast ->
  exists m, contextualize ast = Some m /\ system_context m = VNone.
Proof.
  intros [ts [_ Hd]].
  assert (H : exists system v, ast = PAILang system v /\ expression_kind v = true).
  { destruct Hd as [ts v Hv | ts1 s ts2 v _ Hv];
      apply derives_expression_kind in Hv; inversion Hv; subst; eauto. }
  destruct H as [system [v [-> Hkind]]].
  unfold contextualize, apply_context.
  replace (is_str (get (entries_of (PAILang system v)) "type") "PAILang") with true
    by (destruct system as [[s|]|]; reflexivity).
  replace (get (entries_of (PAILang system v)) "expression")
    with (Some (dictionary_of v)) by (destruct system as [[s|]|]; reflexivity).
  rewrite (dictionary_of_entries v).
  replace (is_str (get (entries_of v) "type") "SystemIdentifier") with false
    by (destruct v; try discriminate; reflexivity).
  eexists. split; reflexivity.
Qed.

Lemma contextualize_parsed_witness :
  exists m,
    contextualize (PAILang (Some None)
                           (ConditionalExpression (StandardToken "C" "02")
                                                  (StandardToken "T" "13")
                                                  (StandardToken "T" "16")))
    = Some m
    /\ system_context m = VNone.
Proof.
  apply (@contextualize_parsed true "C02?T13:T16").
  apply (parse_two_digit_condition true).
Defined.

End DecoderProperties.

(* ================================================================== *)
(** * The parser: white space and short tokens *)
(* ================================================================== *)

Module PAILangParserProperties.
Import PAILangParser PAILangParserFacts RoundTripFacts.

Lemma drop_ws_blank s : all_chars is_ws s = true -> drop_ws s = "".
Proof.
  induction s as [|c s IH]; [reflexivity|]. simpl. intros H.
  apply andb_true_iff in H. destruct H as [Hc Hs]. rewrite Hc. auto.
Qed.

(** X20: an input made of white space only (the empty input included) is
    rejected by [parse]: the grammar has no empty expression. *)
Theorem parse_rejects_blank (input : string) :
  all_chars is_ws input = true -> rejected input.
Proof.
  intros H. apply rejected_by_start.
  unfold string_starts_pailang, string_starts_expression, after.
  rewrite (drop_ws_blank _ H). reflexivity.
Qed.

Lemma parse_rejects_blank_witness : rejected "" /\ rejected "  ".
Proof. split; apply parse_rejects_blank; reflexivity. Defined.

Lemma follows_token_facts x :
  follows_token x = true ->
  is_ws x = false /\ PyStr.is_upper x = false /\ PyStr.is_digit x = false
  /\ Ascii.eqb x "[" = false /\ Ascii.eqb x "#" = false.
Proof.
  unfold follows_token. simpl. intros H.
  repeat (apply orb_true_iff in H; destruct H as [H|H];
          [apply Ascii.eqb_eq in H; subst; repeat split; reflexivity|]).
  discriminate.
Qed.

Lemma upper_facts c :
  PyStr.is_upper c = true ->
  is_ws c = false /\ PyStr.is_digit c = false
  /\ Ascii.eqb c "[" = false /\ Ascii.eqb c "#" = false.
Proof.
  destruct c as [[] [] [] [] [] [] [] []]; vm_compute; intros; try discriminate; auto.
Qed.

Lemma digit_facts d :
  PyStr.is_digit d = true ->
  is_ws d = false /\ PyStr.is_upper d = false /\ is_category_code d = false
  /\ Ascii.eqb d "[" = false /\ Ascii.eqb d "#" = false /\ Ascii.eqb d "B" = false.
Proof.
  destruct d as [[] [] [] [] [] [] [] []]; vm_compute; intros; try discriminate;
    repeat split; reflexivity.
Qed.

Lemma not_upper_not_code c : PyStr.is_upper c = false -> is_category_code c = false.
Proof.
  intros H. destruct (is_category_code c) eqn:E; [|reflexivity].
  apply category_code_upper in E. congruence.
Qed.

(** No expression starts with a character that follows a token. *)
Lemma follower_starts_nothing x rest :
  follows_token x = true ->
  string_starts_expression (String x rest) = false
  /\ after DIGIT (String x rest) = [].
Proof.
  intros H. destruct (follows_token_facts _ H) as [Hws [Hup [Hdig [Hb Hh]]]].
  assert (HB : Ascii.eqb x "B" = false).
  { destruct (Ascii.eqb x "B") eqn:E; [|reflexivity].
    apply Ascii.eqb_eq in E. subst. discriminate. }
  pose proof (not_upper_not_code _ Hup) as Hcode.
  unfold string_starts_expression, after.
  cbn [drop_ws]. rewrite Hws.
  cbn [lengths flat_map split_at matches String.length Nat.eqb all_chars app andb
       String.eqb].
  rewrite Hcode, Hdig, Hb, Hh, HB. cbn [andb existsb orb nonempty app].
  split; [|reflexivity].
  destruct rest as [|y [|z rest]];
    cbn [split_at matches String.length Nat.eqb all_chars app andb orb flat_map];
    rewrite ?Hup; cbn [andb app existsb orb]; reflexivity.
Qed.


Lemma after_alpha c r : PyStr.is_upper c = true -> after ALPHA_CHAR (String c r) = [r].
Proof.
  intros Hc. destruct (upper_facts _ Hc) as [Hws _].
  unfold after. cbn [drop_ws]. rewrite Hws.
  cbn [lengths flat_map split_at matches String.length Nat.eqb all_chars app andb].
  now rewrite Hc.
Qed.

Lemma after_digit d r : PyStr.is_digit d = true -> after DIGIT (String d r) = [r].
Proof.
  intros Hd. destruct (digit_facts _ Hd) as [Hws _].
  unfold after. cbn [drop_ws]. rewrite Hws.
  cbn [lengths flat_map split_at matches String.length Nat.eqb all_chars app andb].
  now rewrite Hd.
Qed.

(** X22: a letter other than B followed by one digit only is no token
    and no complete input: alone, or followed by an operator character,
    [","] or ["]"], it is rejected (an identifier has two digits, and a
    system identifier needs an expression behind it). *)
Theorem parse_rejects_one_digit_token (c d x : ascii) (rest : string) :
  PyStr.is_upper c = true -> c <> "B"%char -> PyStr.is_digit d = true ->
  follows_token x = true ->
  rejected (String c (String d EmptyString))
  /\ rejected (String c (String d (String x rest))).
Proof.
  intros Hc HB Hd Hx.
  destruct (upper_facts _ Hc) as [Hcws [Hcdig [Hcb Hch]]].
  destruct (digit_facts _ Hd) as [Hdws [Hdup [Hdcode [Hdb [Hdh HdB]]]]].
  destruct (follows_token_facts _ Hx) as [Hxws [Hxup [Hxdig [Hxb Hxh]]]].
  assert (HcB : Ascii.eqb c "B" = false).
  { destruct (Ascii.eqb c "B") eqn:E; [|reflexivity].
    apply Ascii.eqb_eq in E. contradiction. }
  split; apply rejected_by_start.
  - unfold string_starts_pailang, string_starts_expression, after.
    cbn [drop_ws]. rewrite Hcws.
    cbn [lengths flat_map split_at matches String.length Nat.eqb all_chars app andb
         String.eqb orb].
    rewrite Hc, Hcb, Hch, HcB, Hdup.
    cbn [andb app existsb orb nonempty flat_map drop_ws].
    rewrite Hdws.
    cbn [lengths flat_map split_at matches String.length Nat.eqb all_chars app andb
         String.eqb orb].
    rewrite Hd.
    destruct (is_category_code c);
      cbn [andb app existsb orb nonempty flat_map drop_ws split_at lengths];
      rewrite ?Hdws;
      cbn [andb app existsb orb nonempty flat_map drop_ws split_at lengths];
      reflexivity.
  - destruct (@follower_starts_nothing x rest Hx) as [Hse Had].
    unfold string_starts_pailang.
    assert (H1 : string_starts_expression (String c (String d (String x rest))) = false).
    { unfold string_starts_expression, after.
      cbn [drop_ws]. rewrite Hcws.
      cbn [lengths flat_map split_at matches String.length Nat.eqb all_chars app andb
           String.eqb orb].
      rewrite Hc, Hcb, Hch, HcB, Hdup.
      cbn [andb app existsb orb nonempty flat_map drop_ws].
      destruct (is_category_code c);
        cbn [andb app existsb orb nonempty flat_map drop_ws split_at lengths];
        rewrite ?Hdws;
        cbn [lengths flat_map split_at matches String.length Nat.eqb all_chars app andb
             String.eqb orb];
        rewrite ?Hd, ?Hxdig; reflexivity. }
    rewrite H1, (@after_alpha c _ Hc). cbn [orb existsb].
    rewrite (@after_digit d _ Hd). cbn [existsb].
    rewrite Hse, Had. reflexivity.
Qed.

Lemma parse_rejects_one_digit_token_witness :
  rejected "T1" /\ rejected "T1>T22".
Proof.
  apply (@parse_rejects_one_digit_token "T" "1" ">" "T22");
    [reflexivity | discriminate | reflexivity | reflexivity].
Defined.

(** No input starts with a character that follows a token. *)
Lemma follower_starts_no_input x rest :
  follows_token x = true -> string_starts_pailang (String x rest) = false.
Proof.
  intros H. destruct (@follower_starts_nothing x rest H) as [Hse _].
  destruct (follows_token_facts _ H) as [Hws [Hup _]].
  assert (Ha : after ALPHA_CHAR (String x rest) = []).
  { unfold after. cbn [drop_ws]. rewrite Hws.
    cbn [lengths flat_map split_at matches String.length Nat.eqb all_chars app andb].
    now rewrite Hup. }
  unfold string_starts_pailang. now rewrite Hse, Ha.
Qed.

(** Whatever its count and its expression, a repetition node is rendered
    to a string that starts with ["**"], on which [parse] raises. *)
Lemma rendered_repetition_rejected count expression :
  rejected (ExpressionSynthesizer.synthesize_from_tree
              (Some (ExpressionSynthesizer.repetition count expression))).
Proof.
  apply rejected_by_start.
  cbn [ExpressionSynthesizer.synthesize_from_tree ExpressionSynthesizer.render].
  change ("**" ++ ?s) with (String "*" (String "*" s)).
  now apply follower_starts_no_input.
Qed.

End PAILangParserProperties.

(* ================================================================== *)
(** * The structure synthesizer: operators, brackets, relationships *)
(* ================================================================== *)

Module StructureSynthesizerProperties.
Import Dict StructureSynthesizer.
Import PAILangParser PAILangParserFacts PAILangParserProperties.

Lemma without_contains a sub s :
  PyStr.without a s = true -> PyStr.contains (String a sub) s = false.
Proof.
  induction s as [|x r IH]; intros H; [reflexivity|].
  cbn [PyStr.without] in H. apply andb_true_iff in H. destruct H as [Hx Hr].
  cbn [PyStr.contains String.prefix].
  destruct (ascii_dec a x) as [->|_].
  - rewrite Ascii.eqb_refl in Hx. discriminate.
  - auto.
Qed.

Lemma prefix_app sub b : String.prefix sub (sub ++ b) = true.
Proof.
  induction sub as [|a sub IH]; [now destruct b|].
  cbn [append String.prefix]. destruct (ascii_dec a a); [assumption | congruence].
Qed.

Lemma contains_app sub a b : PyStr.contains sub (a ++ sub ++ b) = true.
Proof.
  induction a as [|x a IH].
  - cbn [append]. destruct (sub ++ b) eqn:E; cbn [PyStr.contains];
      rewrite <- E, prefix_app; reflexivity.
  - cbn [append PyStr.contains]. rewrite IH. now destruct (String.prefix _ _).
Qed.

Lemma keys_start k :
  In k (keys operator_precedence) ->
  exists c sub, k = String c sub /\ In c operator_characters.
Proof.
  cbn. intros H.
  repeat (destruct H as [<-|H]; [eexists; eexists; split; [reflexivity|cbn; tauto]|]).
  contradiction.
Qed.

Lemma plain_without t c : plain t = true -> In c operator_characters -> PyStr.without c t = true.
Proof.
  unfold plain. rewrite forallb_forall. auto.
Qed.

Lemma plain_contains t k :
  plain t = true -> In k (keys operator_precedence) -> PyStr.contains k t = false.
Proof.
  intros Hp Hk. destruct (keys_start Hk) as [c [sub [-> Hc]]].
  apply without_contains. now apply plain_without.
Qed.

(** A token without operator characters is never put in brackets. *)
Lemma needs_brackets_plain t op : plain t = true -> _needs_brackets t op = false.
Proof.
  intros Hp. unfold _needs_brackets.
  match goal with |- (if ?c then _ else _) = _ => destruct c end; [reflexivity|].
  match goal with |- ?e = false => destruct e eqn:E end; [|reflexivity].
  apply existsb_exists in E. destruct E as [k [Hk E]].
  rewrite (@plain_contains t k Hp Hk) in E. discriminate.
Qed.


Lemma existsb_ext_in {A} (f g : A -> bool) l :
  (forall x, In x l -> f x = g x) -> existsb f l = existsb g l.
Proof.
  induction l as [|a l IH]; intros H; [reflexivity|].
  cbn [existsb]. rewrite (H a) by now left. rewrite IH; [reflexivity|].
  intros x Hx. apply H. now right.
Qed.

Lemma binary_operator_char op :
  In op binary_operators ->
  exists o, op = String o EmptyString /\ In o operator_characters.
Proof.
  cbn. intros H.
  repeat (destruct H as [<-|H]; [eexists; split; [reflexivity|cbn; tauto]|]).
  contradiction.
Qed.

(** Which operators occur in two plain operands joined by a binary
    operator: that operator only. *)
Lemma contains_key k a op b :
  In k (keys operator_precedence) -> In op binary_operators ->
  plain a = true -> plain b = true ->
  PyStr.contains k (a ++ op ++ b) = String.eqb k op.
Proof.
  intros Hk Hop Ha Hb. cbn in Hk, Hop.
  repeat (destruct Hk as [<-|Hk]; [|]); try contradiction;
    (repeat (destruct Hop as [<-|Hop]; [|]); try contradiction);
    cbn [String.eqb Ascii.eqb Bool.eqb andb];
    try apply contains_app;
    (apply without_contains; rewrite ContextManagerProperties.without_app;
     cbn [append PyStr.without Ascii.eqb Bool.eqb negb andb];
     rewrite !plain_without by (assumption || (cbn; tauto)); reflexivity).
Qed.

Lemma apply_operator_binary op right_operand left_operand below :
  In op binary_operators ->
  apply_operator op (right_operand :: left_operand :: below)
  = (bracket (_needs_brackets left_operand op) left_operand ++ op
       ++ bracket (_needs_brackets right_operand op) right_operand) :: below.
Proof.
  cbn. intros H.
  repeat (destruct H as [<-|H]; [reflexivity|]). contradiction.
Qed.

(** Two plain operands joined by a binary operator are put in brackets
    under a parent operator exactly when the parent binds tighter. *)
Lemma needs_brackets_group a op1 b op2 :
  In op1 binary_operators -> In op2 binary_operators ->
  plain a = true -> plain b = true ->
  _needs_brackets (a ++ op1 ++ b) op2
  = (_get_operator_precedence op1 <? _get_operator_precedence op2)%N.
Proof.
  intros H1 H2 Ha Hb. unfold _needs_brackets.
  assert (Hne : String.eqb (a ++ op1 ++ b) "" = false).
  { destruct (binary_operator_char H1) as [o [-> _]]. now destruct a. }
  assert (Hex : existsb (fun op => PyStr.contains op (a ++ op1 ++ b))
                        (keys operator_precedence) = true).
  { apply existsb_exists. exists op1. split; [|apply contains_app].
    cbn in H1 |- *. tauto. }
  rewrite Hne, Hex, andb_false_r. cbn [orb negb].
  rewrite (existsb_ext_in
             (fun op => PyStr.contains op (a ++ op1 ++ b) && negb (String.eqb op op2)
                        && (get_default operator_precedence op 0
                            <? get_default operator_precedence op2 0)%N)
             (fun op => String.eqb op op1 && negb (String.eqb op op2)
                        && (get_default operator_precedence op 0
                            <? get_default operator_precedence op2 0)%N)).
  - cbn in H1, H2.
    repeat (destruct H1 as [<-|H1]; [|]); try contradiction;
      (repeat (destruct H2 as [<-|H2]; [|]); try contradiction);
      vm_compute; reflexivity.
  - intros k Hk. now rewrite (@contains_key k a op1 b Hk H1 Ha Hb).
Qed.


Lemma synthesize_elements sa s first others :
  structure sa = Some s -> elements s = first :: others ->
  synthesize sa = _build_expression (_apply_shunting_yard (first :: others)).
Proof.
  intros Hs He. unfold synthesize, _convert_to_expression_elements.
  rewrite Hs, He. reflexivity.
Qed.

Lemma synthesize_relationship sa s r first others :
  structure sa = Some s -> elements s = [] -> relationships s = [r] ->
  relationship_elements (token_mappings sa) r = first :: others ->
  synthesize sa = _build_expression (_apply_shunting_yard (first :: others)).
Proof.
  intros Hs He Hr Hc. unfold synthesize, _convert_to_expression_elements.
  rewrite Hs, He, Hr. cbn [flat_map]. rewrite app_nil_r, Hc. reflexivity.
Qed.

(** X23: a group of two plain tokens in brackets keeps its brackets in the
    output exactly when its operator has a lower precedence than the
    operator outside; this holds for a group on the left and for a group
    on the right of the outer operator. *)
Theorem synthesize_bracketed_group
        (sa : semantic_analysis) (s : semantic_structure)
        (a b c op1 op2 : string) :
  structure sa = Some s ->
  In op1 binary_operators -> In op2 binary_operators ->
  plain a = true -> plain b = true -> plain c = true ->
  let tighter := (_get_operator_precedence op1 <? _get_operator_precedence op2)%N in
  (elements s = [Operator "["; Token (Some a); Operator op1; Token (Some b);
                 Operator "]"; Operator op2; Token (Some c)] ->
   synthesize sa = Some (bracket tighter (a ++ op1 ++ b) ++ op2 ++ c))
  /\ (elements s = [Token (Some a); Operator op2; Operator "["; Token (Some b);
                    Operator op1; Token (Some c); Operator "]"] ->
      synthesize sa = Some (a ++ op2 ++ bracket tighter (b ++ op1 ++ c))).
Proof.
  intros Hs H1 H2 Ha Hb Hc tighter. split; intros He.
  - rewrite (synthesize_elements _ Hs He).
    assert (Hsy : _apply_shunting_yard
                    [Operator "["; Token (Some a); Operator op1; Token (Some b);
                     Operator "]"; Operator op2; Token (Some c)]
                  = [Token (Some a); Token (Some b); Operator op1;
                     Token (Some c); Operator op2]).
    { clear -H1 H2. cbn in H1, H2.
      repeat (destruct H1 as [<-|H1]; [|]); try contradiction;
        (repeat (destruct H2 as [<-|H2]; [|]); try contradiction); reflexivity. }
    rewrite Hsy. unfold _build_expression. cbn [build push_element].
    rewrite (apply_operator_binary _ _ _ H1). cbn [build push_element].
    rewrite (apply_operator_binary _ _ _ H2).
    rewrite (@needs_brackets_plain a op1 Ha), (@needs_brackets_plain b op1 Hb),
      (@needs_brackets_plain c op2 Hc).
    cbn [bracket].
    rewrite (@needs_brackets_group a op1 b op2 H1 H2 Ha Hb). reflexivity.
  - rewrite (synthesize_elements _ Hs He).
    assert (Hsy : _apply_shunting_yard
                    [Token (Some a); Operator op2; Operator "["; Token (Some b);
                     Operator op1; Token (Some c); Operator "]"]
                  = [Token (Some a); Token (Some b); Token (Some c);
                     Operator op1; Operator op2]).
    { clear -H1 H2. cbn in H1, H2.
      repeat (destruct H1 as [<-|H1]; [|]); try contradiction;
        (repeat (destruct H2 as [<-|H2]; [|]); try contradiction); reflexivity. }
    rewrite Hsy. unfold _build_expression. cbn [build push_element].
    rewrite (apply_operator_binary _ _ _ H1). cbn [build push_element].
    rewrite (apply_operator_binary _ _ _ H2).
    rewrite (@needs_brackets_plain a op2 Ha), (@needs_brackets_plain b op1 Hb),
      (@needs_brackets_plain c op1 Hc).
    cbn [bracket].
    rewrite (@needs_brackets_group b op1 c op2 H1 H2 Hb Hc). reflexivity.
Qed.


Lemma synthesize_bracketed_group_witness :
  synthesize (elements_only [Operator "["; Token (Some "T12"); Operator ">";
                             Token (Some "T13"); Operator "]"; Operator "&";
                             Token (Some "T14")])
  = Some "[T12>T13]&T14".
Proof.
  refine (proj1 (@synthesize_bracketed_group
                   (elements_only [Operator "["; Token (Some "T12"); Operator ">";
                                   Token (Some "T13"); Operator "]"; Operator "&";
                                   Token (Some "T14")])
                   _ "T12" "T13" "T14" ">" "&" eq_refl _ _ eq_refl eq_refl eq_refl)
                eq_refl); cbn; auto.
Defined.

(** ** Chains of one operator *)

Lemma plain_only o t : plain t = true -> only_operator o t.
Proof. intros H c Hc _. now apply plain_without. Qed.

Lemma only_operator_join o a b :
  only_operator o a -> only_operator o b ->
  only_operator o (a ++ String o EmptyString ++ b).
Proof.
  intros Ha Hb c Hc Hne. rewrite ContextManagerProperties.without_app. cbn [append PyStr.without].
  rewrite (Ha c Hc Hne), (Hb c Hc Hne).
  destruct (Ascii.eqb o c) eqn:E; [|reflexivity].
  apply Ascii.eqb_eq in E. congruence.
Qed.

Lemma needs_brackets_same o s :
  In (String o EmptyString) binary_operators -> only_operator o s ->
  _needs_brackets s (String o EmptyString) = false.
Proof.
  intros Hop Hs. unfold _needs_brackets.
  match goal with |- (if ?c then _ else _) = _ => destruct c end; [reflexivity|].
  match goal with |- ?e = false => destruct e eqn:E end; [|reflexivity].
  apply existsb_exists in E. destruct E as [k [Hk E]].
  destruct (String.eqb k (String o EmptyString)) eqn:Ek.
  - rewrite andb_false_r in E. discriminate.
  - destruct (keys_start Hk) as [c [sub [-> Hc]]].
    rewrite without_contains in E; [discriminate|].
    apply Hs; [assumption|]. intros ->.
    clear -Hk Hop Ek. cbn in Hk, Hop.
    repeat (destruct Hk as [Hk|Hk]; [|]); try contradiction;
      inversion Hk; subst;
      (repeat (destruct Hop as [Hop|Hop]; [|]); try contradiction);
      try discriminate; inversion Hop; subst; discriminate.
Qed.


Lemma loop_token recurse all i v rest out stack :
  shunting_yard_loop recurse all i (Token v :: rest) out stack
  = shunting_yard_loop recurse all (S i) rest (out ++ [Token v]) stack.
Proof. reflexivity. Qed.

Lemma loop_operator_left op :
  In op [">"; "&"; "|"] ->
  forall recurse all i rest out,
    shunting_yard_loop recurse all i (Operator op :: rest) out [op]
    = shunting_yard_loop recurse all (S i) rest (out ++ [Operator op]) [op]
    /\ shunting_yard_loop recurse all i (Operator op :: rest) out []
       = shunting_yard_loop recurse all (S i) rest out [op].
Proof.
  cbn. intros H.
  repeat (destruct H as [<-|H]; [split; reflexivity|]). contradiction.
Qed.

Lemma loop_chain_left op rest :
  In op [">"; "&"; "|"] ->
  forall recurse all i out,
    shunting_yard_loop recurse all i (flat_map (item op) rest) out [op]
    = (out ++ flat_map (item op) rest ++ [Operator op])%list.
Proof.
  intros Hop. induction rest as [|t rest IH]; intros recurse all i out.
  - reflexivity.
  - cbn [flat_map item app].
    rewrite (proj1 (loop_operator_left Hop recurse all i _ out)).
    rewrite loop_token, IH. now rewrite <- !app_assoc.
Qed.

Lemma build_token v queue stack :
  build (Token (Some v) :: queue) stack = build queue (v :: stack).
Proof. reflexivity. Qed.

Lemma build_operator op queue stack :
  build (Operator op :: queue) stack = build queue (apply_operator op stack).
Proof. reflexivity. Qed.

Lemma concat_cons sep x y l :
  String.concat sep (x :: y :: l) = x ++ sep ++ String.concat sep (y :: l).
Proof. reflexivity. Qed.

Lemma build_chain_left o rest :
  In (String o EmptyString) binary_operators ->
  forall acc r,
    only_operator o acc -> plain r = true -> forallb plain rest = true ->
    build (flat_map (item (String o EmptyString)) rest ++ [Operator (String o EmptyString)])
          [r; acc]
    = Some (String.concat (String o EmptyString) (acc :: r :: rest)).
Proof.
  intros Hop. induction rest as [|t rest IH]; intros acc r Hacc Hr Hrest.
  - cbn [flat_map app]. rewrite build_operator, (apply_operator_binary _ _ _ Hop).
    rewrite (needs_brackets_same Hop Hacc), (@needs_brackets_plain r _ Hr).
    reflexivity.
  - cbn [forallb] in Hrest. apply andb_true_iff in Hrest. destruct Hrest as [Ht Hrest].
    cbn [flat_map item app].
    rewrite build_operator, (apply_operator_binary _ _ _ Hop), build_token.
    rewrite (needs_brackets_same Hop Hacc), (@needs_brackets_plain r _ Hr).
    cbn [bracket].
    rewrite IH; [| apply only_operator_join; [assumption | now apply plain_only]
                 | assumption | assumption].
    rewrite !concat_cons. now rewrite !RoundTripFacts.append_assoc.
Qed.


Lemma loop_operator_right k recurse all i rest out :
  shunting_yard_loop recurse all i (Operator "=" :: rest) out (repeat "=" k)
  = shunting_yard_loop recurse all (S i) rest out (repeat "=" (S k)).
Proof. destruct k; reflexivity. Qed.

Lemma loop_chain_right rest :
  forall recurse all i out k,
    shunting_yard_loop recurse all i (flat_map (item "=") rest) out (repeat "=" k)
    = (out ++ map (fun t => Token (Some t)) rest
           ++ repeat (Operator "=") (length rest + k))%list.
Proof.
  induction rest as [|t rest IH]; intros recurse all i out k.
  - cbn [flat_map map length Nat.add app shunting_yard_loop].
    now rewrite map_repeat.
  - cbn [flat_map item app].
    rewrite loop_operator_right, loop_token, IH.
    cbn [map length]. rewrite <- app_assoc. cbn [app].
    now rewrite Nat.add_succ_r.
Qed.

Lemma build_token_list vs : forall queue stack,
  build (map (fun t => Token (Some t)) vs ++ queue) stack
  = build queue (rev vs ++ stack)%list.
Proof.
  induction vs as [|v vs IH]; intros queue stack; [reflexivity|].
  cbn [map app rev]. rewrite build_token, IH. now rewrite <- app_assoc.
Qed.

Lemma concat_snoc sep xs a b :
  String.concat sep (xs ++ [a ++ sep ++ b]) = String.concat sep (xs ++ [a; b]).
Proof.
  induction xs as [|x xs IH]; [reflexivity|].
  cbn [app]. destruct xs as [|y xs].
  - reflexivity.
  - cbn [app] in *. rewrite !concat_cons. now rewrite IH.
Qed.

Lemma build_assign below :
  forall r,
    forallb plain below = true -> only_operator "=" r ->
    build (repeat (Operator "=") (length below)) (r :: below)
    = Some (String.concat "=" (rev below ++ [r])).
Proof.
  induction below as [|l below IH]; intros r Hb Hr; [reflexivity|].
  cbn [forallb] in Hb. apply andb_true_iff in Hb. destruct Hb as [Hl Hb].
  cbn [length repeat rev].
  rewrite build_operator.
  rewrite (@apply_operator_binary "=" r l below) by (cbn; tauto).
  rewrite (@needs_brackets_plain l _ Hl).
  rewrite (@needs_brackets_same "=" r) by (cbn; tauto || assumption).
  cbn [bracket].
  rewrite IH; [| assumption
               | apply (@only_operator_join "=" l r); [now apply plain_only | assumption]].
  rewrite <- app_assoc. cbn [app]. f_equal. apply concat_snoc.
Qed.


Lemma build_assign_rev v vs :
  forallb plain (v :: vs) = true ->
  build (repeat (Operator "=") (length vs)) (rev (v :: vs))
  = Some (String.concat "=" (v :: vs)).
Proof.
  intros Hp. destruct (rev (v :: vs)) as [|r below] eqn:E.
  - apply (f_equal (@length _)) in E. rewrite length_rev in E. discriminate.
  - assert (Hrev : (rev below ++ [r])%list = v :: vs).
    { change (rev below ++ [r])%list with (rev (r :: below)).
      now rewrite <- E, rev_involutive. }
    assert (Hlen : length vs = length below).
    { apply (f_equal (@length _)) in E. rewrite length_rev in E. cbn in E. lia. }
    assert (Hall : forall x, In x (r :: below) -> plain x = true).
    { intros x Hx. rewrite forallb_forall in Hp. apply Hp.
      apply in_rev. now rewrite E. }
    rewrite Hlen, build_assign, Hrev; [reflexivity | |].
    + apply forallb_forall. intros x Hx. apply Hall. now right.
    + apply plain_only. apply Hall. now left.
Qed.

(** X24: a chain of plain tokens joined by one binary operator (with the
    direct element list [t0, op, t1, ..., op, tn]) is written back in
    order, joined by the operator, without brackets. *)
Theorem synthesize_chain
        (sa : semantic_analysis) (s : semantic_structure)
        (op first : string) (others : list string) :
  structure sa = Some s ->
  elements s = chain op first others ->
  In op binary_operators ->
  plain first = true -> forallb plain others = true ->
  synthesize sa = Some (String.concat op (first :: others)).
Proof.
  intros Hs He Hop Hfirst Hothers.
  rewrite (synthesize_elements _ Hs He).
  unfold _apply_shunting_yard, _build_expression. cbn [shunting_yard].
  rewrite loop_token. cbn [app].
  destruct others as [|t rest]; [reflexivity|].
  cbn [forallb] in Hothers. apply andb_true_iff in Hothers.
  destruct Hothers as [Ht Hrest].
  cbn [flat_map item app].
  assert (Hcases : In op [">"; "&"; "|"] \/ op = "=") by (cbn in Hop |- *; intuition (auto; congruence)).
  destruct Hcases as [Hleft | ->].
  - rewrite (proj2 (loop_operator_left Hleft _ _ _ _ _)), loop_token.
    rewrite (loop_chain_left _ Hleft). cbn [app].
    rewrite !build_token.
    destruct (binary_operator_char Hop) as [o [-> _]].
    apply build_chain_left; [assumption | now apply plain_only | assumption | assumption].
  - rewrite (@loop_operator_right 0), loop_token.
    rewrite (@loop_chain_right rest _ _ _ _ 1). cbn [app].
    change (Token (Some first) :: Token (Some t) :: map (fun t0 => Token (Some t0)) rest
              ++ repeat (Operator "=") (length rest + 1))%list
      with (map (fun t0 => Token (Some t0)) (first :: t :: rest)
              ++ repeat (Operator "=") (length rest + 1))%list.
    rewrite build_token_list, app_nil_r.
    replace (length rest + 1)%nat with (length (t :: rest)) by (cbn; lia).
    apply build_assign_rev. cbn [forallb]. now rewrite Hfirst, Ht, Hrest.
Qed.

Lemma synthesize_chain_witness :
  synthesize (elements_only (chain ">" "T12" ["T13"; "T14"])) = Some "T12>T13>T14".
Proof.
  apply (@synthesize_chain (elements_only (chain ">" "T12" ["T13"; "T14"])) _
                           ">" "T12" ["T13"; "T14"] eq_refl eq_refl);
    [cbn; auto | reflexivity | reflexivity].
Defined.


(** ** Relationships *)

(** X25: a repetition relationship is written with the operator in
    front, as ["**"], the count and the token, which [parse] rejects (the
    grammar puts ["**"] and the count behind the expression). *)
Theorem synthesize_repetition
        (sa : semantic_analysis) (s : semantic_structure)
        (expression : option string) (count : option N) (t : token_entry) :
  structure sa = Some s -> elements s = [] ->
  relationships s = [RepetitionRel expression count] ->
  find_token (token_mappings sa) expression = Some t -> t <> [] ->
  plain (get_default t "token" "") = true ->
  let text := "**" ++ PyStr.str (match count with Some c => c | None => 1%N end)
                   ++ get_default t "token" "" in
  synthesize sa = Some text /\ rejected text.
Proof.
  intros Hs He Hr Hf Ht Hp text. split.
  - rewrite (@synthesize_relationship sa s _
               (token_element t)
               [Operator "**";
                Token (Some (PyStr.str (match count with Some c => c | None => 1%N end)))]
               Hs He Hr).
    + unfold _apply_shunting_yard, _build_expression, token_element.
      cbn [length shunting_yard shunting_yard_loop].
      change (build [Token (Some (get_default t "token" ""));
                     Token (Some (PyStr.str (match count with Some c => c | None => 1%N end)));
                     Operator "**"] [] = Some text).
      rewrite !build_token, build_operator.
      change (apply_operator "**" ?st) with
        (match st with
         | cnt :: e :: below => ("**" ++ cnt ++ bracket (_needs_brackets e "**") e) :: below
         | _ => st
         end).
      cbn iota. rewrite (@needs_brackets_plain _ "**" Hp). reflexivity.
    + cbn [relationship_elements]. rewrite Hf. now destruct t.
  - apply rejected_by_start. apply follower_starts_no_input. reflexivity.
Qed.


Lemma synthesize_repetition_witness :
  let sa := one_relationship [("t1", [("source", "load"); ("token", "T12")])]
                             (RepetitionRel (Some "load") (Some 3%N)) in
  synthesize sa = Some "**3T12" /\ rejected "**3T12".
Proof.
  refine (@synthesize_repetition
            (one_relationship [("t1", [("source", "load"); ("token", "T12")])]
                              (RepetitionRel (Some "load") (Some 3%N)))
            _ (Some "load") (Some 3%N) [("source", "load"); ("token", "T12")]
            eq_refl eq_refl eq_refl eq_refl _ eq_refl).
  discriminate.
Defined.

(** X26: a conditional relationship whose condition and true branch are
    found is written [c?t:f] when the false branch is found as well;
    without it the result is the condition token alone. *)
Theorem synthesize_conditional
        (sa : semantic_analysis) (s : semantic_structure)
        (condition trueBranch falseBranch : option string)
        (condition_token true_token : token_entry) :
  structure sa = Some s -> elements s = [] ->
  relationships s = [ConditionalRel condition trueBranch falseBranch] ->
  find_token (token_mappings sa) condition = Some condition_token ->
  condition_token <> [] ->
  find_token (token_mappings sa) trueBranch = Some true_token ->
  true_token <> [] ->
  synthesize sa
  = Some (match find_token (token_mappings sa) falseBranch with
          | Some ((_ :: _) as false_token) =>
              get_default condition_token "token" "" ++ "?"
                ++ get_default true_token "token" "" ++ ":"
                ++ get_default false_token "token" ""
          | _ => get_default condition_token "token" ""
          end).
Proof.
  intros Hs He Hr Hc Hcne Ht Htne.
  unfold synthesize, _convert_to_expression_elements.
  rewrite Hs, He, Hr. cbn [flat_map relationship_elements].
  rewrite Hc, Ht.
  destruct condition_token as [|c0 c]; [congruence|].
  destruct true_token as [|t0 t]; [congruence|].
  destruct (find_token (token_mappings sa) falseBranch) as [[|f0 f]|]; reflexivity.
Qed.

Lemma synthesize_conditional_witness :
  synthesize (one_relationship
                [("t1", [("source", "ready"); ("token", "C02")]);
                 ("t2", [("source", "run"); ("token", "T13")]);
                 ("t3", [("source", "wait"); ("token", "T16")])]
                (ConditionalRel (Some "ready") (Some "run") (Some "wait")))
  = Some "C02?T13:T16"
  /\ synthesize (one_relationship
                   [("t1", [("source", "ready"); ("token", "C02")]);
                    ("t2", [("source", "run"); ("token", "T13")])]
                   (ConditionalRel (Some "ready") (Some "run") None))
     = Some "C02".
Proof.
  split.
  - refine (@synthesize_conditional
              (one_relationship
                 [("t1", [("source", "ready"); ("token", "C02")]);
                  ("t2", [("source", "run"); ("token", "T13")]);
                  ("t3", [("source", "wait"); ("token", "T16")])]
                 (ConditionalRel (Some "ready") (Some "run") (Some "wait")))
              _ _ _ _ _ _ eq_refl eq_refl eq_refl eq_refl _ eq_refl _); discriminate.
  - refine (@synthesize_conditional
              (one_relationship
                 [("t1", [("source", "ready"); ("token", "C02")]);
                  ("t2", [("source", "run"); ("token", "T13")])]
                 (ConditionalRel (Some "ready") (Some "run") None))
              _ _ _ _ _ _ eq_refl eq_refl eq_refl eq_refl _ eq_refl _); discriminate.
Defined.

(** ** Aggregation *)

Lemma loop_aggregated others :
  forall recurse all i out,
    shunting_yard_loop recurse all i
      (flat_map (fun t => [Operator ","; token_element t]) others ++ [Operator "]"])
      out ["["; "#"]
    = (out ++ map token_element others ++ [Operator "#"])%list.
Proof.
  induction others as [|t others IH]; intros recurse all i out; [reflexivity|].
  cbn [flat_map app map].
  change (shunting_yard_loop recurse all i
            (Operator "," :: token_element t :: ?rest) out ["["; "#"])
    with (shunting_yard_loop recurse all (S (S i)) rest (out ++ [token_element t])
                             ["["; "#"]).
  rewrite IH. now rewrite <- app_assoc.
Qed.

(** X27: an aggregation relationship of one token is written ["#"] and
    the token, without brackets; with more tokens the result is the first
    token alone. *)
Theorem synthesize_aggregation
        (sa : semantic_analysis) (s : semantic_structure)
        (expressions : list (option string))
        (first : token_entry) (others : list token_entry) :
  structure sa = Some s -> elements s = [] ->
  relationships s = [AggregationRel expressions] ->
  aggregated_tokens (token_mappings sa) expressions = first :: others ->
  synthesize sa
  = Some (match others with
          | [] => "#" ++ get_default first "token" ""
          | _ :: _ => get_default first "token" ""
          end).
Proof.
  intros Hs He Hr Ha.
  rewrite (@synthesize_relationship sa s _ (Operator "#")
             (Operator "[" :: token_element first
                :: flat_map (fun t => [Operator ","; token_element t]) others
                ++ [Operator "]"])%list Hs He Hr);
    [| cbn [relationship_elements]; unfold aggregated_tokens in Ha; now rewrite Ha].
  unfold _apply_shunting_yard, _build_expression.
  match goal with
  | |- context [shunting_yard (S ?n) ?l] =>
      change (shunting_yard (S n) l)
        with (shunting_yard_loop (shunting_yard n) l 3
                (flat_map (fun t => [Operator ","; token_element t]) others
                   ++ [Operator "]"])
                [token_element first] ["["; "#"])
  end.
  rewrite loop_aggregated. cbn [app]. unfold token_element at 1.
  rewrite build_token.
  rewrite <- (map_map (fun t => get_default t "token" "") (fun v => Token (Some v))).
  rewrite build_token_list.
  destruct others as [|o others].
  - reflexivity.
  - destruct (rev (map (fun t => get_default t "token" "") (o :: others)))
      as [|r below] eqn:E.
    { apply (f_equal (@length _)) in E. rewrite length_rev in E. discriminate. }
    cbn [app]. rewrite build_operator.
    change (apply_operator "#" (r :: ?b)) with (("#" ++ r) :: b).
    cbn [build]. f_equal.
    apply (@last_last _ (("#" ++ r)%string :: below)).
Qed.


Lemma synthesize_aggregation_witness :
  synthesize (one_relationship
                [("t1", [("source", "read"); ("token", "T12")]);
                 ("t2", [("source", "sort"); ("token", "T13")])]
                (AggregationRel [Some "read"; Some "sort"]))
  = Some "T12"
  /\ synthesize (one_relationship
                   [("t1", [("source", "read"); ("token", "T12")])]
                   (AggregationRel [Some "read"]))
     = Some "#T12".
Proof.
  split.
  - exact (@synthesize_aggregation
             (one_relationship
                [("t1", [("source", "read"); ("token", "T12")]);
                 ("t2", [("source", "sort"); ("token", "T13")])]
                (AggregationRel [Some "read"; Some "sort"]))
             _ _ _ _ eq_refl eq_refl eq_refl eq_refl).
  - exact (@synthesize_aggregation
             (one_relationship
                [("t1", [("source", "read"); ("token", "T12")])]
                (AggregationRel [Some "read"]))
             _ _ _ _ eq_refl eq_refl eq_refl eq_refl).
Defined.

End StructureSynthesizerProperties.

(* ================================================================== *)
(** * The expansion engine and the decoder *)
(* ================================================================== *)

Module ExpansionEngineProperties.
Import Dict ContextManager PAILangParser Decoder ExpansionEngine Pipeline.
Import DecoderProperties.

(** ** Replacement in texts without braces *)







(** ** The recursion of [expand_expression] *)

Lemma value_induction (P : value -> Prop) :
  P VNone -> (forall b, P (VBool b)) -> (forall z, P (VInt z)) -> (forall s, P (VStr s)) ->
  (forall l, Forall P l -> P (VList l)) ->
  (forall d, Forall (fun kv => P (snd kv)) d -> P (VDict d)) ->
  forall v, P v.
Proof.
  intros Hn Hb Hi Hs Hl Hd. fix IH 1. intros [| b | z | s | l | d].
  - exact Hn.
  - apply Hb.
  - apply Hi.
  - apply Hs.
  - apply Hl. induction l as [|x l IHl]; constructor; [apply IH | exact IHl].
  - apply Hd. induction d as [|[k x] d IHd]; constructor; [apply IH | exact IHd].
Qed.

Lemma expand_unfold stack token_dictionary kv rest :
  expand_expression stack token_dictionary (VDict (kv :: rest))
  = expand_entries stack token_dictionary (expand_expression stack token_dictionary)
                   (kv :: rest).
Proof.
  set (entries := kv :: rest).
  assert (Hchild : forall items k,
             (fix child (items : list (string * value)) (k : string) {struct items}
                : option string :=
                match items with
                | [] => Some ""
                | (k', v) :: rest =>
                    if String.eqb k' k then expand_expression stack token_dictionary v
                    else child rest k
                end) items k
             = child (expand_expression stack token_dictionary) items k).
  { induction items as [|[k' v] items IH]; intros k; [reflexivity|].
    unfold child in *. cbn [get]. destruct (String.eqb k' k); [reflexivity | apply IH]. }
  assert (Heach : forall l,
             (fix each (l : list value) {struct l} : list (option string) :=
                match l with
                | [] => []
                | x :: r => expand_expression stack token_dictionary x :: each r
                end) l = map (expand_expression stack token_dictionary) l).
  { induction l as [|x l IH]; [reflexivity|]. cbn [map]. now rewrite <- IH. }
  assert (Hchildren : forall items k,
             (fix children (items : list (string * value)) (k : string) {struct items}
                : option (list string) :=
                match items with
                | [] => Some []
                | (k', v) :: rest =>
                    if String.eqb k' k then
                      match v with
                      | VList l =>
                          all_of
                            ((fix each (l : list value) {struct l} : list (option string) :=
                                match l with
                                | [] => []
                                | x :: r =>
                                    expand_expression stack token_dictionary x :: each r
                                end) l)
                      | VDict d => Some (map (fun _ => "") d)
                      | VStr s => Some (map (fun _ => "") (PyStr.to_list s))
                      | _ => None
                      end
                    else children rest k
                end) items k
             = children (expand_expression stack token_dictionary) items k).
  { induction items as [|[k' v] items IH]; intros k; [reflexivity|].
    unfold children in *. cbn [get]. destruct (String.eqb k' k); [|apply IH].
    destruct v; reflexivity. }
  unfold expand_entries. rewrite <- !Hchild, <- !Hchildren. reflexivity.
Qed.


(** ** Placeholders in texts without braces *)














(** ** Contexts without modifiers *)

Lemma inert_silent category ctx : inert ctx = true -> silent category ctx = true.
Proof.
  unfold inert, silent. destruct ctx as [| | | | |c]; try discriminate.
  destruct (get_default c "definition" (VDict [])) as [| | | | |ctx_def]; try discriminate.
  now destruct (get ctx_def "tokenModifiers").
Qed.

Lemma resolve_inert stack tok :
  forallb inert stack = true -> resolve_in_context stack tok [] = Some (VDict []).
Proof.
  intros H. unfold resolve_in_context. cbv zeta.
  replace (match token_value tok with
           | Some v => get_default (V:=dict value) [] v []
           | None => []
           end) with (@nil (string * value)) by now destruct (token_value tok).
  destruct (get_current_context stack) as [top|] eqn:T; [|reflexivity].
  destruct (negb (truthy top)); [reflexivity|].
  assert (Htop : In top stack).
  { unfold get_current_context in T. destruct (rev stack) as [|x l] eqn:R; [discriminate|].
    injection T as ->. apply in_rev. rewrite R. now left. }
  rewrite forallb_forall in H. pose proof (H _ Htop) as Ht.
  destruct top as [| | | | |c]; try discriminate.
  cbn [get]. apply ContextManagerProperties.scan_contexts_silent.
  apply forallb_forall. intros x Hx. apply inert_silent. now apply H.
Qed.

Lemma expand_token_inert stack token :
  forallb inert stack = true ->
  expand_token stack [] token = expand_token [] [] token.
Proof.
  intros H. unfold expand_token. destruct (as_token token) as [tok|]; [|reflexivity].
  rewrite (@resolve_inert stack tok H), (@resolve_inert [] tok eq_refl). reflexivity.
Qed.

Lemma child_ext (f g : value -> option string) entries k :
  (forall v, In v (values entries) -> f v = g v) ->
  child f entries k = child g entries k.
Proof.
  intros H. unfold child. destruct (get entries k) as [v|] eqn:E; [|reflexivity].
  apply H. apply DictFacts.get_In in E. unfold values.
  exact (in_map snd entries (k, v) E).
Qed.

Lemma children_ext (f g : value -> option string) entries k :
  (forall l, In (VList l) (values entries) -> Forall (fun x => f x = g x) l) ->
  children f entries k = children g entries k.
Proof.
  intros H. unfold children. destruct (get entries k) as [v|] eqn:E; [|reflexivity].
  destruct v as [| | | |l|]; try reflexivity.
  f_equal. apply DictFacts.get_In in E.
  assert (Hl : Forall (fun x => f x = g x) l).
  { apply H. unfold values. exact (in_map snd entries (k, VList l) E). }
  clear E H. induction Hl as [|x l Hx _ IH]; [reflexivity|]. cbn [map]. now rewrite Hx, IH.
Qed.

(** The expansion depends on the stack through the tokens only: contexts
    without modifiers change nothing. *)
Lemma expand_expression_inert stack :
  forallb inert stack = true ->
  forall v, expand_expression stack [] v = expand_expression [] [] v.
Proof.
  intros Hstack.
  assert (H : forall v,
             expand_expression stack [] v = expand_expression [] [] v
             /\ match v with
                | VList l =>
                    Forall (fun x => expand_expression stack [] x
                                     = expand_expression [] [] x) l
                | _ => True
                end).
  { induction v as [| b | z | s | l Hl | d Hd] using value_induction;
      try (split; [reflexivity | exact I]).
    - split; [reflexivity|]. apply Forall_impl with (2 := Hl). now intros a [Ha _].
    - split; [|exact I]. destruct d as [|kv rest]; [reflexivity|].
      rewrite !expand_unfold. unfold expand_entries.
      rewrite (@expand_token_inert stack _ Hstack).
      assert (Hc : forall k,
                 child (expand_expression stack []) (kv :: rest) k
                 = child (expand_expression [] []) (kv :: rest) k).
      { intros k. apply child_ext. intros v Hv. unfold values in Hv.
        apply in_map_iff in Hv. destruct Hv as [x [<- Hx]].
        rewrite Forall_forall in Hd. now apply (Hd x Hx). }
      assert (Hcs : forall k,
                 children (expand_expression stack []) (kv :: rest) k
                 = children (expand_expression [] []) (kv :: rest) k).
      { intros k. apply children_ext. intros l Hv. unfold values in Hv.
        apply in_map_iff in Hv. destruct Hv as [x [Hx' Hx]].
        rewrite Forall_forall in Hd. pose proof (proj2 (Hd x Hx)) as Hq.
        now rewrite Hx' in Hq. }
      rewrite !Hc, !Hcs. reflexivity. }
  intros v. apply H.
Qed.


(** ** The stack that [apply_context] leaves *)

Lemma activated_inert e : forallb inert (activated_by e []) = true.
Proof.
  destruct e; try reflexivity; cbn [activated_by];
    match goal with |- context [String.eqb ?c "C"] => destruct (String.eqb c "C") end;
    reflexivity.
Qed.

Lemma process_values_inert entries :
  Forall (fun kv => keeps_inert (visit (snd kv))) entries ->
  keeps_inert (process_values entries).
Proof.
  unfold process_values.
  induction 1 as [|kv entries Hkv _ IH]; intros stack Hs; [assumption|].
  cbn [fold_left]. apply IH. now apply Hkv.
Qed.

Lemma process_items_inert l :
  Forall (fun n => keeps_inert (_process_context_activations (dictionary_of n))) l ->
  keeps_inert (process_items (map dictionary_of l)).
Proof.
  unfold process_items.
  induction 1 as [|n l Hn _ IH]; intros stack Hs; [assumption|].
  cbn [map fold_left]. rewrite item_dictionary. apply IH. now apply Hn.
Qed.

Lemma visit_scalar v :
  match v with VDict _ | VList _ => False | _ => True end -> keeps_inert (visit v).
Proof. destruct v; intros H stack Hs; try contradiction; exact Hs. Qed.

Ltac entry_inert :=
  cbn [snd];
  first [ apply visit_scalar; exact I
        | intros ? ?; rewrite visit_dictionary;
          match goal with IH : keeps_inert _ |- _ => now apply IH end
        | cbn [visit]; apply process_items_inert; assumption ].

Lemma process_inert n : keeps_inert (_process_context_activations (dictionary_of n)).
Proof.
  induction n as [system e Hs He | id version Hv | l Hl | t n | l r IHl IHr
                  | c t f IHc IHt IHf | l r IHl IHr | l r IHl IHr | l r IHl IHr | l Hl
                  | n e He | l Hl | l Hl | l Hl | e c IHe IHc | c i | p c i]
    using node_induction;
    intros stack Hstack; rewrite dictionary_of_entries, process_unfold.
  all: apply process_values_inert.
  all: try (destruct system as [[s|]|]); try (destruct version as [v|]);
    try (destruct e as [e|]).
  all: try (unfold entries_of; cbn [dictionary_of app];
            cbn [get String.eqb Ascii.eqb Bool.eqb is_str]; assumption).
  all: try (unfold entries_of; cbn [dictionary_of app]; repeat constructor; entry_inert).
  - (* a version component, whose type is any string *)
    replace (is_str (get (entries_of (VersionComponent t n)) "type") "ContextActivation")
      with (String.eqb t "ContextActivation") by reflexivity.
    destruct (String.eqb t "ContextActivation"); assumption.
  - (* a context activation *)
    replace (is_str (get (entries_of (ContextActivation e c)) "type") "ContextActivation")
      with true by reflexivity.
    rewrite <- dictionary_of_entries, process_context_activation_stack.
    rewrite forallb_app, Hstack. apply activated_inert.
Qed.


Lemma node_value e :
  get_or_none (entries_of e) "value" = VNone
  \/ exists s, get_or_none (entries_of e) "value" = VStr s.
Proof.
  destruct e as [[[s|]|] x| id [v|] | | t n | | | | | | | n [e|] | | | | | c i | p c i];
    try (left; reflexivity); right; eexists; reflexivity.
Qed.

(** [apply_context] does not fail on what the parser returns, and every
    context it leaves on the stack is without modifiers. *)
Lemma contextualize_pailang system e :
  exists m, contextualize (PAILang system e) = Some m
            /\ forallb inert (contexts m) = true.
Proof.
  unfold contextualize, apply_context.
  replace (is_str (get (entries_of (PAILang system e)) "type") "PAILang") with true
    by (destruct system as [[s|]|]; reflexivity).
  replace (get (entries_of (PAILang system e)) "expression")
    with (Some (dictionary_of e)) by (destruct system as [[s|]|]; reflexivity).
  rewrite (dictionary_of_entries e), <- (dictionary_of_entries (PAILang system e)).
  destruct (is_str (get (entries_of e) "type") "SystemIdentifier").
  - destruct (node_value e) as [-> | [s ->]].
    + eexists. split; [reflexivity|]. cbn [contexts]. now apply process_inert.
    + unfold initialize_system_context.
      cbn [get String.eqb Ascii.eqb Bool.eqb get_or_none].
      destruct (truthy (VStr s)); eexists; (split; [reflexivity|]);
        cbn [contexts]; now apply process_inert.
  - eexists. split; [reflexivity|]. cbn [contexts]. now apply process_inert.
Qed.

(** X29: the context activations of an input change nothing in what
    [decode] returns: the decoder's dictionaries are empty, so every
    context that [apply_context] pushes is without modifiers, and the
    result is the expansion on an empty context stack. *)
Theorem decode_ignores_context_activations
        (system : option (option node)) (e : node) :
  decode_parsed (PAILang system e)
  = expand_to_cl [] [] (dictionary_of (PAILang system e)).
Proof.
  unfold decode_parsed.
  destruct (contextualize_pailang system e) as [m [-> Hm]].
  unfold expand_to_cl.
  destruct (dictionary_of (PAILang system e)) as [| | | | |[|kv entries]]; try reflexivity.
  now rewrite (expand_expression_inert _ Hm).
Qed.

(** X30: what [decode] never expands: for a parsed repetition and a
    parsed group in brackets it returns an unknown-expression line, for a
    token sequence the header alone, for an aggregation the markers around
    an empty operand; the count and the expressions inside are not read. *)
Theorem decode_leaves_structures_out
        (system : option (option node)) (count : N) (e : option node)
        (expressions : list node) :
  decode_parsed (PAILang system (RepetitionExpression count e))
  = Some (header ++ ">>> UNKNOWN_EXPRESSION [RepetitionExpression]")
  /\ decode_parsed (PAILang system (BracketedExpression expressions))
     = Some (header ++ ">>> UNKNOWN_EXPRESSION [BracketedExpression]")
  /\ decode_parsed (PAILang system (TokenSequence expressions)) = Some header
  /\ decode_parsed (PAILang system (AggregationExpression expressions))
     = Some (header ++ ">>> AGGREGATE" ++ newline ++ "    " ++ newline
                    ++ ">>> END_AGGREGATE").
Proof.
  repeat split; unfold decode_parsed;
    match goal with
    | |- context [contextualize (PAILang ?s ?x)] =>
        destruct (contextualize_pailang s x) as [m [-> _]]
    end;
    destruct system as [[s|]|]; reflexivity.
Qed.

End ExpansionEngineProperties.
